(** * Document-Intelligence-Platform: the processing service, in Rocq

    A shallow embedding of the document pipeline of the repository
    ([server/services/documentPipeline], [server/services/vectorSearch],
    [server/services/localEmbedding], the Mongoose models and the upload
    route) together with the properties its specification states, and of
    the code around it (the Chroma client, the comparison of versions,
    the stored file name and the delete route) with further properties
    that the code itself shows.

    Conventions of the embedding
    - a JavaScript string is a [list ascii], a sequence of code units
      below 256; white space, the lower case and the upper case are the
      ones of JavaScript on these code units, except that U+00B5 and
      U+00FF, whose upper cases lie above 255, are left as they are by
      [toUpperCase]; texts with code units from 256 on are outside the
      model;
    - JavaScript numbers that hold indexes, counts and page numbers are
      [Z] or [nat]; confidence scores are rationals [Q]; the entries of
      embedding vectors and similarity scores are binary64 numbers, the
      primitive floats of [PrimFloat], with [NaN] and the infinities;
    - a regular expression is kept as its source text and interpreted by
      a backtracking matcher that follows the ECMAScript algorithm;
    - code that talks to the outside world (file system, PDF parser, OCR,
      Gemini, Chroma, MongoDB) takes its answers from an environment
      record; each such call may throw, the reads and updates of the
      documents collection included;
    - [RiskFlagModel.insertMany] validates what it is given against
      [riskFlagSchema] and throws when a flag does not pass. *)

From Stdlib Require Import Floats.
From Stdlib Require Import ZArith List Ascii String Lia Bool.
From Stdlib Require Import QArith Qround DecimalString.
From Stdlib Require Import Sorted.
From Stdlib Require Import DecimalNat.
From stdpp Require Import base gmap sets list strings.
Import ListNotations.

#[local] Set Warnings "-inexact-float".

Local Close Scope Q_scope.
Local Open Scope Z_scope.
Local Open Scope nat_scope.
Local Open Scope list_scope.

(** ** JavaScript strings *)

Module JS.

Abbreviation jstring := (list ascii).

(** A string literal. *)
Definition lit (s : string) : jstring := list_ascii_of_string s.

(** A string as the key of a [Set] or of an object used as a dictionary. *)
Definition key (s : jstring) : string := string_of_list_ascii s.

Definition code (c : ascii) : nat := nat_of_ascii c.

Definition inRange (lo hi : nat) (c : ascii) : bool :=
  (lo <=? code c) && (code c <=? hi).

(** White space and line terminators ([\s], [trim]): the code units
    9 to 13, 32 and 160 (U+00A0). *)
Definition isWhiteSpace (c : ascii) : bool :=
  inRange 9 13 c || (code c =? 32) || (code c =? 160).

Definition isDigit (c : ascii) : bool := inRange 48 57 c.
Definition isUpper (c : ascii) : bool := inRange 65 90 c.
Definition isLower (c : ascii) : bool := inRange 97 122 c.

(** [\w] *)
Definition isWordChar (c : ascii) : bool :=
  isDigit c || isUpper c || isLower c || (code c =? 95).

(** The letters with a lower and an upper case among the code units
    below 256: [A-Z] and U+00C0 to U+00DE without U+00D7, and their lower
    cases 32 above. (U+00DF, U+00B5 and U+00FF are lower-case letters
    without an upper case of one code unit below 256.) *)
Definition isUpperLetter (c : ascii) : bool :=
  isUpper c || (inRange 192 222 c && negb (code c =? 215)).
Definition isLowerLetter (c : ascii) : bool :=
  isLower c || (inRange 224 254 c && negb (code c =? 247)).

Definition lowerChar (c : ascii) : ascii :=
  if isUpperLetter c then ascii_of_nat (code c + 32) else c.
Definition upperChar (c : ascii) : ascii :=
  if isLowerLetter c then ascii_of_nat (code c - 32) else c.

(** [s.toLowerCase()] *)
Definition toLowerCase (s : jstring) : jstring := map lowerChar s.

(** [s.toUpperCase()]: U+00DF becomes [SS]. (The upper cases of U+00B5
    and U+00FF lie above 255; the two are left as they are.) *)
Definition toUpperCase (s : jstring) : jstring :=
  flat_map (fun c => if code c =? 223 then ["S"; "S"]%char else [upperChar c]) s.

(** A text of ASCII characters. *)
Definition isAscii (s : jstring) : bool := forallb (fun c => code c <? 128) s.

Fixpoint trimStart (s : jstring) : jstring :=
  match s with
  | c :: s' => if isWhiteSpace c then trimStart s' else s
  | [] => []
  end.

Definition trimEnd (s : jstring) : jstring := rev (trimStart (rev s)).

Definition trim (s : jstring) : jstring := trimEnd (trimStart s).

(** Truthiness of a string: non-empty. *)
Definition truthy (s : jstring) : bool :=
  match s with [] => false | _ => true end.

(** [relIndex len i]: an index argument of [slice], negative values
    counting from the end, clamped to [0, len]. *)
Definition relIndex (len : nat) (i : Z) : nat :=
  if (i <? 0)%Z then Z.to_nat (Z.max (Z.of_nat len + i) 0)
  else Nat.min (Z.to_nat i) len.

(** [s.slice(a, b)] *)
Definition slice (s : jstring) (a b : Z) : jstring :=
  let from := relIndex (length s) a in
  let to := relIndex (length s) b in
  take (to - from) (drop from s).

(** [s.slice(a)] *)
Definition sliceFrom (s : jstring) (a : Z) : jstring :=
  drop (relIndex (length s) a) s.

Fixpoint startsWith (p s : jstring) : bool :=
  match p, s with
  | [], _ => true
  | a :: p', b :: s' => if ascii_dec a b then startsWith p' s' else false
  | _ :: _, [] => false
  end.

(** [s.includes(p)] *)
Fixpoint includes (s p : jstring) : bool :=
  startsWith p s ||
  match s with
  | [] => false
  | _ :: s' => includes s' p
  end.

(** [lastIndexFrom p s i acc]: scanning [s], whose first character has
    index [i], the last index at which [p] occurs, [acc] if none. *)
Fixpoint lastIndexFrom (p s : jstring) (i acc : Z) : Z :=
  let acc' := if startsWith p s then i else acc in
  match s with
  | [] => acc'
  | _ :: s' => lastIndexFrom p s' (i + 1)%Z acc'
  end.

(** [s.lastIndexOf(p)] *)
Definition lastIndexOf (s p : jstring) : Z := lastIndexFrom p s 0%Z (-1)%Z.

(** [parts.join(sep)] *)
Fixpoint join (sep : jstring) (parts : list jstring) : jstring :=
  match parts with
  | [] => []
  | [p] => p
  | p :: ps => p ++ sep ++ join sep ps
  end.

End JS.

Import JS.

(** ** Text chunking ([chunkText]) *)

Definition CHUNK_SIZE : Z := 800.
Definition CHUNK_OVERLAP : Z := 100.

Record Chunk := mkChunk {
  chunk_text : jstring;
  chunk_pageNumber : Z
}.

(** One iteration of the [while] loop of [chunkText], entered with
    [start < text.length]: the slice that is considered for pushing and
    the next value of [start]. *)
Definition chunkStep (text : jstring) (start : Z) : jstring * Z :=
  let len := Z.of_nat (length text) in
  let end_ := Z.min (start + CHUNK_SIZE) len in
  let slice0 := slice text start end_ in
  if (end_ <? len)%Z then
    let lastSpace := lastIndexOf slice0 (lit " ") in
    if (lastSpace >? CHUNK_SIZE / 2)%Z then
      (slice slice0 0 (lastSpace + 1), (start + (lastSpace + 1 - CHUNK_OVERLAP))%Z)
    else
      (slice0, (end_ - CHUNK_OVERLAP)%Z)
  else
    (slice0, len).

Definition pushChunk (chunks : list Chunk) (slice0 : jstring) (pageNumber : Z)
  : list Chunk :=
  if truthy (trim slice0) then chunks ++ [mkChunk (trim slice0) pageNumber]
  else chunks.

(** The [while (start < text.length)] loop; [fuel] bounds the number of
    iterations, [None] when it is exhausted before the loop exits. *)
Fixpoint chunkLoop (fuel : nat) (text : jstring) (pageNumber : Z)
  (start : Z) (chunks : list Chunk) : option (list Chunk) :=
  if (start <? Z.of_nat (length text))%Z then
    match fuel with
    | O => None
    | S fuel' =>
        let '(slice0, start') := chunkStep text start in
        chunkLoop fuel' text pageNumber start' (pushChunk chunks slice0 pageNumber)
    end
  else Some chunks.

Definition chunkFinish (text : jstring) (pageNumber : Z) (chunks : list Chunk)
  : list Chunk :=
  let fallback := trim (slice text 0 CHUNK_SIZE) in
  match chunks with
  | _ :: _ => chunks
  | [] => if truthy fallback then [mkChunk fallback pageNumber] else []
  end.

(** [chunkText]: the loop never needs more than [text.length] iterations
    (see [chunkLoop_fuel] below), so the [None] case does not occur. *)
Definition chunkText (text : jstring) (pageNumber : Z) : list Chunk :=
  match chunkLoop (length text) text pageNumber 0%Z [] with
  | Some chunks => chunkFinish text pageNumber chunks
  | None => []
  end.


(** ** Regular expressions

    The patterns of the source are kept as text and parsed into [re];
    [run] is the backtracking matcher of ECMAScript (continuation
    passing: the first success in priority order is the match). *)

Module Regex.

Inductive cls := Digit | Word | Space.

Inductive citem :=
| IChar (c : ascii)
| IRange (lo hi : ascii)
| IClass (k : cls) (neg : bool).

Inductive re :=
| Empty
| Chr (c : ascii)
| Dot
| CSet (neg : bool) (items : list citem)
| Seq (a b : re)
| Alt (a b : re)
| Rep (a : re) (lo : nat) (hi : option nat) (greedy : bool)
| Group (n : nat) (a : re)
| Bol
| Eol
| WordB (neg : bool).

(** A regular expression that matches nothing (used for a pattern that does
    not parse; [patterns_parse] shows that none of the source does). *)
Definition Never : re := CSet false [].

(** *** Parser *)

Definition chr (n : nat) : ascii := ascii_of_nat n.

Definition isSyntaxChar (c : ascii) : bool :=
  match code c with
  | 42 | 43 | 63 | 40 | 41 | 91 | 123 | 124 => true   (* * + ? ( ) [ { | *)
  | _ => false
  end.

Fixpoint pNat (s : jstring) (acc : option nat) : option nat * jstring :=
  match s with
  | c :: s' =>
      if isDigit c
      then pNat s' (Some (10 * default 0 acc + (code c - 48)))
      else (acc, s)
  | [] => (acc, s)
  end.

(** The escape [\c] as a class item. *)
Definition escapeItem (c : ascii) : citem :=
  match code c with
  | 100 => IClass Digit false   (* \d *)
  | 68 => IClass Digit true     (* \D *)
  | 119 => IClass Word false    (* \w *)
  | 87 => IClass Word true      (* \W *)
  | 115 => IClass Space false   (* \s *)
  | 83 => IClass Space true     (* \S *)
  | 110 => IChar (chr 10)       (* \n *)
  | 114 => IChar (chr 13)       (* \r *)
  | 116 => IChar (chr 9)        (* \t *)
  | _ => IChar c
  end.

(** One member of a character class: an escape or a plain character. *)
Definition pClassAtom (s : jstring) : option (citem * jstring) :=
  match s with
  | c :: s' =>
      if code c =? 92 then
        match s' with
        | e :: s'' => Some (escapeItem e, s'')
        | [] => None
        end
      else Some (IChar c, s')
  | [] => None
  end.

(** The members of a class up to the closing bracket. *)
Fixpoint pClassItems (fuel : nat) (s : jstring) : option (list citem * jstring) :=
  match fuel with
  | O => None
  | S fuel' =>
      match s with
      | [] => None
      | c :: s' =>
          if code c =? 93 then Some ([], s')
          else
            match pClassAtom s with
            | None => None
            | Some (a, s1) =>
                match a, s1 with
                | IChar lo, d :: s2 =>
                    if (code d =? 45) &&
                       negb (match s2 with e :: _ => code e =? 93 | [] => true end)
                    then
                      match pClassAtom s2 with
                      | Some (IChar hi, s3) =>
                          match pClassItems fuel' s3 with
                          | Some (r, s4) => Some (IRange lo hi :: r, s4)
                          | None => None
                          end
                      | Some (b, s3) =>
                          match pClassItems fuel' s3 with
                          | Some (r, s4) => Some (a :: IChar d :: b :: r, s4)
                          | None => None
                          end
                      | None => None
                      end
                    else
                      match pClassItems fuel' s1 with
                      | Some (r, s4) => Some (a :: r, s4)
                      | None => None
                      end
                | _, _ =>
                    match pClassItems fuel' s1 with
                    | Some (r, s4) => Some (a :: r, s4)
                    | None => None
                    end
                end
            end
      end
  end.

(** A quantifier after an atom, if any. *)
Definition pQuant (a : re) (s : jstring) : option (re * jstring) :=
  let lazy (s : jstring) : bool * jstring :=
    match s with
    | c :: s' => if code c =? 63 then (false, s') else (true, s)
    | [] => (true, s)
    end in
  match s with
  | c :: s' =>
      match code c with
      | 42 => let '(g, r) := lazy s' in Some (Rep a 0 None g, r)
      | 43 => let '(g, r) := lazy s' in Some (Rep a 1 None g, r)
      | 63 => let '(g, r) := lazy s' in Some (Rep a 0 (Some 1) g, r)
      | 123 =>
          match pNat s' None with
          | (Some lo, d :: s1) =>
              if code d =? 125 then
                let '(g, r) := lazy s1 in Some (Rep a lo (Some lo) g, r)
              else if code d =? 44 then
                match pNat s1 None with
                | (hi, e :: s2) =>
                    if code e =? 125 then
                      let '(g, r) := lazy s2 in Some (Rep a lo hi g, r)
                    else None
                | _ => None
                end
              else None
          | _ => None
          end
      | _ => Some (a, s)
      end
  | [] => Some (a, s)
  end.

(** The escape [\c] as an atom. *)
Definition escapeAtom (c : ascii) : re :=
  match code c with
  | 98 => WordB false   (* \b *)
  | 66 => WordB true    (* \B *)
  | _ =>
      match escapeItem c with
      | IChar x => Chr x
      | i => CSet false [i]
      end
  end.

(** Disjunction, alternative and atom; [n] is the number of the next
    capturing group. *)
Fixpoint pDisj (fuel n : nat) (s : jstring) : option (re * nat * jstring) :=
  match fuel with
  | O => None
  | S fuel' =>
      match pAlt fuel' n s with
      | Some (a, n1, s1) =>
          match s1 with
          | c :: s2 =>
              if code c =? 124 then
                match pDisj fuel' n1 s2 with
                | Some (b, n2, s3) => Some (Alt a b, n2, s3)
                | None => None
                end
              else Some (a, n1, s1)
          | [] => Some (a, n1, s1)
          end
      | None => None
      end
  end
with pAlt (fuel n : nat) (s : jstring) : option (re * nat * jstring) :=
  match fuel with
  | O => None
  | S fuel' =>
      match s with
      | [] => Some (Empty, n, s)
      | c :: _ =>
          if (code c =? 124) || (code c =? 41) then Some (Empty, n, s)
          else
            match pAtom fuel' n s with
            | Some (a, n1, s1) =>
                match pQuant a s1 with
                | Some (q, s2) =>
                    match pAlt fuel' n1 s2 with
                    | Some (Empty, n2, s3) => Some (q, n2, s3)
                    | Some (b, n2, s3) => Some (Seq q b, n2, s3)
                    | None => None
                    end
                | None => None
                end
            | None => None
            end
      end
  end
with pAtom (fuel n : nat) (s : jstring) : option (re * nat * jstring) :=
  match fuel with
  | O => None
  | S fuel' =>
      match s with
      | [] => None
      | c :: s' =>
          match code c with
          | 40 =>   (* ( *)
              match s' with
              | q :: k :: s'' =>
                  if (code q =? 63) && (code k =? 58) then
                    match pDisj fuel' n s'' with
                    | Some (a, n1, d :: s1) =>
                        if code d =? 41 then Some (a, n1, s1) else None
                    | _ => None
                    end
                  else
                    match pDisj fuel' (S n) s' with
                    | Some (a, n1, d :: s1) =>
                        if code d =? 41 then Some (Group n a, n1, s1) else None
                    | _ => None
                    end
              | _ =>
                  match pDisj fuel' (S n) s' with
                  | Some (a, n1, d :: s1) =>
                      if code d =? 41 then Some (Group n a, n1, s1) else None
                  | _ => None
                  end
              end
          | 91 =>   (* [ *)
              let '(neg, s1) :=
                match s' with
                | h :: t => if code h =? 94 then (true, t) else (false, s')
                | [] => (false, s')
                end in
              match pClassItems (S (length s1)) s1 with
              | Some (items, s2) => Some (CSet neg items, n, s2)
              | None => None
              end
          | 92 =>   (* \ *)
              match s' with
              | e :: s1 => Some (escapeAtom e, n, s1)
              | [] => None
              end
          | 46 => Some (Dot, n, s')
          | 94 => Some (Bol, n, s')
          | 36 => Some (Eol, n, s')
          | _ => if isSyntaxChar c then None else Some (Chr c, n, s')
          end
      end
  end.

Definition parse (src : jstring) : option re :=
  match pDisj (4 * length src + 8) 1 src with
  | Some (r, _, []) => Some r
  | _ => None
  end.

(** *** Matcher *)

(** A position in the input: the index, the character before it, the
    characters from it on, and the captures made so far. *)
Record St := mkSt {
  pos : nat;
  prev : option ascii;
  rest : jstring;
  caps : list (nat * (nat * nat))
}.

Definition advance (s : St) (x : ascii) (xs : jstring) : St :=
  mkSt (S (pos s)) (Some x) xs (caps s).

Definition setCap (n from : nat) (s : St) : St :=
  mkSt (pos s) (prev s) (rest s) ((n, (from, pos s)) :: caps s).

(** Characters are compared after canonicalisation when the [i] flag is set. *)
Definition eqChar (ic : bool) (a b : ascii) : bool :=
  if ic then code (upperChar a) =? code (upperChar b) else code a =? code b.

Definition inCls (k : cls) (x : ascii) : bool :=
  match k with
  | Digit => isDigit x
  | Word => isWordChar x
  | Space => isWhiteSpace x
  end.

Definition inItem (ic : bool) (i : citem) (x : ascii) : bool :=
  match i with
  | IChar c => eqChar ic c x
  | IRange lo hi =>
      inRange (code lo) (code hi) x ||
      (ic && (inRange (code lo) (code hi) (lowerChar x) ||
              inRange (code lo) (code hi) (upperChar x)))
  | IClass k neg => xorb neg (inCls k x)
  end.

Definition isLineTerminator (x : ascii) : bool :=
  (code x =? 10) || (code x =? 13).

Definition isWordAt (o : option ascii) : bool :=
  match o with Some c => isWordChar c | None => false end.

(** [one p k s]: consume one character satisfying [p]. *)
Definition one (p : ascii -> bool) (k : St -> option St) (s : St) : option St :=
  match rest s with
  | x :: xs => if p x then k (advance s x xs) else None
  | [] => None
  end.

Definition belowMax (hi : option nat) (count : nat) : bool :=
  match hi with Some h => count <? h | None => true end.

Fixpoint run (ic : bool) (r : re) (k : St -> option St) (s : St) {struct r}
  : option St :=
  match r with
  | Empty => k s
  | Chr c => one (eqChar ic c) k s
  | Dot => one (fun x => negb (isLineTerminator x)) k s
  | CSet neg items => one (fun x => xorb neg (existsb (fun i => inItem ic i x) items)) k s
  | Seq a b => run ic a (run ic b k) s
  | Alt a b =>
      match run ic a k s with
      | Some e => Some e
      | None => run ic b k s
      end
  | Group n a => run ic a (fun e => k (setCap n (pos s) e)) s
  | Bol => if pos s =? 0 then k s else None
  | Eol => match rest s with [] => k s | _ => None end
  | WordB neg =>
      if xorb neg (xorb (isWordAt (prev s)) (isWordAt (head (rest s))))
      then k s else None
  | Rep a lo hi greedy =>
      (fix loop (fuel count : nat) (s : St) {struct fuel} : option St :=
         match fuel with
         | O => None
         | S fuel' =>
             let more (_ : unit) : option St :=
               if belowMax hi count then
                 run ic a
                   (fun e =>
                      if (lo <=? count) && (pos e =? pos s) then None
                      else loop fuel' (S count) e)
                   s
               else None in
             let stop (_ : unit) : option St :=
               if lo <=? count then k s else None in
             if greedy then
               match more tt with Some e => Some e | None => stop tt end
             else
               match stop tt with Some e => Some e | None => more tt end
         end) (lo + length (rest s) + 1) 0 s
  end.

(** A match: start and end index and the captures. *)
Record Match := mkMatch {
  m_start : nat;
  m_end : nat;
  m_caps : list (nat * (nat * nat))
}.

(** The match that starts exactly at the position [s], if any. *)
Definition matchAt (ic : bool) (r : re) (s : St) : option Match :=
  match run ic r Some (mkSt (pos s) (prev s) (rest s) []) with
  | Some e => Some (mkMatch (pos s) (pos e) (caps e))
  | None => None
  end.

(** The leftmost match at or after the position [(i, p, s)]. *)
Fixpoint searchFrom (ic : bool) (r : re) (i : nat) (p : option ascii)
  (s : jstring) : option Match :=
  match matchAt ic r (mkSt i p s []) with
  | Some m => Some m
  | None =>
      match s with
      | [] => None
      | x :: xs => searchFrom ic r (S i) (Some x) xs
      end
  end.

Definition search (ic : bool) (r : re) (s : jstring) : option Match :=
  searchFrom ic r 0 None s.

Fixpoint lookupCap (n : nat) (cs : list (nat * (nat * nat))) : option (nat * nat) :=
  match cs with
  | [] => None
  | (m, se) :: cs' => if m =? n then Some se else lookupCap n cs'
  end.

End Regex.

(** ** [RegExp] objects and the string methods that take them *)

Record RegExp := mkRegExp {
  source : jstring;
  ignoreCase : bool;
  global : bool
}.

(** [/src/], [/src/i], [/src/g] and [/src/gi]. *)
Definition rx (src : string) : RegExp := mkRegExp (lit src) false false.
Definition rxi (src : string) : RegExp := mkRegExp (lit src) true false.
Definition rxg (src : string) : RegExp := mkRegExp (lit src) false true.
Definition rxgi (src : string) : RegExp := mkRegExp (lit src) true true.

Definition compile (p : RegExp) : Regex.re :=
  default Regex.Never (Regex.parse (source p)).

Definition exec (p : RegExp) (s : jstring) : option Regex.Match :=
  Regex.search (ignoreCase p) (compile p) s.

(** [p.test(s)] *)
Definition test (p : RegExp) (s : jstring) : bool :=
  match exec p s with Some _ => true | None => false end.

(** The array returned by [s.match(p)] for a pattern without [g]:
    the matched text and the first capture. *)
Record MatchArray := mkMatchArray {
  m0 : jstring;
  m1 : option jstring
}.

Definition substring (s : jstring) (from to : nat) : jstring :=
  take (to - from) (drop from s).

(** [s.match(p)] *)
Definition match_ (s : jstring) (p : RegExp) : option MatchArray :=
  match exec p s with
  | Some m =>
      Some (mkMatchArray
              (substring s (Regex.m_start m) (Regex.m_end m))
              (match Regex.lookupCap 1 (Regex.m_caps m) with
               | Some (a, b) => Some (substring s a b)
               | None => None
               end))
  | None => None
  end.

(** The loop of a [g] replace: [s] is the input from index [i] on, [pv]
    the character before it. *)
Fixpoint replaceLoop (fuel : nat) (ic : bool) (r : Regex.re) (repl : jstring)
  (i : nat) (pv : option ascii) (s : jstring) : jstring :=
  match fuel with
  | O => s
  | S fuel' =>
      match Regex.searchFrom ic r i pv s with
      | None => s
      | Some m =>
          let before := take (Regex.m_start m - i) s in
          if Regex.m_end m =? Regex.m_start m then
            match drop (Regex.m_start m - i) s with
            | [] => before ++ repl
            | x :: xs =>
                before ++ repl ++ x ::
                  replaceLoop fuel' ic r repl (S (Regex.m_start m)) (Some x) xs
            end
          else
            before ++ repl ++
              replaceLoop fuel' ic r repl (Regex.m_end m)
                (last (take (Regex.m_end m - i) s))
                (drop (Regex.m_end m - i) s)
      end
  end.

(** [s.replace(p, repl)]; none of the replacement texts of the source
    refers to a capture of its pattern, so [repl] is inserted as it is. *)
Definition replace (s : jstring) (p : RegExp) (repl : jstring) : jstring :=
  if global p then
    replaceLoop (S (length s)) (ignoreCase p) (compile p) repl 0 None s
  else
    match exec p s with
    | Some m => take (Regex.m_start m) s ++ repl ++ drop (Regex.m_end m) s
    | None => s
    end.

(** The loop of [split]: [s] is the input from index [q] on, [seg] the
    characters since the end [p] of the last separator, reversed. *)
Fixpoint splitLoop (fuel : nat) (ic : bool) (r : Regex.re)
  (p q : nat) (pv : option ascii) (s : jstring) (seg : jstring) : list jstring :=
  match fuel with
  | O => [rev seg ++ s]
  | S fuel' =>
      match s with
      | [] => [rev seg]
      | x :: xs =>
          match Regex.matchAt ic r (Regex.mkSt q pv s []) with
          | Some m =>
              let e := Regex.m_end m in
              if e =? p then splitLoop fuel' ic r p (S q) (Some x) xs (x :: seg)
              else
                rev seg ::
                  splitLoop fuel' ic r e e
                    (match last (take (e - q) s) with Some c => Some c | None => pv end)
                    (drop (e - q) s) []
          | None => splitLoop fuel' ic r p (S q) (Some x) xs (x :: seg)
          end
      end
  end.

(** [s.split(p)] for a pattern without captures. *)
Definition split (s : jstring) (p : RegExp) : list jstring :=
  match s with
  | [] =>
      match Regex.matchAt (ignoreCase p) (compile p) (Regex.mkSt 0 None [] []) with
      | Some _ => []
      | None => [[]]
      end
  | _ => splitLoop (2 * length s + 2) (ignoreCase p) (compile p) 0 0 None s []
  end.

(** [String(n)] for a non-negative integer. *)
Definition showNat (n : nat) : jstring :=
  lit (DecimalString.NilZero.string_of_uint (Nat.to_uint n)).

(** ** Document type detection ([detectDocumentType]) *)

Inductive DocumentTypeKind :=
| contract | invoice | identity_document | nda | sla | purchase_order | unknown.

(** The string a [DocumentTypeKind] stands for. *)
Definition kindName (k : DocumentTypeKind) : jstring :=
  match k with
  | contract => lit "contract"
  | invoice => lit "invoice"
  | identity_document => lit "identity_document"
  | nda => lit "nda"
  | sla => lit "sla"
  | purchase_order => lit "purchase_order"
  | unknown => lit "unknown"
  end.

Definition contractIndicators : list RegExp := [
  rxi "agreement"; rxi "contract"; rxi "parties"; rxi "between\s+[a-z]";
  rxi "whereas"; rxi "hereby"; rxi "terms?\s*and\s*conditions";
  rxi "termination"; rxi "confidentiality"; rxi "liability";
  rxi "indemnif"; rxi "governing\s*law"; rxi "arbitration";
  rxi "service\s*agreement"; rxi "master\s*agreement";
  rxi "this\s+agreement"; rxi "party\s+of\s+the";
  rxi "witnesseth"; rxi "herein"; rxi "notwithstanding"
].

Definition invoiceIndicators : list RegExp := [
  rxi "tax\s*invoice"; rxi "invoice\s*number"; rxi "bill\s*to\s*:";
  rxi "gst\s*invoice"; rxi "vendor\s*:"; rxi "bill\s*amount";
  rxi "subtotal"; rxi "grand\s*total"; rxi "due\s*date";
  rxi "payment\s*terms.*days"; rxi "net\s*\d+\s*days";
  rxi "invoice\s*date"; rxi "total\s*amount"; rxi "balance\s*due"
].

Definition idIndicators : list RegExp := [
  rxi "driver'?s?\s*licen[sc]e"; rxi "identification\s*(?:card|document)";
  rxi "id\s*card"; rxi "date\s*of\s*birth"; rxi "expiry";
  rxi "customer\s*number"; rxi "license\s*number"
].

(** [ps.filter(p => p.test(t)).length] *)
Definition countMatches (ps : list RegExp) (t : jstring) : nat :=
  length (List.filter (fun p => test p t) ps).

Definition ndaName : RegExp := rxi "nda|non[-\s]?disclosure|confidentiality\s*agreement".
Definition ndaBody : RegExp := rxi "confidential|proprietary|trade\s*secret".
Definition slaPattern : RegExp :=
  rxi "sla|service\s*level\s*agreement|service\s*guarantee|uptime|response\s*time".
Definition purchaseOrderPattern : RegExp :=
  rxi "purchase\s*order|p\.?o\.?|po\s*number|order\s*date|ship\s*to|vendor\s*quote".

Definition detectDocumentType (rawText : jstring) : DocumentTypeKind :=
  let t := toLowerCase rawText in
  if negb (truthy rawText) || (length rawText <? 20) then unknown
  else
    let contractScore := countMatches contractIndicators t in
    if (3 <=? contractScore) ||
       (includes t (lit "agreement") && (2 <=? contractScore))
    then contract
    else if test ndaName t && test ndaBody t then nda
    else if test slaPattern t then sla
    else if test purchaseOrderPattern t then purchase_order
    else
      let invoiceScore := countMatches invoiceIndicators t in
      if 3 <=? invoiceScore then invoice
      else
        let idScore := countMatches idIndicators t in
        if 2 <=? idScore then identity_document
        else if 1 <=? contractScore then contract
        else unknown.

(** ** Data extracted from a document *)

Record BoundingBox := mkBoundingBox {
  bb_x : Q; bb_y : Q; bb_width : Q; bb_height : Q
}.

(** A field found by the regular-expression heuristics. *)
Record HeuristicField := mkHeuristicField {
  hf_fieldName : jstring;
  hf_value : jstring;
  hf_pageNumber : Z;
  hf_confidenceScore : Q
}.

Record Table := mkTable {
  tb_pageNumber : Z;
  tb_headers : list jstring;
  tb_rows : list (list jstring)    (* the [cells] of each row *)
}.

Record Section_ := mkSection {
  sec_title : jstring;
  sec_content : jstring;
  sec_pageNumber : Z;
  sec_boundingBox : option BoundingBox;
  sec_level : option Z
}.

(** ** Field and table heuristics *)

(** [(m[1] ?? m[0])] *)
Definition firstGroupOrAll (m : MatchArray) : jstring :=
  match m1 m with Some g => g | None => m0 m end.

Definition idFieldPatterns : list (jstring * RegExp) := [
  (lit "Name", rxi "(?:name|customer\s*name)\s*:\s*([^\n]+)");
  (lit "Name", rx "(\b[A-Z][a-z]+,\s*[A-Z][a-z]+\b)");
  (lit "Date of Birth", rxi "(?:date\s*of\s*birth|dob)\s*:\s*([^\n]+)");
  (lit "Customer Number", rxi "(?:customer\s*number)\s*:\s*(\d+)");
  (lit "License Number", rxi "(?:licen[sc]e\s*(?:number|no\.?))\s*:\s*([^\n]+)");
  (lit "Expiry", rxi "(?:expiry|date\s*of\s*expiry|exp\.?)\s*:\s*([^\n]+)");
  (lit "Address", rxi "(?:address)\s*:\s*([^\n]+)")
].

(** The body of the loop of [extractIdFieldsFromText]; the state is the
    set [seen] and the array [fields]. *)
Definition idFieldStep (rawText : jstring)
  (st : gset string * list HeuristicField) (p : jstring * RegExp)
  : gset string * list HeuristicField :=
  let '(seen, fields) := st in
  let '(name, regex) := p in
  match match_ rawText regex with
  | Some m =>
      let value := trim (firstGroupOrAll m) in
      let k := key (name ++ lit ":" ++ slice value 0 50) in
      if bool_decide (k ∈ seen) then (seen, fields)
      else ({[ k ]} ∪ seen,
            fields ++ [mkHeuristicField name value 1 (88 # 100)])
  | None => (seen, fields)
  end.

Definition extractIdFieldsFromText (rawText : jstring) : list HeuristicField :=
  snd (fold_left (idFieldStep rawText) idFieldPatterns (∅, [])).

(** [pageText.split(/\r?\n/).map(l => l.trim()).filter(Boolean)] *)
Definition nonEmptyLines (pageText : jstring) : list jstring :=
  List.filter truthy (map trim (split pageText (rx "\r?\n"))).

(** [line.split(/\s+/).filter(Boolean)] *)
Definition words (line : jstring) : list jstring :=
  List.filter truthy (split line (rx "\s+")).

(** [xs.findIndex(p)], as the remaining list from the found element on. *)
Fixpoint dropUntil {A} (p : A -> bool) (xs : list A) : option (list A) :=
  match xs with
  | [] => None
  | x :: xs' => if p x then Some xs else dropUntil p xs'
  end.

(** [xs[xs.length - k]] for [1 <= k <= xs.length]. *)
Definition fromEnd (xs : list jstring) (k : nat) : jstring :=
  nth (length xs - k) xs [].

Definition invoiceHeaderLine (l : jstring) : bool :=
  test (rxi "item\s+description") l && test (rxi "quantity") l &&
  (test (rxi "total|unit\s*price") l || test (rx "[\d,]+") l).

Definition invoiceRow (line : jstring) : option (list jstring) :=
  let parts := words line in
  if (5 <=? length parts) && test (rx "^\d+$") (nth 0 parts []) &&
     test (rx "^\d+$") (fromEnd parts 3)
  then
    let itemNum := nth 0 parts [] in
    let qty := fromEnd parts 3 in
    let unitPrice := fromEnd parts 2 in
    let total := fromEnd parts 1 in
    let desc := join (lit " ") (take (length parts - 3 - 1) (drop 1 parts)) in
    Some [itemNum; desc; qty; unitPrice; total]
  else None.

Definition detectInvoiceTable (pageText : jstring) (pageNumber : Z) : option Table :=
  let lines := nonEmptyLines pageText in
  match dropUntil invoiceHeaderLine lines with
  | None => None
  | Some fromHeader =>
      let headers := [lit "Item"; lit "Description"; lit "Quantity";
                      lit "Unit Price"; lit "Total"] in
      let dataRows := omap invoiceRow (drop 1 fromHeader) in
      match dataRows with
      | _ :: _ => Some (mkTable pageNumber headers dataRows)
      | [] => None
      end
  end.

(** The cells of one line in [detectTablesFromText]. *)
Definition lineCells (line : jstring) : list jstring :=
  let cells := List.filter truthy (map trim (split line (rx "\s{2,}|\t+"))) in
  if length cells <? 2 then
    let parts := words line in
    if (3 <=? length parts) &&
       (test (rx "^\d+$") (nth 0 parts []) ||
        test (rx "^[\d,]+\.?\d*$") (nth 0 parts [])) &&
       test (rx "[\d,]+") (fromEnd parts 1)
    then parts
    else if (2 <=? length parts) && test (rx "[\d,]+") (fromEnd parts 1)
    then parts
    else cells
  else cells.

(** [xs.indexOf(x)] *)
Fixpoint indexOf (xs : list jstring) (x : jstring) (i : Z) : Z :=
  match xs with
  | [] => (-1)%Z
  | y :: ys => if bool_decide (y = x) then i else indexOf ys x (i + 1)%Z
  end.

Definition detectTablesFromText (pageText : jstring) (pageNumber : Z) : list Table :=
  let tables :=
    match detectInvoiceTable pageText pageNumber with
    | Some t => [t]
    | None => []
    end in
  let lines := nonEmptyLines pageText in
  if length lines <? 2 then tables
  else
    let rows := List.filter (fun cells => 2 <=? length cells) (map lineCells lines) in
    if (2 <=? length rows) && (length tables =? 0) then
      let headerRow := nth 0 rows [] in
      let dataRows :=
        List.filter (fun r => existsb (fun c => 0 <? length c) r) (drop 1 rows) in
      match dataRows with
      | _ :: _ =>
          let headers :=
            map (fun h =>
                   if truthy h then h
                   else lit "Col" ++
                        showNat (Z.to_nat (indexOf headerRow h 0 + 1)))
                headerRow in
          tables ++ [mkTable pageNumber headers dataRows]
      | [] => tables
      end
    else tables.

Definition sectionOfBlock (block : jstring) : option Section_ :=
  let lines := split block (rx "\r?\n") in
  let first := trim (nth 0 lines []) in
  let isHeader :=
    (length first <? 80) &&
    (bool_decide (first = toUpperCase first) ||
     test (rx ":\s*$") first ||
     test (rxi "^(Section|Article|Clause|Part)\s+\d+") first) in
  let title := if isHeader then replace first (rx "\s*:\s*$") [] else lit "Content" in
  let content :=
    if isHeader then trim (join (lit (String (Regex.chr 10) "")) (drop 1 lines))
    else block in
  if 0 <? length content
  then Some (mkSection title (if truthy content then content else block) 1 None None)
  else None.

Definition extractSectionsFromText (rawText : jstring) : list Section_ :=
  let blocks := List.filter truthy (map trim (split rawText (rx "\n\s*\n"))) in
  let sections := omap sectionOfBlock blocks in
  match sections with
  | _ :: _ => sections
  | [] => [mkSection (lit "Document") (slice rawText 0 5000) 1 None None]
  end.

(** The double quote character, for the two patterns that contain it. *)
Definition dq : string := String (Regex.chr 34) "".

Definition fieldPatternsOfText : list (jstring * RegExp) := [
  (lit "Invoice Number", rxi "Invoice\s*Number\s*:\s*([^\s\n]+)");
  (lit "Invoice Date", rxi "Invoice\s*Date\s*:\s*([^\n]+?)(?:\s+Vendor|\s*$)");
  (lit "Vendor", rxi "Vendor\s*:\s*([^\n]+?)(?:\s+Bill|\s*$)");
  (lit "Bill To", rxi "Bill\s*To\s*:\s*([^\n]+?)(?:\s+Payment|\s*$)");
  (lit "Payment Terms", rxi "Payment\s*Terms\s*:\s*([^\n]+)");
  (lit "Subtotal", rxi "Subtotal\s*:\s*([^\n]+)");
  (lit "GST", rxi "GST\s*\([^)]*\)\s*:\s*([^\n]+)");
  (lit "Grand Total", rxi "Grand\s*Total\s*:\s*([^\n]+)");
  (lit "Due Date", rxi "Due\s*Date\s*:\s*([^\n]+)");
  (lit "Parties", rxi "(?:parties?|between)\s*[:\s]+([^\n]{3,120})");
  (lit "Effective Date", rxi "effective\s*date\s*[:\s]+([^\n]+)");
  (lit "Term", rxi "(?:term|duration)\s*[:\s]+([^\n]+)");
  (lit "Client",
   rxi ("(?:between\s+)?([A-Za-z0-9\s.,&]+(?:Pvt\.?|Private|Limited|Ltd\.?|Inc\.?|LLC)?)\s*\(\s*["
        +:+ dq +:+ "']?Client[" +:+ dq +:+ "']?\s*\)"));
  (lit "Service Provider",
   rxi ("([A-Za-z0-9\s.,&]+(?:Pvt\.?|Private|Limited|Ltd\.?|Inc\.?|LLC)?)\s*\(\s*["
        +:+ dq +:+ "']?Service\s*Provider[" +:+ dq +:+ "']?\s*\)"))
].

Definition fieldOfPattern (rawText : jstring) (p : jstring * RegExp)
  : option HeuristicField :=
  let '(name, regex) := p in
  match match_ rawText regex with
  | Some m =>
      let val := trim (replace (trim (default [] (m1 m))) (rxi "^\s*between\s+") []) in
      Some (mkHeuristicField name val 1 (85 # 100))
  | None => None
  end.

Definition extractFieldsFromText (rawText : jstring) : list HeuristicField :=
  omap (fieldOfPattern rawText) fieldPatternsOfText.

(** ** OCR correction ([correctOcrText]) *)

Definition ocrCorrections : list (RegExp * jstring) := [
  (rxgi "Technatogees", lit "Technologies");
  (rxgi "Pot Lod", lit "Pvt Ltd");
  (rxgi "X77 Rated", lit "XYZ Retail");
  (rxgi "Serves Softee", lit "Services");
  (rxgi "Pt Ld", lit "Pvt Ltd");
  (rxgi "Payert Terma", lit "Payment Terms");
  (rxgi "Net 10 Says", lit "Net 30 Days");
  (rxgi "Lert het pay vee en mds", lit "Payment is due within");
  (rxgi "Latity Moer", lit "Liability");
  (rxgi "lately tented", lit "limited to");
  (rxgi "te \$\d+[,.]?\d*\s+\d+", lit "$10,000");
  (rxgi "limited to te", lit "limited to");
  (rxgi "\$\d+,\d+\s+\d+", lit "$10,000,000");
  (rxgi "Termurster", lit "Termination");
  (rxgi "may ter erete", lit "may terminate");
  (rxgi "ath 0 dept", lit "with 30 days");
  (rxgi "tte e", lit "notice");
  (rxgi "orfdentent", lit "confidential");
  (rxgi "orfdertent", lit "confidential");
  (rxgi "orfdent", lit "confidential");
  (rxgi "orfertent", lit "confidential");
  (rxgi "(?:orfd|orfer|orfde)\w*tent", lit "confidential");
  (rxgi "(?:conf|confi|confid)[:;.]", lit "confidential:");
  (rxgi "Bott pete muatl", lit "Both parties must");
  (rxgi "hore ot ar rlert", lit "hold in confidence");
  (rxgi "Both parties muatl", lit "Both parties must");
  (rxgi "hold in confirdence", lit "hold in confidence");
  (rxgi "Both parties must beep", lit "Both parties must");
  (rxgi "beep", lit "");
  (rxg "\s{2,}", lit " ")
].

Definition correctOcrText (text : jstring) : jstring :=
  if negb (truthy text) || (length text <? 10) then text
  else fold_left (fun corrected c => replace corrected (fst c) (snd c))
                 ocrCorrections text.

(** ** Risk detection rules *)

Abbreviation ObjectId := nat (only parsing).

Record RiskPattern := mkRiskPattern {
  pattern : RegExp;
  risk : jstring;
  rp_severity : jstring;
  missingOnly : option bool;
  clauseType : option jstring
}.

Definition MISSING_CLAUSE_RISKS : list RiskPattern := [
  mkRiskPattern (rxi "confidential|confidentiality|non-disclosure|trade secret|proprietary information|classified information")
    (lit "Confidentiality clause") (lit "high") (Some true) (Some (lit "confidentiality"));
  mkRiskPattern (rxi "termination|cancel|terminate|breach of contract|notice period|time limit")
    (lit "Termination clause") (lit "medium") (Some true) (Some (lit "termination"));
  mkRiskPattern (rxi "limitation of liability|limit.*liability|cap.*liability|maximum liability|liable.*damage")
    (lit "Limitation of liability") (lit "high") (Some true) (Some (lit "liability"));
  mkRiskPattern (rxi "arbitration|dispute resolution|mediation|governing law|jurisdiction|legal proceeding")
    (lit "Arbitration/dispute resolution clause") (lit "medium") (Some true) (Some (lit "arbitration"));
  mkRiskPattern (rxi "payment terms|payment schedule|price|fees|compensation|invoice|payment due|due date|net \d+|advance payment")
    (lit "Payment terms") (lit "high") (Some true) (Some (lit "payment"));
  mkRiskPattern (rxi "data protection|privacy|personal data|gdpr|hipaa|information security|data processing|pii|sensitive data")
    (lit "Data protection clause") (lit "high") (Some true) (Some (lit "data_protection"))
].

Definition WEAK_CLAUSE_PATTERNS : list RiskPattern := [
  mkRiskPattern (rxi "(?:either party|any party)\s+(?:may|can)\s+(?:terminate|cancel|modify|change)\s+(?:at any time|without notice|at will)")
    (lit "Unilateral termination without notice period") (lit "high") None (Some (lit "weak_termination"));
  mkRiskPattern (rxi "(?:reasonable|appropriate|necessary|as needed|as required)\s+(?:effort|cost|time|determination)")
    (lit "Vague 'reasonable effort' language without specific definitions") (lit "medium") None (Some (lit "vague"));
  mkRiskPattern (rxi "(?:may consider|may evaluate|may assess|subject to|at discretion)")
    (lit "Discretionary language without clear criteria") (lit "medium") None (Some (lit "vague"));
  mkRiskPattern (rxi "(?:without prejudice|sole discretion|absolute discretion|irrevocable)")
    (lit "One-sided discretionary language") (lit "medium") None (Some (lit "imbalance"));
  mkRiskPattern (rxi "(?:as soon as practicable|within a reasonable time|forthwith|immediately)")
    (lit "Undefined timeframes") (lit "low") None (Some (lit "vague"));
  mkRiskPattern (rxi "(?:indefinitely|perpetual|forever|eternal)")
    (lit "Indefinite obligations") (lit "high") None (Some (lit "weak_termination"));
  mkRiskPattern (rxi "(?:notwithstanding|without limiting|except as otherwise)")
    (lit "Limiting language that may override other clauses") (lit "medium") None (Some (lit "vague"))
].

Definition PAYMENT_RISK_PATTERNS : list RiskPattern := [
  mkRiskPattern (rxi "late payment|late fee|penalty.*payment|interest.*overdue|default.*payment")
    (lit "Late payment penalty") (lit "medium") (Some true) None;
  mkRiskPattern (rxi "refund|return.*money|money back|reimbursement|cancel.*payment")
    (lit "Refund policy") (lit "medium") (Some true) None;
  mkRiskPattern (rxi "currency|exchange rate|forex|conversion")
    (lit "Currency/Exchange terms") (lit "medium") (Some true) None;
  mkRiskPattern (rxi "price adjustment|price change|escalation|price revision|rate.*increase")
    (lit "Price adjustment clause") (lit "medium") (Some true) None;
  mkRiskPattern (rxi "unlimited liability|unlimited.*cost|unlimited.*expense|no.*cap")
    (lit "Unlimited financial exposure") (lit "critical") (Some false) None
].

Definition COMPLIANCE_RISK_PATTERNS : list RiskPattern := [
  mkRiskPattern (rxi "sox|sarbanes|financial reporting|audit")
    (lit "SOX compliance") (lit "low") (Some true) None;
  mkRiskPattern (rxi "iso \d+|iso.*standard|iso.*certification")
    (lit "ISO compliance") (lit "low") (Some true) None;
  mkRiskPattern (rxi "pci dss|payment card|credit card.*data")
    (lit "PCI DSS compliance") (lit "low") (Some true) None;
  mkRiskPattern (rxi "ccpa|california consumer|privacy.*california")
    (lit "CCPA compliance") (lit "low") (Some true) None;
  mkRiskPattern (rxi "industry.*standard|best practice|regulatory.*requirement")
    (lit "Industry standards") (lit "low") (Some true) None
].

Definition IMBALANCE_RISK_PATTERNS : list RiskPattern := [
  mkRiskPattern (rxi "(?:vendor|supplier|service provider|contractor).*shall.*(?:not|never)")
    (lit "Vendor has no obligations while client has all obligations") (lit "high") None (Some (lit "imbalance"));
  mkRiskPattern (rxi "(?:client|customer|buyer).*shall.*(?:immediately|at once|without delay)")
    (lit "Client has immediate obligations while vendor has flexibility") (lit "medium") None (Some (lit "imbalance"));
  mkRiskPattern (rxi "vendor.*not liable|vendor.*immune|vendor.*exempt")
    (lit "Vendor liability exemption") (lit "high") None (Some (lit "imbalance"));
  mkRiskPattern (rxi "client.*entire risk|client.*assume.*risk|client.*responsible.*all")
    (lit "All risk on client side") (lit "high") None (Some (lit "imbalance"));
  mkRiskPattern (rxi "unilateral.*amendment|unilateral.*change|modify.*without notice")
    (lit "One-sided amendment rights") (lit "high") None (Some (lit "imbalance"));
  mkRiskPattern (rxi "waiver.*any.*right|waive.*claim|waive.*remedy")
    (lit "Waiver of rights") (lit "medium") None (Some (lit "imbalance"));
  mkRiskPattern (rxi "exclusive.*remedy|sole.*remedy|only.*remedy")
    (lit "Exclusive/sole remedy limitations") (lit "medium") None (Some (lit "imbalance"))
].

Definition SIGNATURE_RISK_PATTERNS : list RiskPattern := [
  mkRiskPattern (rxi "signature|sign here|authori[sz]ed|signed")
    (lit "Signature block") (lit "low") (Some true) None;
  mkRiskPattern (rxi "date.*(?:of|execution|signature|signing)|executed on|dated")
    (lit "Execution date") (lit "low") (Some true) None;
  mkRiskPattern (rxi "witness|notary|attest|attorney")
    (lit "Witness/Notarization") (lit "low") (Some true) None;
  mkRiskPattern (rxi "company.*name|entity.*name|party.*name")
    (lit "Party identification") (lit "low") (Some true) None;
  mkRiskPattern (rxi "title|position|role|authority")
    (lit "Signatory authority") (lit "low") (Some true) None
].

Definition STRUCTURAL_RISK_PATTERNS : list RiskPattern := [
  mkRiskPattern (rxi "table of contents|index|table of cases")
    (lit "Table of contents") (lit "low") (Some true) None;
  mkRiskPattern (rxi "definitions|definition of terms|defined terms")
    (lit "Definitions section") (lit "medium") (Some true) None;
  mkRiskPattern (rxi "recitals|whereas|preamble|background")
    (lit "Recitals/Background") (lit "low") (Some true) None;
  mkRiskPattern (rxi "schedule|appendix|exhibit|annex")
    (lit "Schedules/Appendices") (lit "low") (Some true) None;
  mkRiskPattern (rxi "amendment|modification|addendum|revised")
    (lit "Amendment clause") (lit "medium") (Some true) None;
  mkRiskPattern (rxi "entire agreement|whole agreement|integrated")
    (lit "Entire agreement clause") (lit "medium") (Some true) None;
  mkRiskPattern (rxi "severability|separability|invalid.*enforce")
    (lit "Severability clause") (lit "medium") (Some true) None;
  mkRiskPattern (rxi "notice.*address|contact.*information|communication details")
    (lit "Notice details") (lit "low") (Some true) None
].

Definition AMBIGUITY_RISK_PATTERNS : list RiskPattern := [
  mkRiskPattern (rxi "reasonable effort|reasonable time|reasonable cost|reasonable")
    (lit "Undefined 'reasonable' standard") (lit "medium") None (Some (lit "ambiguity"));
  mkRiskPattern (rxi "as needed|as necessary|as appropriate|as required")
    (lit "Undefined triggers for actions") (lit "medium") None (Some (lit "ambiguity"));
  mkRiskPattern (rxi "may consider|may evaluate|may determine|at discretion")
    (lit "Subjective decision-making without criteria") (lit "medium") None (Some (lit "ambiguity"));
  mkRiskPattern (rxi "best practice|industry standard|commercially reasonable")
    (lit "Undefined industry standards") (lit "medium") None (Some (lit "ambiguity"));
  mkRiskPattern (rxi "material breach|substantial breach|significant default")
    (lit "Undefined 'material/substantial' threshold") (lit "medium") None (Some (lit "ambiguity"));
  mkRiskPattern (rxi "force majeure|act of god|unforeseeable")
    (lit "Undefined force majeure events") (lit "low") None (Some (lit "ambiguity"));
  mkRiskPattern (rxi "good faith|fair dealing|honest")
    (lit "Undefined good faith standards") (lit "low") None (Some (lit "ambiguity"))
].

Definition METADATA_RISK_PATTERNS : list RiskPattern := [
  mkRiskPattern (rxi "effective\s+(date|on|from)\s*\w+|effective:\s*\w+|commencement\s*date|start\s*date")
    (lit "Effective date") (lit "low") (Some true) None;
  mkRiskPattern (rxi "expiration\s*date|end\s*date|termination\s*date|expiry|ending\s*date")
    (lit "Expiration/Termination date") (lit "medium") (Some true) None;
  mkRiskPattern (rxi "term\s*(and|of|duration|period)|duration\s+of|period\s+of|\d+\s*months?|\d+\s*years?")
    (lit "Term duration") (lit "medium") (Some true) None;
  mkRiskPattern (rxi "renewal|automatic\s*renewal|extend\s*term")
    (lit "Renewal terms") (lit "medium") (Some true) None;
  mkRiskPattern (rxi "deadline|due\s*date|payment\s*due|time\s*is\s*of\s*the\s*essence")
    (lit "Critical deadlines") (lit "low") (Some true) None
].

(** This table is declared by the source but no code reads it. *)
Definition CONTRACT_CLAUSE_RISKS : list RiskPattern := [
  mkRiskPattern (rxi "arbitration|dispute resolution|governing law")
    (lit "Missing or weak arbitration clause") (lit "medium") (Some true) None;
  mkRiskPattern (rxi "unlimited liability|liable for any damages|no limit on liability")
    (lit "Unlimited liability") (lit "high") (Some false) None;
  mkRiskPattern (rxi "termination|terminate (?:this )?agreement|notice period")
    (lit "Termination period") (lit "low") (Some true) None;
  mkRiskPattern (rxi "indemnif|hold harmless")
    (lit "Indemnification clause") (lit "medium") (Some false) None;
  mkRiskPattern (rxi "confidentiality|confidential|confidence|hold in confidence")
    (lit "Missing confidentiality clause") (lit "medium") (Some true) None;
  mkRiskPattern (rxi "limitation of liability|liability limited to|limit on liability|cap on liability|limit.*liability")
    (lit "Missing limitation of liability") (lit "high") (Some true) None
].

Definition GST_INVOICE_COMPLIANCE : list RiskPattern := [
  mkRiskPattern (rxi "gstin|gst\s*in|gst\s*number|tax\s*identification")
    (lit "Missing GSTIN (vendor/buyer)") (lit "high") None None;
  mkRiskPattern (rxi "address|registered\s*address|billing\s*address")
    (lit "Missing full address (supplier/recipient)") (lit "high") None None;
  mkRiskPattern (rxi "place\s*of\s*supply|state\s*code|supply\s*state")
    (lit "Missing Place of Supply") (lit "high") None None;
  mkRiskPattern (rxi "sac\s*code|hsn\s*code|service\s*code|harmonized")
    (lit "Missing SAC/HSN code for service/goods") (lit "medium") None None
].


Definition REQUIRED_FIELDS : gmap string (list jstring) :=
  list_to_map [
    ("contract"%string,
     [lit "parties"; lit "effective date"; lit "term"; lit "termination"]);
    ("invoice"%string,
     [lit "invoice number"; lit "date"; lit "total"; lit "due date";
      lit "vendor"; lit "bill to"]);
    ("identity_document"%string, [])
  ].

Definition fieldPatterns : gmap string (list RegExp) :=
  list_to_map [
    ("effective date"%string, [
       rxi "effective\s+(date|on|from)\s+\w+";
       rxi "effective:\s*\w+\s+\d+";
       rxi "commencement\s*date";
       rxi "start\s*date\s+(of|of\s+)?";
       rxi "effective\s+\d{1,2}[\/\_\-]\d{1,2}[\/\_\-]\d{2,4}";
       rxi "effective\s+\w+\s+\d{1,2},?\s+\d{4}" ]);
    ("termination"%string, [
       rxi "termination\s*(clause|date|period|notice)";
       rxi "term.*terminat";
       rxi "notice\s*period";
       rxi "ending\s+date" ]);
    ("term"%string, [
       rxi "term\s*(and|of|period|duration)";
       rxi "duration\s+of";
       rxi "period\s+of";
       rxi "\d+\s*months?";
       rxi "\d+\s*years?" ]);
    ("parties"%string, [
       rxi "between\s+\w+";
       rxi "by\s+and\s+between";
       rxi "party\s+(of|of\s+the)";
       rxi "incorporated|company|pvt|ltd|limited|inc\." ]);
    ("invoice number"%string, [
       rxi "invoice\s*(no|number|#|\.)\s*\d+";
       rxi "inv\s*(no|#)?\s*\d+" ]);
    ("date"%string, [
       rxi "date:\s*\d+";
       rxi "dated\s+\d+";
       rxi "\d{1,2}[\/\_\-]\d{1,2}[\/\_\-]\d{2,4}" ]);
    ("total"%string, [
       rxi "total\s*(amount|due|payable)";
       rxi "grand\s*total";
       rxi "inr\s*\d+";
       rxi "\$\s*\d+" ]);
    ("due date"%string, [
       rxi "due\s*date";
       rxi "payment\s*due";
       rxi "payable\s*by";
       rxi "net\s*\d+" ]);
    ("vendor"%string, [
       rxi "vendor|supplier|provider|contractor" ]);
    ("bill to"%string, [
       rxi "bill\s*to| billed\s*to";
       rxi "billing\s*address" ])
  ].

(** ** Risk flags *)

Record RiskFlag := mkRiskFlag {
  rf_documentId : ObjectId;
  clauseReference : jstring;
  riskType : jstring;
  severity : jstring;
  explanation : jstring;
  suggestedClause : option jstring;
  rf_pageNumber : option Z;
  regulatoryMapping : option (list jstring)
}.

(** The answer of [detectRisksSemantic]. *)
Record SemanticRisk := mkSemanticRisk {
  sr_riskType : jstring;
  sr_severity : jstring;
  sr_explanation : jstring;
  sr_suggestedClause : option jstring;
  sr_regulatoryReferences : option (list jstring);
  sr_confidenceScore : Q
}.

(** [rawText.match(p)] used as a condition. *)
Definition matched (rawText : jstring) (p : RegExp) : bool :=
  match match_ rawText p with Some _ => true | None => false end.

(** ["missingOnly" in r && r.missingOnly] *)
Definition isMissingRule (r : RiskPattern) : bool :=
  match missingOnly r with Some b => b | None => false end.

(** [`${x}`] for an optional string. *)
Definition showOpt (o : option jstring) : jstring :=
  match o with Some s => s | None => lit "undefined" end.

(** A flag as the rule loops push it: page 1, no suggestion. *)
Definition ruleFlag (documentId : ObjectId) (ref type sev expl : jstring) : RiskFlag :=
  mkRiskFlag documentId ref type sev expl None (Some 1%Z) None.

(** The flags of one rule table: [body] gives what a rule pushes. *)
Definition forEachRule (rules : list RiskPattern)
  (body : RiskPattern -> option RiskFlag) : list RiskFlag :=
  omap body rules.

Definition missingClauseFlags (documentId : ObjectId) (rawText : jstring) : list RiskFlag :=
  forEachRule MISSING_CLAUSE_RISKS (fun r =>
    if negb (matched rawText (pattern r)) &&
       (isMissingRule r || includes (risk r) (lit "Missing"))
    then Some (ruleFlag documentId (risk r) (lit "missing_clause") (rp_severity r)
                 (lit "Missing essential " ++ showOpt (clauseType r) ++ lit " clause: " ++
                  risk r ++ lit ". This is critical for comprehensive contract protection."))
    else None).

Definition weakClauseFlags (documentId : ObjectId) (rawText : jstring) : list RiskFlag :=
  forEachRule WEAK_CLAUSE_PATTERNS (fun w =>
    if matched rawText (pattern w)
    then Some (ruleFlag documentId (risk w) (lit "weak_clause") (rp_severity w)
                 (lit "Weak clause detected: " ++ risk w ++
                  lit ". This language may create ambiguity or unfair terms."))
    else None).

Definition paymentFlags (documentId : ObjectId) (rawText : jstring) : list RiskFlag :=
  forEachRule PAYMENT_RISK_PATTERNS (fun p =>
    if negb (matched rawText (pattern p)) && isMissingRule p
    then Some (ruleFlag documentId (risk p) (lit "payment_risk") (rp_severity p)
                 (lit "Missing payment term: " ++ risk p ++
                  lit ". This could lead to financial disputes."))
    else if matched rawText (pattern p) && bool_decide (rp_severity p = lit "critical")
    then Some (ruleFlag documentId (risk p) (lit "payment_risk") (rp_severity p)
                 (lit "Critical financial exposure: " ++ risk p ++
                  lit ". This could result in unlimited liability."))
    else None).

Definition complianceFlags (documentId : ObjectId) (rawText : jstring) : list RiskFlag :=
  forEachRule COMPLIANCE_RISK_PATTERNS (fun c =>
    if negb (matched rawText (pattern c)) && isMissingRule c
    then Some (ruleFlag documentId (risk c) (lit "compliance") (rp_severity c)
                 (lit "Missing " ++ risk c ++
                  lit " clause. Required for regulatory compliance."))
    else None).

Definition imbalanceFlags (documentId : ObjectId) (rawText : jstring) : list RiskFlag :=
  forEachRule IMBALANCE_RISK_PATTERNS (fun i =>
    if matched rawText (pattern i)
    then Some (ruleFlag documentId (risk i) (lit "contract_imbalance") (rp_severity i)
                 (lit "Contract imbalance detected: " ++ risk i ++
                  lit ". One party may have significantly more power or protection."))
    else None).

Definition signatureFlags (documentId : ObjectId) (rawText : jstring) : list RiskFlag :=
  forEachRule SIGNATURE_RISK_PATTERNS (fun s =>
    if negb (matched rawText (pattern s)) && isMissingRule s
    then Some (ruleFlag documentId (risk s) (lit "signature_authorization") (lit "medium")
                 (lit "Missing " ++ risk s ++
                  lit ". Required for proper document execution and enforceability."))
    else None).

Definition structuralFlags (documentId : ObjectId) (rawText : jstring) : list RiskFlag :=
  forEachRule STRUCTURAL_RISK_PATTERNS (fun st =>
    if negb (matched rawText (pattern st)) && isMissingRule st
    then Some (ruleFlag documentId (risk st) (lit "structural") (rp_severity st)
                 (lit "Missing structural element: " ++ risk st ++
                  lit ". May affect document organization and enforceability."))
    else None).

Definition ambiguityFlags (documentId : ObjectId) (rawText : jstring) : list RiskFlag :=
  forEachRule AMBIGUITY_RISK_PATTERNS (fun a =>
    if matched rawText (pattern a)
    then Some (ruleFlag documentId (risk a) (lit "ambiguity") (rp_severity a)
                 (lit "Ambiguous language detected: " ++ risk a ++
                  lit ". This vague wording could lead to disputes."))
    else None).

Definition metadataFlags (documentId : ObjectId) (rawText : jstring) : list RiskFlag :=
  forEachRule METADATA_RISK_PATTERNS (fun m =>
    if negb (matched rawText (pattern m)) && isMissingRule m
    then Some (ruleFlag documentId (risk m) (lit "metadata_validity") (rp_severity m)
                 (lit "Missing metadata: " ++ risk m ++
                  lit ". Required for document validity and timeline clarity."))
    else None).

(** The flag pushed for the answer of the semantic analysis, if any. *)
Definition semanticFlags (documentId : ObjectId) (semantic : option SemanticRisk)
  : list RiskFlag :=
  match semantic with
  | Some sem =>
      if negb (bool_decide (sr_severity sem = lit "low")) then
        [mkRiskFlag documentId (lit "AI-detected risk in document") (sr_riskType sem)
           (if bool_decide (sr_severity sem = lit "critical") then lit "high"
            else sr_severity sem)
           (sr_explanation sem) (sr_suggestedClause sem) (Some 1%Z)
           (sr_regulatoryReferences sem)]
      else []
  | None => []
  end.

Definition gstFlags (documentId : ObjectId) (rawText : jstring) : list RiskFlag :=
  forEachRule GST_INVOICE_COMPLIANCE (fun g =>
    if negb (matched rawText (pattern g))
    then Some (ruleFlag documentId (risk g) (lit "compliance") (rp_severity g)
                 (lit "GST invoice validity: " ++ risk g ++
                  lit ". Required for valid Input Tax Credit (ITC) under Indian GST rules."))
    else None).

(** Whether a required field is found: the exact text first, then its
    flexible patterns. *)
Definition requiredFieldFound (rawText rawLower field : jstring) : bool :=
  includes rawLower field ||
  match fieldPatterns !! key field with
  | Some ps => existsb (fun p => test p rawText) ps
  | None => false
  end.

(** The loop over [REQUIRED_FIELDS[finalDocType] ?? REQUIRED_FIELDS.contract].
    For a type name that is no key of [REQUIRED_FIELDS] the fields of
    "contract" are taken. (A name that every object inherits, such as
    "constructor", is not nullish either: the loop then throws, which is
    the step [requiredFieldsIterable] of the pipeline below; the flags
    given here for such a name are never used by it.) *)
Definition requiredFieldFlags (documentId : ObjectId) (rawText finalDocType : jstring)
  : list RiskFlag :=
  let requiredForType :=
    match REQUIRED_FIELDS !! key finalDocType with
    | Some fs => fs
    | None => default [] (REQUIRED_FIELDS !! "contract"%string)
    end in
  let rawLower := toLowerCase rawText in
  omap (fun field =>
          if requiredFieldFound rawText rawLower field then None
          else Some (ruleFlag documentId (lit "Missing required: " ++ field)
                       (lit "validation") (lit "medium")
                       (lit "Document type " ++ lit dq ++ finalDocType ++ lit dq ++
                        lit " typically requires " ++ lit dq ++ field ++ lit dq ++
                        lit ". Not found or not extracted.")))
       requiredForType.

(** [rawText.replace(/[^a-zA-Z0-9]/g, "").length < 50] *)
Definition isLowQualityText (rawText : jstring) : bool :=
  length (replace rawText (rxg "[^a-zA-Z0-9]") []) <? 50.

(** Whether the pipeline asks for the semantic analysis. *)
Definition wantsSemantic (rawText finalDocType : jstring) : bool :=
  bool_decide (finalDocType = lit "contract") && negb (isLowQualityText rawText) &&
  (100 <? length rawText).

(** All the flags pushed by the pipeline, in the order of the pushes;
    [semantic] is the answer of [detectRisksSemantic] when it is asked. *)
Definition detectRiskFlags (documentId : ObjectId) (rawText finalDocType : jstring)
  (semantic : option SemanticRisk) : list RiskFlag :=
  (if bool_decide (finalDocType = lit "contract") && negb (isLowQualityText rawText)
   then
     missingClauseFlags documentId rawText ++
     weakClauseFlags documentId rawText ++
     paymentFlags documentId rawText ++
     complianceFlags documentId rawText ++
     imbalanceFlags documentId rawText ++
     signatureFlags documentId rawText ++
     structuralFlags documentId rawText ++
     ambiguityFlags documentId rawText ++
     metadataFlags documentId rawText ++
     (if 100 <? length rawText then semanticFlags documentId semantic else [])
   else []) ++
  (if bool_decide (finalDocType = lit "invoice") then gstFlags documentId rawText else []) ++
  requiredFieldFlags documentId rawText finalDocType.

(** ** Deduplication of risk flags *)

Definition normalizeKey (str : jstring) : jstring :=
  slice (replace (toLowerCase str) (rxg "[^a-z0-9]") []) 0 50.

Definition riskKey (f : RiskFlag) : jstring :=
  let normalizedRef := normalizeKey (clauseReference f) in
  let normalizedExplanation := normalizeKey (slice (explanation f) 0 50) in
  riskType f ++ lit ":" ++ normalizedRef ++ lit ":" ++ normalizedExplanation.

(** [riskFlags.filter(f => ...)] with the set [seenRiskKey] as state. *)
Fixpoint dedupFilter (seenRiskKey : gset string) (riskFlags : list RiskFlag)
  : list RiskFlag :=
  match riskFlags with
  | [] => []
  | f :: rest =>
      let k := key (riskKey f) in
      if bool_decide (k ∈ seenRiskKey) then dedupFilter seenRiskKey rest
      else f :: dedupFilter ({[ k ]} ∪ seenRiskKey) rest
  end.

Definition uniqueRiskFlags (riskFlags : list RiskFlag) : list RiskFlag :=
  dedupFilter ∅ riskFlags.

(** ** Risk score *)

(** [Math.round] *)
Definition Math_round (x : Q) : Z := Qfloor (x + (1 # 2))%Q.

Definition countSeverity (p : jstring -> bool) (flags : list RiskFlag) : Z :=
  Z.of_nat (length (List.filter (fun f => p (severity f)) flags)).

Definition isHigh (s : jstring) : bool :=
  bool_decide (s = lit "high") || bool_decide (s = lit "critical").
Definition isMedium (s : jstring) : bool := bool_decide (s = lit "medium").
Definition isLow (s : jstring) : bool := bool_decide (s = lit "low").

Definition computeRiskScore (finalDocType : jstring) (uniqueFlags : list RiskFlag) : Z :=
  let high := countSeverity isHigh uniqueFlags in
  let medium := countSeverity isMedium uniqueFlags in
  let lowOrInfo := countSeverity isLow uniqueFlags in
  if bool_decide (finalDocType = lit "identity_document")
  then Z.min 15 (lowOrInfo * 5)
  else Z.min 100 (Math_round (inject_Z (high * 25 + medium * 15 + lowOrInfo * 5))).

(** ** Local embedding ([localEmbed], [embedText]) *)

Definition EMBED_DIM : nat := 64.

(** [h = (h * 31 + s.charCodeAt(i)) >>> 0] over the characters of [s]. *)
Definition hashStr (s : jstring) : Z :=
  fold_left (fun h c => ((h * 31 + Z.of_nat (code c)) mod 2 ^ 32)%Z) s 0%Z.

(** The tokens counted by [localEmbed]. *)
Definition embedTokens (text : jstring) : list jstring :=
  List.filter (fun t => 1 <? length t)
    (split (replace (toLowerCase text) (rxg "[^\w\s]") (lit " ")) (rx "\s+")).

(** [Math.abs(hashStr(t)) % EMBED_DIM] *)
Definition bucket (t : jstring) : nat :=
  Z.to_nat (Z.abs (hashStr t) mod Z.of_nat EMBED_DIM).

(** [x || d] for a number: [0], [-0] and [NaN] are falsy. *)
Definition floatOr (x d : float) : float :=
  if (x =? 0)%float || PrimFloat.is_nan x then d else x.

(** [vec[idx] += 1] *)
Definition bump (vec : list float) (idx : nat) : list float :=
  <[ idx := (nth idx vec 0 + 1)%float ]> vec.

(** The vector of counts before normalisation. *)
Definition tokenCounts (text : jstring) : list float :=
  fold_left (fun vec t => bump vec (bucket t)) (embedTokens text)
            (replicate EMBED_DIM 0%float).

(** [vec.reduce((s, v) => s + v * v, 0)] *)
Definition sumSquares (vec : list float) : float :=
  fold_left (fun s v => (s + v * v)%float) vec 0%float.

Definition localEmbed (text : jstring) : list float :=
  let vec := tokenCounts text in
  let norm := floatOr (PrimFloat.sqrt (sumSquares vec)) 1 in
  map (fun v => (v / norm)%float) vec.

Definition embedText (text : jstring) : list float := localEmbed text.

(** ** Vector search ([cosineSimilarity], [vectorSearch]) *)

(** The three sums of the loop of [cosineSimilarity]. *)
Fixpoint cosineSums (a b : list float) (acc : float * float * float)
  : float * float * float :=
  match a, b with
  | x :: a', y :: b' =>
      let '(dot, normA, normB) := acc in
      cosineSums a' b' ((dot + x * y)%float, (normA + x * x)%float, (normB + y * y)%float)
  | _, _ => acc
  end.

Definition cosineSimilarity (a b : list float) : float :=
  if negb (length a =? length b) || (length a =? 0) then 0%float
  else
    let '(dot, normA, normB) := cosineSums a b (0%float, 0%float, 0%float) in
    let denom := (PrimFloat.sqrt normA * PrimFloat.sqrt normB)%float in
    if (denom =? 0)%float then 0%float else (dot / denom)%float.

Record Embedding := mkEmbedding {
  emb_documentId : ObjectId;
  emb_chunkId : jstring;
  emb_sectionTitle : option jstring;
  emb_pageNumber : Z;
  emb_text : jstring;
  embeddingVector : list float
}.

Record SearchResult := mkSearchResult {
  sr_chunkId : jstring;
  sr_sectionTitle : option jstring;
  sr_pageNumber : Z;
  sr_text : jstring;
  score : float
}.

(** [EmbeddingModel.find({ documentId: { $in: documentIds } })] *)
Definition findEmbeddings (embeddings : list Embedding) (documentIds : list ObjectId)
  : list Embedding :=
  List.filter (fun e => bool_decide (emb_documentId e ∈ documentIds)) embeddings.

(** [xs.sort((a, b) => b.score - a.score)]. The sort of an array is
    stable, and a value of the comparison that is [NaN] counts as [0];
    for a comparison that orders the elements consistently the result is
    the one of a stable insertion sort: an element is put before the
    first one that the comparison does not put before it. (With scores
    for which the comparison is not consistent, [NaN] among them, the
    order is left to the implementation; the insertion sort is then one
    of the possible results.) *)
Fixpoint insertByScore (x : SearchResult) (sorted : list SearchResult)
  : list SearchResult :=
  match sorted with
  | [] => [x]
  | y :: rest =>
      if (0 <? score y - score x)%float then y :: insertByScore x rest
      else x :: sorted
  end.

Definition sortByScore (xs : list SearchResult) : list SearchResult :=
  foldr insertByScore [] xs.

Definition withScore (queryEmbedding : list float) (doc : Embedding) : SearchResult :=
  mkSearchResult (emb_chunkId doc) (emb_sectionTitle doc) (emb_pageNumber doc)
    (emb_text doc) (cosineSimilarity queryEmbedding (embeddingVector doc)).

(** The module state and the collaborators of [vectorSearch]: whether
    Chroma is enabled, what a Chroma query answers, and the stored
    embeddings. *)
Record SearchEnv := mkSearchEnv {
  isChromaEnabled : bool;
  chromaSearch : list jstring -> jstring -> nat -> list SearchResult;
  storedEmbeddings : list Embedding
}.

(** [id.toString()] *)
Definition idToString (id : ObjectId) : jstring := showNat id.

(** [vectorSearch(documentIds, query, topK = 5)] *)
Definition vectorSearch (env : SearchEnv) (documentIds : list ObjectId)
  (query : jstring) (topK : option nat) : list SearchResult :=
  let topK := default 5 topK in
  let idStrings := map idToString documentIds in
  let chromaResults :=
    if isChromaEnabled env then chromaSearch env idStrings query topK else [] in
  match chromaResults with
  | _ :: _ =>
      map (fun r => mkSearchResult (sr_chunkId r) (sr_sectionTitle r)
                      (sr_pageNumber r) (sr_text r) (score r)) chromaResults
  | [] =>
      let queryEmbedding := embedText query in
      let embeddings := findEmbeddings (storedEmbeddings env) documentIds in
      if length queryEmbedding =? 0 then
        map (fun doc => mkSearchResult (emb_chunkId doc) (emb_sectionTitle doc)
                          (emb_pageNumber doc) (emb_text doc) 0.5%float)
            (take topK embeddings)
      else
        let withScores := map (withScore queryEmbedding) embeddings in
        List.filter (fun r => (0.1 <? score r)%float)
                    (take topK (sortByScore withScores))
  end.

(** ** Answers of the generative model

    [JSON.parse] of an answer, as far as the code looks into it. A
    property that the code guards ([x || d], [x ?? d], [Array.isArray],
    [typeof]) is optional; the others are taken to have the type that the
    interfaces of the source declare. Values that are only handed on are
    kept as [Json]. *)

#[local] Unset Elimination Schemes.
Inductive Json :=
| JNull
| JBool (b : bool)
| JNumber (q : Q)
| JString (s : jstring)
| JArray (xs : list Json)
| JObject (fields : list (jstring * Json)).
#[local] Set Elimination Schemes.

Record ParsedSection := mkParsedSection {
  ps_title : option jstring;
  ps_content : option jstring;
  ps_pageNumber : option Z;
  ps_boundingBox : option BoundingBox;
  ps_level : option Z
}.

Record ParsedClause := mkParsedClause {
  pc_id : option jstring;
  pc_title : option jstring;
  pc_content : option jstring;
  pc_pageNumber : option Z;
  pc_clauseType : option jstring;
  pc_confidenceScore : option Q;
  pc_boundingBox : option BoundingBox;
  pc_crossReferences : option (list (jstring * jstring))
}.

Record ParsedSignature := mkParsedSignature {
  pg_id : option jstring;
  pg_role : option jstring;
  pg_name : option jstring;
  pg_title : option jstring;
  pg_company : option jstring;
  pg_date : option jstring;
  pg_pageNumber : option Z;
  pg_confidenceScore : option Q;
  pg_boundingBox : option BoundingBox
}.

Record ParsedField := mkParsedField {
  pf_fieldName : option jstring;
  pf_value : Json;
  pf_pageNumber : option Z;
  pf_confidenceScore : option Q;
  pf_boundingBox : option BoundingBox
}.

(** An array property is [Some] when [Array.isArray] holds of it, a string
    property when [typeof] gives ["string"]. *)
Record ParsedStructure := mkParsedStructure {
  p_rawText : option jstring;
  p_layoutElements : option (list Json);
  p_sections : option (list ParsedSection);
  p_clauses : option (list ParsedClause);
  p_relationships : option (list Json);
  p_signatures : option (list ParsedSignature);
  p_crossReferences : option (list Json);
  p_extractedFields : option (list ParsedField);
  p_tables : option (list Table);
  p_summary : option jstring;
  p_insights : option jstring;
  p_documentType : option jstring;
  p_language : option jstring
}.

Record ExtractedClause := mkExtractedClause {
  cl_id : jstring;
  cl_title : jstring;
  cl_content : jstring;
  cl_pageNumber : Z;
  cl_clauseType : option jstring;
  cl_confidenceScore : Q;
  cl_boundingBox : option BoundingBox;
  cl_crossReferences : option (list (jstring * jstring))
}.

Record SignatureBlock := mkSignatureBlock {
  sg_id : jstring;
  sg_role : option jstring;
  sg_name : option jstring;
  sg_title : option jstring;
  sg_company : option jstring;
  sg_date : option jstring;
  sg_pageNumber : Z;
  sg_confidenceScore : Q;
  sg_boundingBox : option BoundingBox
}.

Record ExtractedField := mkExtractedField {
  ef_fieldName : jstring;
  ef_value : Json;
  ef_pageNumber : Z;
  ef_confidenceScore : Q;
  ef_boundingBox : option BoundingBox
}.

(** The result of [extractStructureFromPdf]. *)
Record ExtractedStructure := mkExtractedStructure {
  es_layoutElements : list Json;
  es_sections : list Section_;
  es_clauses : list ExtractedClause;
  es_relationships : list Json;
  es_signatures : list SignatureBlock;
  es_crossReferences : list Json;
  es_extractedFields : list ExtractedField;
  es_tables : list Table;
  es_summary : jstring;
  es_documentType : option jstring;
  es_language : option jstring;
  es_pageCount : option Z
}.

(** The result of [extractStructureFromImage]: the arrays are handed on
    as they were parsed. *)
Record ImageStructure := mkImageStructure {
  is_layoutElements : list Json;
  is_sections : list ParsedSection;
  is_clauses : list ParsedClause;
  is_relationships : list Json;
  is_signatures : list ParsedSignature;
  is_crossReferences : list Json;
  is_extractedFields : list ParsedField;
  is_tables : list Table;
  is_summary : jstring;
  is_insights : option jstring;
  is_documentType : option jstring;
  is_language : option jstring;
  is_rawText : jstring
}.

(** ** Results and the outside world *)

Inductive Result (A : Type) :=
| Ok (a : A)
| Throw (err : jstring).
Arguments Ok {A} a.
Arguments Throw {A} err.

Abbreviation Buffer := (list ascii) (only parsing).

(** What [extractText(pdf, { mergePages: false })] gives as [text]. *)
Inductive PageTexts :=
| PageArray (texts : list jstring)
| MergedText (text : jstring).

(** The environment of a pipeline run. A call to the generative model
    answers [None] when the request or [JSON.parse] throws; a database or
    file operation answers [Some err] when it throws [err]. *)
Record Env := mkEnv {
  GENERATION_MODEL : jstring;
  genAI : bool;                          (* GEMINI_API_KEY is set *)
  readFile : jstring -> Result Buffer;
  recognize : Buffer -> Result (option jstring);   (* Tesseract: [data?.text] *)
  pdfExtractText : Buffer -> Result (nat * PageTexts);
  generateStructure : jstring -> jstring -> nat -> option ParsedStructure;
  generateImageStructure : jstring -> Buffer -> jstring -> option ParsedStructure;
  generateRisk : jstring -> jstring -> option SemanticRisk;
  randomId : nat -> jstring;             (* [Math.random().toString(36).substr(2, 9)] *)
  chromaEnabled : bool;
  chromaCollection : bool;               (* [getCollection()] gives a collection *)
  chromaDeleteFails : bool;
  chromaAddFails : bool;
  saveStructureFails : option jstring;
  createEmbeddingFails : nat -> option jstring;
  deleteRiskFlagsFails : option jstring;
  insertRiskFlagsFails : option jstring;
  findByIdFails : option jstring;          (* [DocumentModel.findById] *)
  updateProcessingFails : option jstring;  (* [updateOne] to "processing" *)
  updateCompletedFails : option jstring;   (* [updateOne] to "completed" *)
  updateFailedFails : option jstring       (* [updateOne] to "failed" *)
}.

Definition FALLBACK_MODELS : list jstring := [lit "gemini-1.5-pro"; lit "gemini-2.0-flash"].

Definition modelsToTry (env : Env) : list jstring :=
  GENERATION_MODEL env :: FALLBACK_MODELS.

(** The [for (const modelId of ...) try { return ... } catch { }] loops:
    the first model whose request and parse succeed. *)
Fixpoint firstAnswer {A} (ask : jstring -> option A) (models : list jstring) : option A :=
  match models with
  | [] => None
  | m :: rest =>
      match ask m with
      | Some a => Some a
      | None => firstAnswer ask rest
      end
  end.

(** [s || d] for an optional string and [n || d] for an optional number. *)
Definition strOr (o : option jstring) (d : jstring) : jstring :=
  match o with
  | Some s => if truthy s then s else d
  | None => d
  end.
Definition numOr (o : option Z) (d : Z) : Z :=
  match o with
  | Some n => if (n =? 0)%Z then d else n
  | None => d
  end.

Definition mapSection (s : ParsedSection) : Section_ :=
  mkSection (strOr (ps_title s) []) (strOr (ps_content s) [])
            (numOr (ps_pageNumber s) 1) (ps_boundingBox s)
            (Some (numOr (ps_level s) 1)).

(** [xs.map((x, i) => f i x)] *)
Definition mapi {A B} (f : nat -> A -> B) (xs : list A) : list B :=
  imap f xs.

(** The clauses with their defaults; the [i]-th clause without an id gets
    the random draw number [from + i]. *)
Definition mapClauses (env : Env) (from : nat) (cs : list ParsedClause)
  : list ExtractedClause :=
  mapi (fun i c =>
          mkExtractedClause
            (strOr (pc_id c) (lit "clause_" ++ randomId env (from + i)))
            (strOr (pc_title c) []) (strOr (pc_content c) [])
            (numOr (pc_pageNumber c) 1) (pc_clauseType c)
            (default (7 # 10)%Q (pc_confidenceScore c))
            (pc_boundingBox c) (pc_crossReferences c))
       cs.

Definition mapSignatures (env : Env) (from : nat) (role : option jstring -> option jstring)
  (ss : list ParsedSignature) : list SignatureBlock :=
  mapi (fun i s =>
          mkSignatureBlock
            (strOr (pg_id s) (lit "sig_" ++ randomId env (from + i)))
            (role (pg_role s)) (pg_name s) (pg_title s) (pg_company s) (pg_date s)
            (numOr (pg_pageNumber s) 1)
            (default (7 # 10)%Q (pg_confidenceScore s))
            (pg_boundingBox s))
       ss.

Definition mapField (f : ParsedField) : ExtractedField :=
  mkExtractedField (strOr (pf_fieldName f) []) (pf_value f)
                   (numOr (pf_pageNumber f) 1)
                   (default (5 # 10)%Q (pf_confidenceScore f))
                   (pf_boundingBox f).

Definition defaultStructure : ExtractedStructure :=
  mkExtractedStructure [] [] [] [] [] [] [] [] [] None None None.

Definition withSummary (s : ExtractedStructure) (summary : jstring) : ExtractedStructure :=
  mkExtractedStructure (es_layoutElements s) (es_sections s) (es_clauses s)
    (es_relationships s) (es_signatures s) (es_crossReferences s)
    (es_extractedFields s) (es_tables s) summary
    (es_documentType s) (es_language s) (es_pageCount s).

(** [extractStructureFromPdf(_, _, rawText, pageCount)] *)
Definition extractStructureFromPdf (env : Env) (rawText : jstring) (pageCount : nat)
  : ExtractedStructure :=
  if negb (genAI env) then withSummary defaultStructure (lit "API key not set.")
  else
    match firstAnswer
            (fun modelId => generateStructure env modelId (slice rawText 0 32000) pageCount)
            (modelsToTry env) with
    | Some parsed =>
        let clauses := mapClauses env 0 (default [] (p_clauses parsed)) in
        mkExtractedStructure
          (default [] (p_layoutElements parsed))
          (map mapSection (default [] (p_sections parsed)))
          clauses
          (default [] (p_relationships parsed))
          (mapSignatures env (length clauses) (fun r => r) (default [] (p_signatures parsed)))
          (default [] (p_crossReferences parsed))
          (map mapField (default [] (p_extractedFields parsed)))
          (default [] (p_tables parsed))
          (default [] (p_summary parsed))
          (p_documentType parsed)
          (p_language parsed)
          (Some (Z.of_nat pageCount))
    | None => defaultStructure
    end.

Definition defaultImageStructure : ImageStructure :=
  mkImageStructure [] [] [] [] [] [] [] [] [] None None None [].

(** [extractStructureFromImage(imageBuffer, mimeType)] *)
Definition extractStructureFromImage (env : Env) (imageBuffer : Buffer) (mimeType : jstring)
  : ImageStructure :=
  if negb (genAI env) then
    mkImageStructure [] [] [] [] [] [] [] [] (lit "API key not set.") None None None []
  else
    match firstAnswer
            (fun modelId =>
               generateImageStructure env modelId imageBuffer
                 (if truthy mimeType then mimeType else lit "image/png"))
            (modelsToTry env) with
    | Some parsed =>
        mkImageStructure
          (default [] (p_layoutElements parsed))
          (default [] (p_sections parsed))
          (default [] (p_clauses parsed))
          (default [] (p_relationships parsed))
          (default [] (p_signatures parsed))
          (default [] (p_crossReferences parsed))
          (default [] (p_extractedFields parsed))
          (default [] (p_tables parsed))
          (default [] (p_summary parsed))
          (p_insights parsed)
          (p_documentType parsed)
          (p_language parsed)
          (default [] (p_rawText parsed))
    | None => defaultImageStructure
    end.

(** [detectRisksSemantic(clauseText)]; the prompt holds the first 4000
    characters of the clause. *)
Definition detectRisksSemantic (env : Env) (clauseText : jstring) : option SemanticRisk :=
  if negb (genAI env) then None
  else firstAnswer (fun modelId => generateRisk env modelId (slice clauseText 0 4000))
                   (modelsToTry env).

(** [extractTextFromImage(imageBuffer)] of the OCR service. *)
Definition ocrExtractText (env : Env) (imageBuffer : Buffer) : Result jstring :=
  match recognize env imageBuffer with
  | Ok text => Ok (trim (strOr text []))
  | Throw e => Throw e
  end.

(** ** The database *)

Inductive DocumentStatus :=
| pending | processing | completed | failed | under_review.

Record Document := mkDocument {
  doc_userId : ObjectId;
  doc_documentName : jstring;
  doc_version : jstring;
  doc_documentType : jstring;
  doc_category : option jstring;
  doc_riskScore : Z;
  doc_status : DocumentStatus;
  doc_filePath : jstring;
  doc_originalName : jstring;
  doc_mimeType : jstring;
  doc_summary : option jstring
}.

Record PageSection := mkPageSection {
  pgs_title : option jstring;
  pgs_content : option jstring;
  pgs_boundingBox : option BoundingBox
}.

Record Page := mkPage {
  pg_number : Z;
  pg_rawText : jstring;
  pg_sections : list PageSection
}.

(** An extracted field as it is stored. *)
Record DbField := mkDbField {
  fieldName : jstring;
  value : Json;
  df_pageNumber : Z;
  confidenceScore : Q;
  boundingBox : option BoundingBox;
  reviewed : bool
}.

Record DocumentStructure := mkDocumentStructure {
  ds_pages : list Page;
  ds_sections : list Section_;
  ds_tables : list Table;
  ds_clauses : list ExtractedClause;
  ds_signatures : list SignatureBlock;
  ds_relationships : list Json;
  ds_crossReferences : list Json;
  ds_extractedFields : list DbField;
  ds_documentType : jstring
}.

Record DocChunk := mkDocChunk {
  dc_chunkId : jstring;
  dc_documentId : jstring;
  dc_pageNumber : Z;
  dc_sectionTitle : option jstring;
  dc_text : jstring
}.

Record DB := mkDB {
  documents : gmap ObjectId Document;
  structures : gmap ObjectId DocumentStructure;
  embeddings : list Embedding;
  riskFlags : list RiskFlag;
  chromaChunks : list DocChunk
}.

Definition setDocuments (db : DB) (ds : gmap ObjectId Document) : DB :=
  mkDB ds (structures db) (embeddings db) (riskFlags db) (chromaChunks db).
Definition setStructures (db : DB) (ss : gmap ObjectId DocumentStructure) : DB :=
  mkDB (documents db) ss (embeddings db) (riskFlags db) (chromaChunks db).
Definition setEmbeddings (db : DB) (es : list Embedding) : DB :=
  mkDB (documents db) (structures db) es (riskFlags db) (chromaChunks db).
Definition setRiskFlags (db : DB) (fs : list RiskFlag) : DB :=
  mkDB (documents db) (structures db) (embeddings db) fs (chromaChunks db).
Definition setChromaChunks (db : DB) (cs : list DocChunk) : DB :=
  mkDB (documents db) (structures db) (embeddings db) (riskFlags db) cs.

(** [DocumentModel.updateOne({ _id }, { status })] *)
Definition withStatus (d : Document) (s : DocumentStatus) : Document :=
  mkDocument (doc_userId d) (doc_documentName d) (doc_version d) (doc_documentType d)
    (doc_category d) (doc_riskScore d) s (doc_filePath d) (doc_originalName d)
    (doc_mimeType d) (doc_summary d).

Definition updateStatus (documentId : ObjectId) (s : DocumentStatus) (db : DB) : DB :=
  setDocuments db (alter (fun d => withStatus d s) documentId (documents db)).

(** [DocumentModel.updateOne({ _id }, { status: "completed", riskScore,
    summary, documentType })] *)
Definition withCompleted (d : Document) (riskScore : Z) (summary documentType : jstring)
  : Document :=
  mkDocument (doc_userId d) (doc_documentName d) (doc_version d) documentType
    (doc_category d) riskScore completed (doc_filePath d) (doc_originalName d)
    (doc_mimeType d) (Some summary).

Definition updateCompleted (documentId : ObjectId) (riskScore : Z)
  (summary documentType : jstring) (db : DB) : DB :=
  setDocuments db
    (alter (fun d => withCompleted d riskScore summary documentType)
           documentId (documents db)).

(** The validation of [riskFlagSchema]: the required strings are not
    empty and the severity is in the [enum]. *)
Definition severityEnum : list jstring := [lit "low"; lit "medium"; lit "high"].

Definition riskFlagValid (f : RiskFlag) : bool :=
  truthy (clauseReference f) && truthy (riskType f) &&
  bool_decide (severity f ∈ severityEnum) && truthy (explanation f).

(** ** The upload route ([POST /api/documents]) *)

Record UploadedFile := mkUploadedFile {
  file_path : jstring;
  file_originalname : jstring;
  file_mimetype : jstring
}.

Record UploadRequest := mkUploadRequest {
  req_userId : ObjectId;
  req_file : option UploadedFile;
  body_documentName : option jstring;
  body_title : option jstring;
  body_documentType : option jstring;
  body_fileType : option jstring;
  body_category : option jstring;
  body_version : option jstring
}.

(** The document that the route creates for a request with a file. *)
Definition newDocument (req : UploadRequest) (file : UploadedFile) : Document :=
  let documentName :=
    strOr (body_documentName req) (strOr (body_title req) (file_originalname file)) in
  let documentType :=
    strOr (body_documentType req) (strOr (body_fileType req) (lit "contract")) in
  let category := strOr (body_category req) [] in
  let version := strOr (body_version req) (lit "1.0") in
  mkDocument (req_userId req) documentName version documentType (Some category)
    0 pending (file_path file) (file_originalname file) (file_mimetype file) None.

(** The route up to its answer: status code and, for 201, the id of the
    created document (the pipeline is started after that, without
    waiting for it). [createFails] says whether [DocumentModel.create]
    throws. *)
Definition uploadDocument (createFails : bool) (req : UploadRequest) (db : DB)
  : DB * (nat * option ObjectId) :=
  match req_file req with
  | None => (db, (400, None))
  | Some file =>
      if createFails then (db, (500, None))
      else
        let id := fresh (dom (documents db)) in
        (setDocuments db (<[ id := newDocument req file ]> (documents db)), (201, Some id))
  end.

(** ** The pipeline ([runDocumentPipeline]) *)

(** A step of the pipeline: the database after it, and its value or the
    error it throws. *)
Definition Step (A : Type) : Type := DB -> DB * Result A.

Definition ret {A} (a : A) : Step A := fun db => (db, Ok a).
Definition throw {A} (err : jstring) : Step A := fun db => (db, Throw err).
Definition bind {A B} (m : Step A) (k : A -> Step B) : Step B :=
  fun db =>
    match m db with
    | (db', Ok a) => k a db'
    | (db', Throw e) => (db', Throw e)
    end.
Definition lift {A} (r : Result A) : Step A := fun db => (db, r).
Definition modify (f : DB -> DB) : Step unit := fun db => (f db, Ok tt).
(** A database operation that throws [err] when the environment says so. *)
Definition orFail (fails : option jstring) (f : DB -> DB) : Step unit :=
  match fails with
  | Some err => throw err
  | None => modify f
  end.

#[global] Instance step_ret : MRet Step := @ret.
#[global] Instance step_bind : MBind Step := fun A B k m => bind m k.

(** What the two branches (image, PDF) of the pipeline produce. *)
Record Extraction := mkExtraction {
  ex_rawText : jstring;
  ex_numPages : nat;
  ex_pages : list Page;
  ex_sections : list Section_;
  ex_tables : list Table;
  ex_extractedForDb : list DbField;
  ex_summary : jstring;
  ex_clauses : list ExtractedClause;
  ex_signatures : list SignatureBlock;
  ex_relationships : list Json;
  ex_crossReferences : list Json;
  ex_documentType : jstring
}.

Definition heuristicToDb (f : HeuristicField) : DbField :=
  mkDbField (hf_fieldName f) (JString (hf_value f)) (hf_pageNumber f)
            (hf_confidenceScore f) None false.

(** [Math.min(a, b)] on confidence scores. *)
Definition Qmin (a b : Q) : Q := if Qle_bool a b then a else b.

(** The branch [if (isImage)]. *)
Definition extractImage (env : Env) (buffer : Buffer) (mimeType : jstring)
  : Result Extraction :=
  match ocrExtractText env buffer with
  | Throw e => Throw e
  | Ok ocrText =>
      let imageResult := extractStructureFromImage env buffer mimeType in
      let rawText0 :=
        if truthy (trim (is_rawText imageResult)) then trim (is_rawText imageResult)
        else ocrText in
      let rawText := correctOcrText rawText0 in
      let pages :=
        [mkPage 1 rawText
           (map (fun s => mkPageSection (ps_title s) (ps_content s) (ps_boundingBox s))
                (is_sections imageResult))] in
      let sections := map mapSection (is_sections imageResult) in
      let tables :=
        match is_tables imageResult with
        | _ :: _ => is_tables imageResult
        | [] => detectTablesFromText rawText 1
        end in
      let clauses := mapClauses env 0 (is_clauses imageResult) in
      let signatures :=
        mapSignatures env (length clauses)
          (fun r => Some (strOr r (lit "signatory"))) (is_signatures imageResult) in
      let aiFields := is_extractedFields imageResult in
      let extractedForDb :=
        match aiFields with
        | _ :: _ =>
            map (fun f =>
                   mkDbField (default [] (pf_fieldName f)) (pf_value f)
                     (default 1%Z (pf_pageNumber f))
                     (match pf_confidenceScore f with
                      | Some c => if Qeq_bool c 0 then (6 # 10)%Q else Qmin c (7 # 10)
                      | None => (6 # 10)%Q
                      end)
                     (pf_boundingBox f) false)
                aiFields
        | [] => map heuristicToDb (extractFieldsFromText rawText)
        end in
      let joined :=
        join (lit (String (Regex.chr 10) (String (Regex.chr 10) "")))
             (List.filter truthy [is_summary imageResult; default [] (is_insights imageResult)]) in
      let summary :=
        if truthy joined then joined
        else if truthy ocrText then
          lit "Image processed with OCR. " ++ showNat (length sections) ++
          lit " sections, " ++ showNat (length extractedForDb) ++ lit " fields."
        else lit "Image processed." in
      Ok (mkExtraction rawText 1 pages sections tables extractedForDb summary
            clauses signatures (is_relationships imageResult)
            (is_crossReferences imageResult)
            (strOr (is_documentType imageResult) (lit "unknown")))
  end.

(** [a.fieldName.toLowerCase() === h.fieldName.toLowerCase()] for some
    AI field [a]. *)
Definition nameAmong (aiFields : list ExtractedField) (h : HeuristicField) : bool :=
  existsb (fun a => bool_decide (toLowerCase (ef_fieldName a) = toLowerCase (hf_fieldName h)))
          aiFields.

(** A field of the PDF branch as it is stored. *)
Inductive PdfField :=
| FromAI (f : ExtractedField)
| FromText (f : HeuristicField).

Definition pdfFieldToDb (f : PdfField) : DbField :=
  match f with
  | FromAI a =>
      mkDbField (ef_fieldName a) (ef_value a) (ef_pageNumber a)
                (ef_confidenceScore a) (ef_boundingBox a) false
  | FromText h => heuristicToDb h
  end.

(** The heuristic tables of all pages. *)
Definition heuristicTablesOf (pages : list Page) : list Table :=
  concat (mapi (fun i p => detectTablesFromText (pg_rawText p) (Z.of_nat i + 1)) pages).

(** [Array.isArray(pageTexts) ? pageTexts.join("\n") : pageTexts] *)
Definition pdfRawText (pageTexts : PageTexts) : jstring :=
  match pageTexts with
  | PageArray texts => join (lit (String (Regex.chr 10) "")) texts
  | MergedText t => t
  end.

(** [totalPages || 1] *)
Definition pdfNumPages (totalPages : nat) : nat :=
  if totalPages =? 0 then 1 else totalPages.

(** The pages pushed by the loop over the page numbers, and the single
    page with the whole text when that loop pushed none. *)
Definition pdfPages (totalPages : nat) (pageTexts : PageTexts) : list Page :=
  let textArray :=
    match pageTexts with
    | PageArray texts => texts
    | MergedText t => [t]
    end in
  let pages :=
    map (fun i => mkPage (Z.of_nat i + 1) (nth i textArray []) [])
        (seq 0 (pdfNumPages totalPages)) in
  match pages with
  | [] => [mkPage 1 (pdfRawText pageTexts) []]
  | _ => pages
  end.

(** The branch for a PDF. *)
Definition extractPdf (env : Env) (buffer : Buffer) : Result Extraction :=
  match pdfExtractText env buffer with
  | Throw e => Throw e
  | Ok (totalPages, pageTexts) =>
      let rawText := pdfRawText pageTexts in
      let numPages := pdfNumPages totalPages in
      let pages := pdfPages totalPages pageTexts in
      let ai := extractStructureFromPdf env rawText numPages in
      let aiSections := es_sections ai in
      let aiFields := es_extractedFields ai in
      let aiTables := es_tables ai in
      let heuristicTables := heuristicTablesOf pages in
      let tables := match aiTables with _ :: _ => aiTables | [] => heuristicTables end in
      let sections :=
        match aiSections with
        | _ :: _ => aiSections
        | [] => extractSectionsFromText rawText
        end in
      let heuristicFields := extractFieldsFromText rawText in
      let extractedFields :=
        match aiFields with
        | _ :: _ =>
            map FromAI aiFields ++
            map FromText (List.filter (fun h => negb (nameAmong aiFields h)) heuristicFields)
        | [] => map FromText heuristicFields
        end in
      let extractedForDb := map pdfFieldToDb extractedFields in
      let summary := trim (es_summary ai) in
      Ok (mkExtraction rawText numPages pages sections tables extractedForDb summary
            (es_clauses ai) (es_signatures ai) (es_relationships ai)
            (es_crossReferences ai) (strOr (es_documentType ai) (lit "unknown")))
  end.

(** The loop that adds the identity fields whose name is not there yet. *)
Definition addIdField (st : gset string * list DbField) (f : HeuristicField)
  : gset string * list DbField :=
  let '(existingKeys, extractedForDb) := st in
  let k := key (toLowerCase (hf_fieldName f)) in
  if bool_decide (k ∈ existingKeys) then st
  else ({[ k ]} ∪ existingKeys, extractedForDb ++ [heuristicToDb f]).

Definition withIdFields (rawText : jstring) (extractedForDb : list DbField) : list DbField :=
  let idFields := extractIdFieldsFromText rawText in
  let existingKeys : gset string :=
    list_to_set (map (fun f => key (toLowerCase (fieldName f))) extractedForDb) in
  snd (fold_left addIdField idFields (existingKeys, extractedForDb)).

(** A chunk with the title and clause it comes from. *)
Record EmbeddingChunk := mkEmbeddingChunk {
  ec_text : jstring;
  ec_pageNumber : Z;
  ec_sectionTitle : option jstring;
  ec_clauseId : option jstring
}.

Definition chunksForEmbedding (ex : Extraction) : list EmbeddingChunk :=
  let ofPages :=
    flat_map (fun p =>
                map (fun c => mkEmbeddingChunk (chunk_text c) (chunk_pageNumber c) None None)
                    (chunkText (pg_rawText p) (pg_number p)))
             (ex_pages ex) in
  let ofSections :=
    flat_map (fun s =>
                map (fun c => mkEmbeddingChunk (chunk_text c) (chunk_pageNumber c)
                                (Some (sec_title s)) None)
                    (chunkText (sec_content s) (sec_pageNumber s)))
             (ex_sections ex) in
  let ofClauses :=
    flat_map (fun c =>
                map (fun chunk => mkEmbeddingChunk (chunk_text chunk) (chunk_pageNumber chunk)
                                    (Some (cl_title c)) (Some (cl_id c)))
                    (chunkText (cl_content c) (cl_pageNumber c)))
             (ex_clauses ex) in
  let all := ofPages ++ ofSections ++ ofClauses in
  match all with
  | [] =>
      if truthy (trim (ex_rawText ex))
      then [mkEmbeddingChunk (trim (slice (ex_rawText ex) 0 CHUNK_SIZE)) 1 None None]
      else []
  | _ => all
  end.

Definition validChunks (ex : Extraction) : list EmbeddingChunk :=
  List.filter (fun c => 0 <? length (trim (ec_text c))) (chunksForEmbedding ex).

(** [`chunk_${documentId}_${i}`] *)
Definition chunkIdOf (documentId : ObjectId) (i : nat) : jstring :=
  lit "chunk_" ++ idToString documentId ++ lit "_" ++ showNat i.

(** The Chroma block: errors are swallowed. *)
Definition storeInChroma (env : Env) (documentId : ObjectId) (chunks : list EmbeddingChunk)
  (db : DB) : DB :=
  if chromaEnabled env && chromaCollection env then
    let afterDelete :=
      if chromaDeleteFails env then chromaChunks db
      else List.filter (fun c => negb (bool_decide (dc_documentId c = idToString documentId)))
                       (chromaChunks db) in
    let added :=
      mapi (fun i c => mkDocChunk (chunkIdOf documentId i) (idToString documentId)
                         (ec_pageNumber c) (ec_sectionTitle c) (ec_text c))
           chunks in
    setChromaChunks db
      (if chromaAddFails env || (length chunks =? 0) then afterDelete
       else afterDelete ++ added)
  else db.

(** The loop that stores one embedding per valid chunk, from index [i]. *)
Fixpoint storeEmbeddings (env : Env) (documentId : ObjectId) (i : nat)
  (chunks : list EmbeddingChunk) : Step unit :=
  match chunks with
  | [] => ret tt
  | chunk :: rest =>
      let text := trim (ec_text chunk) in
      if negb (truthy text) then storeEmbeddings env documentId (S i) rest
      else
        let vec := embedText text in
        (if 0 <? length vec then
           orFail (createEmbeddingFails env i)
             (fun db =>
                setEmbeddings db
                  (embeddings db ++
                   [mkEmbedding documentId (chunkIdOf documentId i)
                      (ec_sectionTitle chunk) (ec_pageNumber chunk) text vec]))
         else ret tt) ;;
        storeEmbeddings env documentId (S i) rest
  end.

(** [RiskFlagModel.deleteMany({ documentId })] *)
Definition deleteRiskFlags (env : Env) (documentId : ObjectId) : Step unit :=
  orFail (deleteRiskFlagsFails env)
    (fun db =>
       setRiskFlags db
         (List.filter (fun f => negb (rf_documentId f =? documentId)) (riskFlags db))).

(** [RiskFlagModel.insertMany(flags)]: the flags are validated against the
    schema before any of them is stored. *)
Definition insertRiskFlags (env : Env) (flags : list RiskFlag) : Step unit :=
  if forallb riskFlagValid flags then
    orFail (insertRiskFlagsFails env) (fun db => setRiskFlags db (riskFlags db ++ flags))
  else throw (lit "RiskFlag validation failed").

(** [(documentType && documentType !== "unknown") ? documentType : heuristicType] *)
Definition finalDocTypeOf (documentType : jstring) (heuristicType : DocumentTypeKind)
  : jstring :=
  if truthy documentType && negb (bool_decide (documentType = lit "unknown"))
  then documentType else kindName heuristicType.

Definition typeLabel (finalDocType : jstring) : jstring :=
  if bool_decide (finalDocType = lit "identity_document") then lit "Identity document"
  else if bool_decide (finalDocType = lit "invoice") then lit "Invoice"
  else if negb (bool_decide (finalDocType = lit "unknown")) then
    toUpperCase (slice finalDocType 0 1) ++
    replace (sliceFrom finalDocType 1) (rxg "_") (lit " ")
  else lit "Document".

Definition finalSummaryOf (finalDocType : jstring) (ex : Extraction)
  (extractedForDb : list DbField) : jstring :=
  if truthy (trim (ex_summary ex)) then trim (ex_summary ex)
  else
    typeLabel finalDocType ++ lit " processed. " ++
    showNat (length (ex_sections ex)) ++ lit " sections, " ++
    showNat (length (ex_clauses ex)) ++ lit " clauses, " ++
    showNat (length extractedForDb) ++ lit " fields, " ++
    showNat (length (ex_tables ex)) ++ lit " table(s) detected.".

(** The names that every object inherits from [Object.prototype]. For
    such a name [REQUIRED_FIELDS[finalDocType]] is a function or an
    object, so it is not nullish and the [for ... of] over it throws. *)
Definition objectPrototypeKeys : list jstring := [
  lit "constructor"; lit "__defineGetter__"; lit "__defineSetter__";
  lit "hasOwnProperty"; lit "__lookupGetter__"; lit "__lookupSetter__";
  lit "isPrototypeOf"; lit "propertyIsEnumerable"; lit "toString";
  lit "valueOf"; lit "__proto__"; lit "toLocaleString"
].

(** [for (const field of requiredForType)]: whether the loop can start. *)
Definition requiredFieldsIterable (finalDocType : jstring) : Result unit :=
  match REQUIRED_FIELDS !! key finalDocType with
  | Some _ => Ok tt
  | None =>
      if bool_decide (finalDocType ∈ objectPrototypeKeys)
      then Throw (lit "TypeError: requiredForType is not iterable")
      else Ok tt
  end.

(** The flags that the pipeline computes for an extraction. *)
Definition pipelineRiskFlags (env : Env) (documentId : ObjectId) (rawText finalDocType : jstring)
  : list RiskFlag :=
  detectRiskFlags documentId rawText finalDocType
    (if wantsSemantic rawText finalDocType
     then detectRisksSemantic env (slice rawText 0 5000)
     else None).

(** The body of the [try] block. *)
Definition pipelineBody (env : Env) (documentId : ObjectId) (filePath : jstring)
  (isImage : bool) (mimeType : jstring) : Step (Z * jstring) :=
  buffer ← lift (readFile env filePath);
  ex ← lift (if isImage then extractImage env buffer mimeType
              else extractPdf env buffer);
  let rawText := ex_rawText ex in
  let heuristicType := detectDocumentType rawText in
  let finalDocType := finalDocTypeOf (ex_documentType ex) heuristicType in
  let extractedForDb :=
    match heuristicType with
    | identity_document => withIdFields rawText (ex_extractedForDb ex)
    | _ => ex_extractedForDb ex
    end in
  orFail (saveStructureFails env)
    (fun db =>
       setStructures db
         (<[ documentId :=
               mkDocumentStructure (ex_pages ex) (ex_sections ex) (ex_tables ex)
                 (ex_clauses ex) (ex_signatures ex) (ex_relationships ex)
                 (ex_crossReferences ex) extractedForDb finalDocType ]>
            (structures db))) ;;
  modify (storeInChroma env documentId (validChunks ex)) ;;
  storeEmbeddings env documentId 0 (validChunks ex) ;;
  deleteRiskFlags env documentId ;;
  lift (requiredFieldsIterable finalDocType) ;;
  let unique := uniqueRiskFlags (pipelineRiskFlags env documentId rawText finalDocType) in
  (match unique with
   | _ :: _ => insertRiskFlags env unique
   | [] => ret tt
   end) ;;
  let riskScore := computeRiskScore finalDocType unique in
  let finalSummary := finalSummaryOf finalDocType ex extractedForDb in
  orFail (updateCompletedFails env)
    (updateCompleted documentId riskScore finalSummary finalDocType) ;;
  ret (riskScore, finalSummary).

(** The [catch] block: the status is set to "failed" and the error is
    thrown again; when that update throws, its error is the one thrown
    and the status stays as it is. *)
Definition catchBlock (env : Env) (documentId : ObjectId) (err : jstring) (db : DB)
  : DB * Result (Z * jstring) :=
  match updateFailedFails env with
  | Some err' => (db, Throw err')
  | None => (updateStatus documentId failed db, Throw err)
  end.

(** [runDocumentPipeline(documentId, filePath)] *)
Definition runDocumentPipeline (env : Env) (documentId : ObjectId) (filePath : jstring)
  : Step (Z * jstring) :=
  fun db =>
    match findByIdFails env with
    | Some err => (db, Throw err)
    | None =>
        match documents db !! documentId with
        | None => (db, Throw (lit "Document not found"))
        | Some doc =>
            match updateProcessingFails env with
            | Some err => (db, Throw err)
            | None =>
                let db1 := updateStatus documentId processing db in
                let mimeType := strOr (Some (doc_mimeType doc)) (lit "application/pdf") in
                let isImage := test (rx "^image\/") mimeType in
                match pipelineBody env documentId filePath isImage mimeType db1 with
                | (db2, Ok r) => (db2, Ok r)
                | (db2, Throw err) => catchBlock env documentId err db2
                end
            end
        end
    end.

(** ** Notions used to state the properties *)

(** Empty, or starting with a character that is not white space. *)
Definition headNotSpace (s : jstring) : Prop :=
  match s with
  | [] => True
  | c :: _ => isWhiteSpace c = false
  end.

(** The end of the window that the iteration of [chunkText] entered with
    [start] looks at, and the index of the last space in that window. *)
Definition windowEnd (text : jstring) (start : Z) : Z :=
  Z.min (start + CHUNK_SIZE) (Z.of_nat (length text)).
Definition lastSpaceOf (text : jstring) (start : Z) : Z :=
  lastIndexOf (slice text start (windowEnd text start)) (lit " ").

(** The end of the slice of that iteration: after the last space when the
    slice is cut at a word boundary, the end of the window otherwise. *)
Definition sliceEnd (text : jstring) (start : Z) : Z :=
  if (windowEnd text start <? Z.of_nat (length text))%Z &&
     (lastSpaceOf text start >? CHUNK_SIZE / 2)%Z
  then (start + (lastSpaceOf text start + 1))%Z
  else windowEnd text start.



(** The key of a risk flag as the specification words it: the risk type,
    and the first 50 lower-case alphanumeric characters of the clause
    reference and of the first 50 characters of the explanation. *)
Definition isLowerAlnum (c : ascii) : bool := isLower c || isDigit c.

Definition normalized50 (s : jstring) : jstring :=
  take 50 (List.filter isLowerAlnum (toLowerCase s)).

Definition keyTriple (f : RiskFlag) : jstring * jstring * jstring :=
  (riskType f, normalized50 (clauseReference f), normalized50 (take 50 (explanation f))).

(** The subsequence that keeps, for each key, the first element with that
    key; [seen] holds the keys met so far. *)
Fixpoint keepFirstFrom {A K : Type} `{EqDecision K} (keyOf : A -> K) (seen : list K)
  (xs : list A) : list A :=
  match xs with
  | [] => []
  | x :: rest =>
      if bool_decide (keyOf x ∈ seen) then keepFirstFrom keyOf seen rest
      else x :: keepFirstFrom keyOf (keyOf x :: seen) rest
  end.

Definition keepFirst {A K : Type} `{EqDecision K} (keyOf : A -> K) (xs : list A) : list A :=
  keepFirstFrom keyOf [] xs.

(** The types that [detectDocumentType] tests after the strong contract
    rule, in their fixed order, each with its test on the lower-cased
    text. *)
Definition remainingTypeTests (t : jstring) : list (DocumentTypeKind * bool) := [
  (nda, test ndaName t && test ndaBody t);
  (sla, test slaPattern t);
  (purchase_order, test purchaseOrderPattern t);
  (invoice, 3 <=? countMatches invoiceIndicators t);
  (identity_document, 2 <=? countMatches idIndicators t)
].

(** The first type of a list of tests whose test holds. *)
Fixpoint firstType (tests : list (DocumentTypeKind * bool)) : option DocumentTypeKind :=
  match tests with
  | [] => None
  | (k, b) :: rest => if b then Some k else firstType rest
  end.

(** The strong contract rule: at least 3 indicators, or the word
    "agreement" and at least 2 indicators. *)
Definition strongContract (t : jstring) : Prop :=
  3 <= countMatches contractIndicators t \/
  (includes t (lit "agreement") = true /\ 2 <= countMatches contractIndicators t).

(** The classification as the specification words it. *)
Definition classify (rawText : jstring) : DocumentTypeKind :=
  let t := toLowerCase rawText in
  if length rawText <? 20 then unknown
  else if (3 <=? countMatches contractIndicators t) ||
          (includes t (lit "agreement") && (2 <=? countMatches contractIndicators t))
  then contract
  else
    match firstType (remainingTypeTests t) with
    | Some k => k
    | None => if 1 <=? countMatches contractIndicators t then contract else unknown
    end.

(** *** Binary64 numbers *)








(** A zero of either sign, or [NaN]. *)
Definition zeroOrNaN (x : float) : Prop :=
  match Prim2SF x with
  | S754_zero _ | S754_nan => True
  | _ => False
  end.



(** *** Notions for the local embedding *)





(** *** Notions for the vector search *)

(** The sum [a.1 * b.1 + ... + a.n * b.n], added up from the left. *)
Definition dotProduct (a b : list float) : float :=
  fold_left (fun s xy => (s + fst xy * snd xy)%float) (combine a b) 0%float.

(** The cosine similarity: the dot product over the product of the
    norms; 0 for vectors of different lengths, for empty vectors and
    when the product of the norms is 0. *)
Definition cosineOf (a b : list float) : float :=
  if (length a =? length b) && (0 <? length a) then
    let denom :=
      (PrimFloat.sqrt (dotProduct a a) * PrimFloat.sqrt (dotProduct b b))%float in
    if (denom =? 0)%float then 0%float else (dotProduct a b / denom)%float
  else 0%float.

(** The stored chunks of the given documents, in the order of the store. *)
Definition chunksOfDocuments (stored : list Embedding) (documentIds : list ObjectId)
  : list Embedding :=
  List.filter (fun e => existsb (Nat.eqb (emb_documentId e)) documentIds) stored.

(** A chunk with its similarity to the query. *)
Definition scored (query : jstring) (e : Embedding) : SearchResult :=
  mkSearchResult (emb_chunkId e) (emb_sectionTitle e) (emb_pageNumber e) (emb_text e)
    (cosineOf (localEmbed query) (embeddingVector e)).

(** The result of the linear scan: every stored chunk of the documents
    with its cosine similarity to the query embedding, sorted, the first
    [topK], and of these the ones above 0.1. *)
Definition scoredChunks (env : SearchEnv) (documentIds : list ObjectId) (query : jstring)
  : list SearchResult :=
  map (scored query) (chunksOfDocuments (storedEmbeddings env) documentIds).

Definition aboveThreshold (r : SearchResult) : bool := (0.1 <? score r)%float.

Definition linearScan (env : SearchEnv) (documentIds : list ObjectId) (query : jstring)
  (topK : nat) : list SearchResult :=
  List.filter aboveThreshold (take topK (sortByScore (scoredChunks env documentIds query))).



(** A chunk as [storeEmbeddings] writes it: the vector is the embedding
    of the text. *)
Definition embeddedChunk (documentId : ObjectId) (chunkId text : jstring) : Embedding :=
  mkEmbedding documentId chunkId None 1 text (embedText text).

(** A store with two chunks of document 1 and one of document 2, without
    Chroma. *)
Definition scanEnv : SearchEnv :=
  mkSearchEnv false (fun _ _ _ => [])
    [ embeddedChunk 1 (lit "chunk_1_0") (lit "payment terms apply");
      embeddedChunk 1 (lit "chunk_1_1") (lit "termination clause notice");
      embeddedChunk 2 (lit "chunk_2_0") (lit "termination clause") ].


(** The identity fields that are added to fields with the lower-case
    names [present]: those whose lower-case name is not there yet, each
    name once, in their order. *)
Fixpoint appendedIdFields (present : list jstring) (idFields : list HeuristicField)
  : list DbField :=
  match idFields with
  | [] => []
  | f :: rest =>
      let n := toLowerCase (hf_fieldName f) in
      if bool_decide (n ∈ present) then appendedIdFields present rest
      else heuristicToDb f :: appendedIdFields (n :: present) rest
  end.

(** What a run of the pipeline extracts: the file is read and the branch
    for its kind is taken. *)
Definition extractionOf (env : Env) (filePath : jstring) (isImage : bool) (mimeType : jstring)
  : Result Extraction :=
  match readFile env filePath with
  | Ok buffer => if isImage then extractImage env buffer mimeType else extractPdf env buffer
  | Throw e => Throw e
  end.

(** The final document type, the stored fields and the stored structure
    of an extraction. *)
Definition finalTypeOf (ex : Extraction) : jstring :=
  finalDocTypeOf (ex_documentType ex) (detectDocumentType (ex_rawText ex)).

Definition storedFieldsOf (ex : Extraction) : list DbField :=
  match detectDocumentType (ex_rawText ex) with
  | identity_document => withIdFields (ex_rawText ex) (ex_extractedForDb ex)
  | _ => ex_extractedForDb ex
  end.

Definition structureOf (ex : Extraction) : DocumentStructure :=
  mkDocumentStructure (ex_pages ex) (ex_sections ex) (ex_tables ex)
    (ex_clauses ex) (ex_signatures ex) (ex_relationships ex)
    (ex_crossReferences ex) (storedFieldsOf ex) (finalTypeOf ex).

(** The deduplicated flags of an extraction. *)
Definition uniqueFlagsOf (env : Env) (documentId : ObjectId) (ex : Extraction) : list RiskFlag :=
  uniqueRiskFlags (pipelineRiskFlags env documentId (ex_rawText ex) (finalTypeOf ex)).

(** The risk flags stored for a document. *)
Definition flagsOfDocument (documentId : ObjectId) (db : DB) : list RiskFlag :=
  List.filter (fun f => rf_documentId f =? documentId) (riskFlags db).

(** The score as the specification gives it, from the numbers of flags of
    high or critical, of medium and of low severity. *)
Definition scoreFormula (documentType : jstring) (flags : list RiskFlag) : Z :=
  let H := countSeverity isHigh flags in
  let M := countSeverity isMedium flags in
  let L := countSeverity isLow flags in
  if bool_decide (documentType = lit "identity_document")
  then Z.min 15 (5 * L)
  else Z.min 100 (25 * H + 15 * M + 5 * L).

(** How [runDocumentPipeline] ends once the [try] block has run. *)
Definition finishRun (env : Env) (documentId : ObjectId)
  (outcome : DB * Result (Z * jstring)) : DB * Result (Z * jstring) :=
  match outcome with
  | (db2, Ok r) => (db2, Ok r)
  | (db2, Throw err) => catchBlock env documentId err db2
  end.

(** The document was found and the first update did not throw. *)
Definition runStarts (env : Env) : Prop :=
  findByIdFails env = None /\ updateProcessingFails env = None.

(** The media type that a run works with, and whether it is an image. *)
Definition mimeTypeOf (doc : Document) : jstring :=
  strOr (Some (doc_mimeType doc)) (lit "application/pdf").
Definition isImageDoc (doc : Document) : bool := test (rx "^image\/") (mimeTypeOf doc).

(** A step leaves a part [proj] of the database unchanged. *)
Definition keeps {X} (proj : DB -> X) {A} (m : Step A) : Prop :=
  forall db db' r, m db = (db', r) -> proj db' = proj db.



(** An AI field as it is stored. *)
Definition aiFieldToDb (a : ExtractedField) : DbField :=
  mkDbField (ef_fieldName a) (ef_value a) (ef_pageNumber a)
            (ef_confidenceScore a) (ef_boundingBox a) false.

(** The fallback from AI to heuristics as the specification words it:
    without AI fields the heuristic fields; otherwise the AI fields
    followed by the heuristic fields whose name does not occur, ignoring
    case, among the AI fields. The same for a list that is taken from the
    AI when it is not empty. *)
Definition fallbackFields (aiFields : list ExtractedField)
  (heuristicFields : list HeuristicField) : list DbField :=
  match aiFields with
  | [] => map heuristicToDb heuristicFields
  | _ =>
      map aiFieldToDb aiFields ++
      map heuristicToDb
        (List.filter
           (fun h => negb (existsb
                             (fun a => bool_decide (toLowerCase (ef_fieldName a)
                                                    = toLowerCase (hf_fieldName h)))
                             aiFields))
           heuristicFields)
  end.

Definition orElse {A} (fromAI heuristic : list A) : list A :=
  match fromAI with
  | [] => heuristic
  | _ => fromAI
  end.

(** ** Example inputs *)

(** A PDF of one page with the given text, processed without an API key;
    no operation fails. *)
Definition exampleEnv (text : jstring) : Env :=
  mkEnv (lit "gemini-3-flash-preview") false
    (fun _ => Ok (lit "%PDF-1.7"))
    (fun _ => Ok None)
    (fun _ => Ok (1, PageArray [text]))
    (fun _ _ _ => None) (fun _ _ _ => None) (fun _ _ => None)
    (fun _ => lit "k3x9q2m1z")
    false false false false None (fun _ => None) None None
    None None None None.

(** A run whose file cannot be read and whose update to "failed" throws
    as well. *)
Definition brokenEnv : Env :=
  mkEnv (lit "gemini-3-flash-preview") false
    (fun _ => Throw (lit "ENOENT: no such file or directory"))
    (fun _ => Ok None)
    (fun _ => Ok (1, PageArray []))
    (fun _ _ _ => None) (fun _ _ _ => None) (fun _ _ => None)
    (fun _ => lit "k3x9q2m1z")
    false false false false None (fun _ => None) None None
    None None None (Some (lit "MongoNetworkError: connection closed")).

Definition exampleDocument : Document :=
  mkDocument 1 (lit "upload") (lit "1.0") (lit "contract") (Some []) 0 pending
    (lit "uploads/file.pdf") (lit "file.pdf") (lit "application/pdf") None.

Definition exampleDb : DB := mkDB {[ 7 := exampleDocument ]} ∅ [] [] [].

Definition contractText : jstring :=
  lit "This agreement between the parties imposes unlimited liability on the vendor.".

Definition plainText : jstring :=
  lit "The quick brown fox jumps over the lazy dog, again and again and again.".

Definition identityText : jstring :=
  lit "Name: Jane Roe
Date of Birth: 1990-01-01
License Number: X123".

(** Every regular expression of the embedding, to check that each of
    them is parsed. *)
Definition allPatterns : list RegExp :=
  contractIndicators ++ invoiceIndicators ++ idIndicators ++
  [ndaName; ndaBody; slaPattern; purchaseOrderPattern] ++
  map snd idFieldPatterns ++ map snd fieldPatternsOfText ++ map fst ocrCorrections ++
  map pattern
    (MISSING_CLAUSE_RISKS ++ WEAK_CLAUSE_PATTERNS ++ PAYMENT_RISK_PATTERNS ++
     COMPLIANCE_RISK_PATTERNS ++ IMBALANCE_RISK_PATTERNS ++ SIGNATURE_RISK_PATTERNS ++
     STRUCTURAL_RISK_PATTERNS ++ AMBIGUITY_RISK_PATTERNS ++ METADATA_RISK_PATTERNS ++
     CONTRACT_CLAUSE_RISKS ++ GST_INVOICE_COMPLIANCE) ++
  concat (map snd (map_to_list fieldPatterns)) ++
  [rx "\r?\n"; rx "\s+"; rxi "item\s+description"; rxi "quantity";
   rxi "total|unit\s*price"; rx "[\d,]+"; rx "^\d+$"; rx "\s{2,}|\t+";
   rx "^[\d,]+\.?\d*$"; rx ":\s*$"; rxi "^(Section|Article|Clause|Part)\s+\d+";
   rx "\s*:\s*$"; rx "\n\s*\n"; rxi "^\s*between\s+"; rxg "[^a-zA-Z0-9]";
   rxg "[^a-z0-9]"; rxg "[^\w\s]"; rxg "_"; rx "^image\/"].

Definition parses (p : RegExp) : bool :=
  match Regex.parse (source p) with Some _ => true | None => false end.

(** ** The Chroma client ([services/chroma.ts]) *)

Module Chroma.

(** The configuration: [CHROMA_URL], and whether the [try] block of
    [getClient] ([new URL], [new ChromaClient]) runs without throwing. *)
Record Config := mkConfig {
  CHROMA_URL : jstring;
  clientCreated : bool
}.

(** The variables of the module: [_chromaAvailable] ([None] for [null])
    and [_client] ([None] for [undefined], [Some None] for [null]). *)
Record State := mkState {
  _chromaAvailable : option bool;
  _client : option (option unit)
}.

Definition initial : State := mkState None None.

Definition getClient (cfg : Config) : option unit :=
  if negb (truthy (CHROMA_URL cfg)) then None
  else if clientCreated cfg then Some tt else None.

(** [client()]: the state after the call and the client. *)
Definition client (cfg : Config) (st : State) : State * option unit :=
  match _client st with
  | None =>
      let c := getClient cfg in
      (mkState (_chromaAvailable st) (Some c), c)
  | Some c => (st, c)
  end.

Definition isChromaEnabled (cfg : Config) (st : State) : State * bool :=
  if negb (truthy (CHROMA_URL cfg)) then (st, false)
  else
    match _chromaAvailable st with
    | None =>
        let '(st1, c) := client cfg st in
        match c with
        | None => (mkState (Some false) (_client st1), false)
        | Some _ => (st1, false)
        end
    | Some available => (st, available)
    end.

(** [setChromaAvailable]: not exported, and no function of the module
    calls it. *)
Definition setChromaAvailable (available : bool) (st : State) : State :=
  mkState (Some available) (_client st).

(** The exported functions. [getCollection], [addChunks],
    [deleteByDocumentId] and [search] touch the variables of the module
    through [client()] only. *)
Inductive Call :=
| CallIsChromaEnabled
| CallGetCollection
| CallAddChunks
| CallDeleteByDocumentId
| CallSearch.

(** The state of the module after a call. *)
Definition after (cfg : Config) (st : State) (c : Call) : State :=
  match c with
  | CallIsChromaEnabled => fst (isChromaEnabled cfg st)
  | CallGetCollection | CallAddChunks | CallDeleteByDocumentId | CallSearch =>
      fst (client cfg st)
  end.

(** The state after a sequence of calls, from the start of the server. *)
Definition afterCalls (cfg : Config) (calls : list Call) : State :=
  fold_left (after cfg) calls initial.

End Chroma.

(** ** Line diff of two versions ([simpleTextDiff], [compareVersions]) *)

Record VersionDifference := mkVersionDifference {
  vd_id : jstring;
  vd_type : jstring;
  vd_clauseId : option jstring;
  vd_clauseTitle : option jstring;
  vd_description : jstring;
  vd_originalText : option jstring;
  vd_newText : option jstring;
  vd_riskImpact : jstring;
  vd_severity : option jstring;
  vd_pageNumber : option Z;
  vd_movedToPage : option Z;
  vd_clauseDriftScore : option Q
}.

(** A difference as [simpleTextDiff] pushes it. *)
Definition lineDifference (id type description : jstring)
  (originalText newText : option jstring) : VersionDifference :=
  mkVersionDifference id type None None description originalText newText
    (lit "none") None None None None.

(** [while (start < a.length && start < b.length && a[start] === b[start])
    start++], on the characters of [a] and [b] from [start] on. *)
Fixpoint prefixLoop (a b : jstring) (start : nat) : nat :=
  match a, b with
  | x :: a', y :: b' =>
      if bool_decide (x = y) then prefixLoop a' b' (S start) else start
  | _, _ => start
  end.

(** [while (endA > start && endB > start && a[endA - 1] === b[endB - 1])
    { endA--; endB--; }], on the characters of [a] and [b] between
    [start] and [endA], [endB], last one first. *)
Fixpoint suffixLoop (ra rb : jstring) (endA endB : nat) : nat * nat :=
  match ra, rb with
  | x :: ra', y :: rb' =>
      if bool_decide (x = y) then suffixLoop ra' rb' (endA - 1) (endB - 1)
      else (endA, endB)
  | _, _ => (endA, endB)
  end.

(** The characters U+2026, U+2014 and U+2192 of the messages, in UTF-8. *)
Definition ellipsis : jstring := lit "…".
Definition emDash : jstring := lit "—".
Definition rightArrow : jstring := lit "→".

Definition describeLineChange (oldLine newLine : jstring) : jstring :=
  let a := trim oldLine in
  let b := trim newLine in
  if bool_decide (a = b) then lit "No change"
  else
    let start := prefixLoop a b 0 in
    let '(endA, endB) :=
      suffixLoop (rev (drop start a)) (rev (drop start b)) (length a) (length b) in
    let oldPart := trim (slice a (Z.of_nat start) (Z.of_nat endA)) in
    let newPart := trim (slice b (Z.of_nat start) (Z.of_nat endB)) in
    if negb (truthy oldPart) && truthy newPart then
      lit "Added: " ++ lit dq ++ slice newPart 0 80 ++
      (if 80 <? length newPart then ellipsis else []) ++ lit dq
    else if truthy oldPart && negb (truthy newPart) then
      lit "Removed: " ++ lit dq ++ slice oldPart 0 80 ++
      (if 80 <? length oldPart then ellipsis else []) ++ lit dq
    else if truthy oldPart && truthy newPart then
      let o := if 60 <? length oldPart then slice oldPart 0 60 ++ ellipsis else oldPart in
      let n := if 60 <? length newPart then slice newPart 0 60 ++ ellipsis else newPart in
      lit dq ++ o ++ lit dq ++ lit " " ++ rightArrow ++ lit " " ++ lit dq ++ n ++ lit dq
    else lit "Text changed".

(** The loop of [s.split(/(?=r)/)]: the separator is the empty match at
    a position [q] where [r] matches, unless [q] is the end [p] of the
    previous separator. [s] is the input from [q] on, [seg] the characters
    since [p], reversed. *)
Fixpoint splitAheadLoop (ic : bool) (r : Regex.re) (p q : nat) (pv : option ascii)
  (s seg : jstring) : list jstring :=
  match s with
  | [] => [rev seg]
  | x :: xs =>
      match Regex.matchAt ic r (Regex.mkSt q pv s []) with
      | Some _ =>
          if q =? p then splitAheadLoop ic r p (S q) (Some x) xs (x :: seg)
          else rev seg :: splitAheadLoop ic r q (S q) (Some x) xs [x]
      | None => splitAheadLoop ic r p (S q) (Some x) xs (x :: seg)
      end
  end.

(** [s.split(/(?=r)/)] for the pattern [r]. *)
Definition splitAhead (s : jstring) (r : RegExp) : list jstring :=
  match s with
  | [] =>
      match Regex.matchAt (ignoreCase r) (compile r) (Regex.mkSt 0 None [] []) with
      | Some _ => []
      | None => [[]]
      end
  | _ => splitAheadLoop (ignoreCase r) (compile r) 0 0 None s []
  end.

Definition toLines (text : jstring) : list jstring :=
  let byNewline := List.filter truthy (map trim (split text (rx "\n"))) in
  if 3 <=? length byNewline then byNewline
  else
    let byClause :=
      List.filter (fun l => 10 <? length l)
        (map trim (splitAhead text (rx "\d+\.\s+[A-Za-z]"))) in
    if 2 <=? length byClause then byClause
    else if 0 <? length byNewline then byNewline
    else List.filter truthy [trim text].

(** The loop of [findMatchingLine] from index [i] on; [None] stands
    for [-1]. *)
Fixpoint findMatchingFrom (line : jstring) (lines2 : list jstring) (used : gset nat)
  (i : nat) : option nat :=
  match lines2 with
  | [] => None
  | o :: rest =>
      if bool_decide (i ∈ used) then findMatchingFrom line rest used (S i)
      else if bool_decide (o = line) then Some i
      else if bool_decide (slice o 0 40 = slice line 0 40) then Some i
      else if match match_ line (rx "^(\d+\.\s*\w+)") with
              | Some numMatch => startsWith (default [] (m1 numMatch)) o
              | None => false
              end then Some i
      else if (15 <? length line) && (15 <? length o) &&
              (includes o (slice line 0 20) || includes line (slice o 0 20))
      then Some i
      else findMatchingFrom line rest used (S i)
  end.

Definition findMatchingLine (line : jstring) (lines2 : list jstring) (used : gset nat)
  : option nat :=
  findMatchingFrom line lines2 used 0.

(** [line.match(/^(\d+\.\s*[A-Za-z\s]+)/)?.[1] || `Line ${i + 1}`] *)
Definition clauseLabel (line : jstring) (i : nat) : jstring :=
  match match_ line (rx "^(\d+\.\s*[A-Za-z\s]+)") with
  | Some m => strOr (m1 m) (lit "Line " ++ showNat (i + 1))
  | None => lit "Line " ++ showNat (i + 1)
  end.

(** The first loop of [simpleTextDiff], from the line [i] of the old
    text on; the state is the set [used2] and the array [out]. *)
Fixpoint diffOldLines (lines1 : list jstring) (i : nat) (lines2 : list jstring)
  (used2 : gset nat) (out : list VersionDifference)
  : gset nat * list VersionDifference :=
  match lines1 with
  | [] => (used2, out)
  | line1 :: rest =>
      match findMatchingLine line1 lines2 used2 with
      | None =>
          diffOldLines rest (S i) lines2 used2
            (out ++ [lineDifference (lit "diff_" ++ showNat i) (lit "deletion")
                       (trim (clauseLabel line1 i) ++ lit " " ++ emDash ++
                        lit " removed in new version")
                       (Some (slice line1 0 500)) None])
      | Some j =>
          let line2 := nth j lines2 [] in
          if bool_decide (line1 = line2)
          then diffOldLines rest (S i) lines2 ({[ j ]} ∪ used2) out
          else
            diffOldLines rest (S i) lines2 ({[ j ]} ∪ used2)
              (out ++ [lineDifference (lit "diff_" ++ showNat i) (lit "modification")
                         (trim (clauseLabel line1 i) ++ lit " " ++ emDash ++ lit " " ++
                          describeLineChange line1 line2)
                         (Some (slice line1 0 500)) (Some (slice line2 0 500))])
      end
  end.

(** The second loop, from the line [j] of the new text on. *)
Fixpoint diffNewLines (lines2 : list jstring) (j : nat) (used2 : gset nat)
  (out : list VersionDifference) : list VersionDifference :=
  match lines2 with
  | [] => out
  | line2 :: rest =>
      if bool_decide (j ∈ used2) then diffNewLines rest (S j) used2 out
      else
        diffNewLines rest (S j) used2
          (out ++ [lineDifference (lit "diff_added_" ++ showNat j) (lit "addition")
                     (trim (clauseLabel line2 j) ++ lit " " ++ emDash ++
                      lit " added in new version")
                     None (Some (slice line2 0 500))])
  end.

Definition simpleTextDiff (text1 text2 : jstring) : list VersionDifference :=
  let lines1 := toLines text1 in
  let lines2 := toLines text2 in
  let '(used2, out1) := diffOldLines lines1 0 lines2 ∅ [] in
  let out := diffNewLines lines2 0 used2 out1 in
  if (length out =? 0) && negb (bool_decide (trim text1 = trim text2)) then
    out ++ [lineDifference (lit "diff_general") (lit "modification")
              (lit "Document length changed (" ++ showNat (length (trim text1)) ++
               lit " vs " ++ showNat (length (trim text2)) ++ lit " characters).")
              None None]
  else out.

(** An item of the array that the model answers to [compareVersions]. *)
Record ParsedDifference := mkParsedDifference {
  pd_id : option jstring;
  pd_type : jstring;
  pd_clauseId : option jstring;
  pd_clauseTitle : option jstring;
  pd_description : jstring;
  pd_originalText : option jstring;
  pd_newText : option jstring;
  pd_riskImpact : option jstring;
  pd_severity : option jstring;
  pd_pageNumber : option Z;
  pd_movedToPage : option Z;
  pd_clauseDriftScore : option Q
}.

Definition newline : jstring := [Regex.chr 10].

(** [`[${c.id}] ${c.title}: ${c.content.slice(0, 200)}`] *)
Definition clauseLine (c : ExtractedClause) : jstring :=
  lit "[" ++ cl_id c ++ lit "] " ++ cl_title c ++ lit ": " ++ slice (cl_content c) 0 200.

Definition clauseContextOf (clauses1 clauses2 : option (list ExtractedClause)) : jstring :=
  (match clauses1 with
   | Some ((_ :: _) as cs) =>
       newline ++ lit "Version 1 Clauses:" ++ newline ++ join newline (map clauseLine cs)
   | _ => []
   end) ++
  (match clauses2 with
   | Some ((_ :: _) as cs) =>
       newline ++ lit "Version 2 Clauses:" ++ newline ++ join newline (map clauseLine cs)
   | _ => []
   end).

(** [{ ...item, id: item.id || `diff_${index}`, riskImpact:
    item.riskImpact || "none", clauseDriftScore: item.clauseDriftScore ?? 0 }] *)
Definition withDefaults (index : nat) (item : ParsedDifference) : VersionDifference :=
  mkVersionDifference
    (strOr (pd_id item) (lit "diff_" ++ showNat index))
    (pd_type item) (pd_clauseId item) (pd_clauseTitle item) (pd_description item)
    (pd_originalText item) (pd_newText item)
    (strOr (pd_riskImpact item) (lit "none"))
    (pd_severity item) (pd_pageNumber item) (pd_movedToPage item)
    (Some (default 0%Q (pd_clauseDriftScore item))).

(** [compareVersions(text1, text2, clauses1, clauses2)].
    [generateDifferences modelId clauseContext t1 t2] is the array that
    the model [modelId] answers to the prompt with these texts, [None]
    when the request or [JSON.parse] throws or the answer is not an
    array. *)
Definition compareVersions (env : Env)
  (generateDifferences : jstring -> jstring -> jstring -> jstring
                         -> option (list ParsedDifference))
  (text1 text2 : jstring) (clauses1 clauses2 : option (list ExtractedClause))
  : list VersionDifference :=
  if negb (genAI env) then simpleTextDiff text1 text2
  else
    let clauseContext := clauseContextOf clauses1 clauses2 in
    match firstAnswer
            (fun modelId =>
               match generateDifferences modelId clauseContext
                       (slice text1 0 12000) (slice text2 0 12000) with
               | Some ((_ :: _) as arr) => Some arr
               | _ => None
               end)
            (modelsToTry env) with
    | Some arr => mapi withDefaults arr
    | None => simpleTextDiff text1 text2
    end.

(** ** Routes ([server/routes.ts]) *)

(** The name under which [multer] stores an upload:
    [`${Date.now()}_${file.originalname.replace(/[^a-zA-Z0-9.-]/g, "_")}`] *)
Definition storedFilename (now : nat) (originalname : jstring) : jstring :=
  showNat now ++ lit "_" ++ replace originalname (rxg "[^a-zA-Z0-9.-]") (lit "_").


Record ChatHistory := mkChatHistory {
  ch_userId : ObjectId;
  ch_documentIds : list ObjectId;
  ch_question : jstring;
  ch_answer : jstring;
  ch_citations : list (Z * jstring);
  ch_confidence : Q;
  ch_riskMode : bool
}.

(** What the routes work on: the collections of the pipeline, the chat
    history and the files of the upload directory. *)
Record Store := mkStore {
  st_db : DB;
  st_chatHistory : list ChatHistory;
  st_files : gset string
}.

(** Which operations of a request throw. *)
Record RouteEnv := mkRouteEnv {
  findDocumentFails : bool;
  deleteStructuresFails : bool;
  deleteEmbeddingsFails : bool;
  deleteFlagsFails : bool;
  deleteChatsFails : bool;
  unlinkFails : bool;
  rt_chromaEnabled : bool;          (* [isChromaEnabled()] *)
  rt_chromaCollection : bool;       (* [getCollection()] gives a collection *)
  rt_chromaDeleteFails : bool
}.

(** [DocumentModel.findOne({ _id: id, userId })] *)
Definition findOwned (userId id : ObjectId) (db : DB) : option Document :=
  match documents db !! id with
  | Some doc => if doc_userId doc =? userId then Some doc else None
  | None => None
  end.

(** [DELETE /api/documents/:id]: the store after the request and the
    status of the answer. *)
Definition deleteDocument (env : RouteEnv) (userId id : ObjectId) (st : Store)
  : Store * nat :=
  if findDocumentFails env then (st, 500)
  else
    match findOwned userId id (st_db st) with
    | None => (st, 404)
    | Some doc =>
        let db1 := setDocuments (st_db st) (delete id (documents (st_db st))) in
        if deleteStructuresFails env
        then (mkStore db1 (st_chatHistory st) (st_files st), 500)
        else
          let db2 := setStructures db1 (delete id (structures db1)) in
          if deleteEmbeddingsFails env
          then (mkStore db2 (st_chatHistory st) (st_files st), 500)
          else
            let db3 :=
              setEmbeddings db2
                (List.filter (fun e => negb (emb_documentId e =? id)) (embeddings db2)) in
            let db4 :=
              if rt_chromaEnabled env && rt_chromaCollection env &&
                 negb (rt_chromaDeleteFails env)
              then setChromaChunks db3
                     (List.filter
                        (fun c => negb (bool_decide (dc_documentId c = idToString id)))
                        (chromaChunks db3))
              else db3 in
            if deleteFlagsFails env
            then (mkStore db4 (st_chatHistory st) (st_files st), 500)
            else
              let db5 :=
                setRiskFlags db4
                  (List.filter (fun f => negb (rf_documentId f =? id)) (riskFlags db4)) in
              if deleteChatsFails env
              then (mkStore db5 (st_chatHistory st) (st_files st), 500)
              else
                let chats :=
                  List.filter (fun h => negb (bool_decide (id ∈ ch_documentIds h)))
                              (st_chatHistory st) in
                let files :=
                  if unlinkFails env then st_files st
                  else st_files st ∖ {[ key (doc_filePath doc) ]} in
                (mkStore db5 chats files, 204)
    end.

(** ** Notions used to state the further properties *)

(** The embedding that a run stores for the chunk number [i]. *)
Definition embeddingOfChunk (documentId : ObjectId) (i : nat) (chunk : EmbeddingChunk)
  : Embedding :=
  mkEmbedding documentId (chunkIdOf documentId i) (ec_sectionTitle chunk)
    (ec_pageNumber chunk) (trim (ec_text chunk)) (embedText (trim (ec_text chunk))).

Definition embeddingsOf (documentId : ObjectId) (chunks : list EmbeddingChunk)
  : list Embedding :=
  imap (embeddingOfChunk documentId) chunks.

(** The embeddings and the Chroma chunks stored for a document. *)
Definition embeddingsOfDocument (documentId : ObjectId) (db : DB) : list Embedding :=
  List.filter (fun e => emb_documentId e =? documentId) (embeddings db).

Definition chromaChunksOfDocument (documentId : ObjectId) (db : DB) : list DocChunk :=
  List.filter (fun c => bool_decide (dc_documentId c = idToString documentId))
              (chromaChunks db).

(** What holds of an embedding that a run stores. *)
Definition storedBy (documentId : ObjectId) (e : Embedding) : Prop :=
  emb_documentId e = documentId /\ length (embeddingVector e) = EMBED_DIM /\
  emb_text e <> [] /\ trim (emb_text e) = emb_text e.

(** A step only adds embeddings of the document. *)
Definition addsEmbeddings (documentId : ObjectId) {A} (m : Step A) : Prop :=
  forall db db' r, m db = (db', r) ->
    exists added, embeddings db' = embeddings db ++ added /\
                  Forall (storedBy documentId) added.

(** The database after a run that returns, for the extraction [ex]: the
    structure is stored, Chroma and the embeddings are extended, the
    flags of the document are replaced and the document is completed. *)
Definition completedDb (env : Env) (documentId : ObjectId) (ex : Extraction) (db : DB)
  : DB :=
  let unique := uniqueFlagsOf env documentId ex in
  let db1 := setStructures db (<[ documentId := structureOf ex ]> (structures db)) in
  let db2 := storeInChroma env documentId (validChunks ex) db1 in
  let db3 :=
    setEmbeddings db2 (embeddings db2 ++ embeddingsOf documentId (validChunks ex)) in
  let db4 :=
    setRiskFlags db3
      (List.filter (fun f => negb (rf_documentId f =? documentId)) (riskFlags db3)
       ++ unique) in
  updateCompleted documentId (computeRiskScore (finalTypeOf ex) unique)
    (finalSummaryOf (finalTypeOf ex) ex (storedFieldsOf ex)) (finalTypeOf ex) db4.

(** The pattern of the rule of [PAYMENT_RISK_PATTERNS] whose severity is
    "critical". *)
Definition unlimitedExposure : RegExp :=
  rxi "unlimited liability|unlimited.*cost|unlimited.*expense|no.*cap".

(** What holds of a rule of a table: its name is not empty and its
    severity is one that the schema of the risk flags allows. *)
Definition ruleInSchema (r : RiskPattern) : bool :=
  truthy (risk r) && bool_decide (rp_severity r ∈ severityEnum).

(** The rule for unlimited exposure: severity "critical", pushed when its
    pattern matches. *)
Definition isCriticalRule (r : RiskPattern) : bool :=
  bool_decide (rp_severity r = lit "critical") &&
  bool_decide (risk r = lit "Unlimited financial exposure") &&
  bool_decide (source (pattern r) = source unlimitedExposure) &&
  ignoreCase (pattern r) && negb (global (pattern r)) && negb (isMissingRule r).

(** A flag that the validation rejects for its severity "critical". *)
Definition isCriticalFlag (f : RiskFlag) : Prop :=
  severity f = lit "critical" /\ riskType f = lit "payment_risk" /\
  clauseReference f = lit "Unlimited financial exposure".

(** What the rule loops establish for each flag they push. *)
Definition pushedByRules (documentId : ObjectId) (rawText finalDocType : jstring)
  (f : RiskFlag) : Prop :=
  (clauseReference f <> [] /\ riskType f <> [] /\ explanation f <> [] /\
   rf_documentId f = documentId /\ rf_pageNumber f = Some 1%Z) /\
  (riskFlagValid f = true \/
   (isCriticalFlag f /\ finalDocType = lit "contract" /\
    isLowQualityText rawText = false /\ matched rawText unlimitedExposure = true)) /\
  (riskType f = lit "payment_risk" ->
   normalized50 (clauseReference f) = normalized50 (lit "Unlimited financial exposure") ->
   isCriticalFlag f).

(** The chunk [c] holds the character of index [i] of [text]: it is the
    trimmed text of a window of at most [CHUNK_SIZE] characters around
    that index. *)
Definition covers (text : jstring) (i : nat) (c : Chunk) : Prop :=
  exists a b : Z,
    (0 <= a <= Z.of_nat i)%Z /\ (Z.of_nat i < b <= Z.of_nat (length text))%Z /\
    (b - a <= CHUNK_SIZE)%Z /\ chunk_text c = trim (slice text a b).

(** What holds of every entry of a line diff: no risk impact, and the
    texts that go with its type, each of at most 500 characters. *)
Definition lineDifferenceShape (d : VersionDifference) : Prop :=
  vd_riskImpact d = lit "none" /\
  Forall (fun t => length t <= 500) (option_list (vd_originalText d) ++
                                     option_list (vd_newText d)) /\
  ((vd_type d = lit "deletion" /\ vd_originalText d <> None /\ vd_newText d = None) \/
   (vd_type d = lit "modification" /\
    (vd_originalText d = None <-> vd_newText d = None)) \/
   (vd_type d = lit "addition" /\ vd_originalText d = None /\ vd_newText d <> None)).

(** The characters of a stored file name: letters, digits, [.], [-]
    and [_]. *)
Definition isFilenameChar (c : ascii) : bool :=
  isLower c || isUpper c || isDigit c || (code c =? 46) || (code c =? 45) || (code c =? 95).


(** What holds of a table found by the heuristics on a page. *)
Definition tableShape (pageNumber : Z) (t : Table) : Prop :=
  tb_pageNumber t = pageNumber /\
  2 <= length (tb_headers t) /\
  Forall (fun h => h <> []) (tb_headers t) /\
  tb_rows t <> [] /\
  Forall (fun r => 2 <= length r) (tb_rows t).

(** The key under which [extractIdFieldsFromText] remembers a field. *)
Definition idFieldKey (f : HeuristicField) : string :=
  key (hf_fieldName f ++ lit ":" ++ slice (hf_value f) 0 50).

(** No two white-space characters next to each other. *)
Fixpoint singleSpaced (s : jstring) : bool :=
  match s with
  | [] => true
  | x :: t =>
      match t with
      | [] => true
      | y :: _ => negb (isWhiteSpace x && isWhiteSpace y) && singleSpaced t
      end
  end.

(** The number of white-space characters at the start of a text. *)
Fixpoint spaces (s : jstring) : nat :=
  match s with
  | x :: xs => if isWhiteSpace x then S (spaces xs) else 0
  | [] => 0
  end.

(** The loop of [Regex.run] for a repetition, as a function of its own. *)
Definition repLoop (ic : bool) (a : Regex.re) (lo : nat) (hi : option nat) (greedy : bool)
  (k : Regex.St -> option Regex.St) : nat -> nat -> Regex.St -> option Regex.St :=
  fix loop (fuel count : nat) (s : Regex.St) {struct fuel} : option Regex.St :=
    match fuel with
    | O => None
    | S fuel' =>
        let more (_ : unit) : option Regex.St :=
          if Regex.belowMax hi count then
            Regex.run ic a
              (fun e =>
                 if (lo <=? count) && (Regex.pos e =? Regex.pos s) then None
                 else loop fuel' (S count) e)
              s
          else None in
        let stop (_ : unit) : option Regex.St :=
          if lo <=? count then k s else None in
        if greedy then
          match more tt with Some e => Some e | None => stop tt end
        else
          match stop tt with Some e => Some e | None => more tt end
    end.

(** The last character, if any, is not white space. *)
Definition lastNotSpace (s : jstring) : Prop :=
  forall c, last s = Some c -> isWhiteSpace c = false.

(** The regular expressions of the line diff and of the routes, to check
    that each of them is parsed. *)
Definition morePatterns : list RegExp :=
  [rx "\n"; rx "\d+\.\s+[A-Za-z]"; rx "^(\d+\.\s*\w+)"; rx "^(\d+\.\s*[A-Za-z\s]+)";
   rxg "[^a-zA-Z0-9.-]"; unlimitedExposure].

(** No operation of the delete route throws (removing the file may). *)
Definition deletionSucceeds (env : RouteEnv) : Prop :=
  findDocumentFails env = false /\ deleteStructuresFails env = false /\
  deleteEmbeddingsFails env = false /\ deleteFlagsFails env = false /\
  deleteChatsFails env = false.

(** An upload of the user of [exampleDocument], and a delete route
    where nothing throws. *)
Definition exampleRequest : UploadRequest :=
  mkUploadRequest 1
    (Some (mkUploadedFile (lit "uploads/2_b.pdf") (lit "b.pdf") (lit "application/pdf")))
    None None None None None None.

Definition exampleRouteEnv : RouteEnv :=
  mkRouteEnv false false false false false false false false false.


(** * Properties *)

(** ** Regular expressions *)

(** Every pattern of the embedding is parsed: none is replaced by
    [Regex.Never]. *)
Lemma patterns_parse : forallb parses allPatterns = true.
Proof. vm_compute. reflexivity. Qed.

(** The string methods on some inputs, with the results of a JavaScript
    engine. *)
Example split_lines :
  split (lit "a

b
c  ") (rx "\r?\n") = [lit "a"; lit ""; lit "b"; lit "c  "].
Proof. vm_compute. reflexivity. Qed.

Example split_spaces :
  split (lit "  a  b c   ") (rx "\s+") = [lit ""; lit "a"; lit "b"; lit "c"; lit ""].
Proof. vm_compute. reflexivity. Qed.

Example replace_global_empty_match :
  replace (lit "abc") (rxg "x*") (lit "-") = lit "-a-b-c-".
Proof. vm_compute. reflexivity. Qed.

Example replace_first_only :
  replace (lit "a_b_c") (rx "_") (lit " ") = lit "a b_c".
Proof. vm_compute. reflexivity. Qed.

Example match_lazy_group :
  match_ (lit "Invoice Date: 12 Jan 2024 Vendor: X")
         (rxi "Invoice\s*Date\s*:\s*([^\n]+?)(?:\s+Vendor|\s*$)")
  = Some (mkMatchArray (lit "Invoice Date: 12 Jan 2024 Vendor") (Some (lit "12 Jan 2024"))).
Proof. vm_compute. reflexivity. Qed.

Example match_word_boundary :
  match_ (lit "xSmith, John") (rx "(\b[A-Z][a-z]+,\s*[A-Z][a-z]+\b)") = None /\
  match_ (lit "x Smith, John") (rx "(\b[A-Z][a-z]+,\s*[A-Z][a-z]+\b)")
  = Some (mkMatchArray (lit "Smith, John") (Some (lit "Smith, John"))).
Proof. vm_compute. split; reflexivity. Qed.

Example test_ignore_case :
  test (rxi "non[-\s]?disclosure") (lit "a NON-Disclosure pact") = true /\
  test (rx "non[-\s]?disclosure") (lit "a NON-Disclosure pact") = false /\
  test (rxi "\d{1,2}[\/\_\-]\d{1,2}[\/\_\-]\d{2,4}") (lit "on 3/11/24") = true.
Proof. vm_compute. repeat split; reflexivity. Qed.

(** ** Strings *)

Section StringFacts.

Implicit Types s t p : jstring.

Lemma relIndex_nonneg (len : nat) (i : Z) :
  (0 <= i)%Z -> relIndex len i = Nat.min (Z.to_nat i) len.
Proof. intros H. unfold relIndex. destruct (Z.ltb_spec i 0); [lia | reflexivity]. Qed.

(** For non-negative indexes [slice] is [take] after [drop]. *)
Lemma slice_take_drop s (a b : Z) :
  (0 <= a)%Z -> (0 <= b)%Z ->
  slice s a b = take (Z.to_nat b - Z.to_nat a) (drop (Z.to_nat a) s).
Proof.
  intros Ha Hb. unfold slice. rewrite !relIndex_nonneg by lia.
  destruct (Nat.le_gt_cases (Z.to_nat a) (length s)) as [Hle | Hgt].
  - rewrite (Nat.min_l (Z.to_nat a)) by lia.
    destruct (Nat.le_gt_cases (Z.to_nat b) (length s)) as [Hb' | Hb'].
    + rewrite Nat.min_l by lia. reflexivity.
    + rewrite Nat.min_r by lia.
      rewrite !take_ge; [reflexivity | rewrite length_drop; lia | rewrite length_drop; lia].
  - rewrite (Nat.min_r (Z.to_nat a)) by lia.
    rewrite !drop_ge by lia. rewrite !take_nil. reflexivity.
Qed.

Lemma length_slice s (a b : Z) :
  (0 <= a <= b)%Z -> (b <= Z.of_nat (length s))%Z ->
  length (slice s a b) = Z.to_nat (b - a).
Proof.
  intros Hab Hb. rewrite slice_take_drop by lia.
  rewrite length_take, length_drop. lia.
Qed.

Lemma length_slice_le s (a b : Z) :
  (0 <= a)%Z -> (0 <= b)%Z -> (Z.of_nat (length (slice s a b)) <= b - a \/ b < a)%Z.
Proof.
  intros Ha Hb. rewrite slice_take_drop by lia. rewrite length_take. lia.
Qed.

(** A slice of a slice that starts at 0. *)
Lemma slice_slice_0 s (a b n : Z) :
  (0 <= a)%Z -> (0 <= b)%Z -> (0 <= n)%Z ->
  slice (slice s a b) 0 n = slice s a (Z.min b (a + n)).
Proof.
  intros Ha Hb Hn. rewrite !slice_take_drop by lia.
  rewrite drop_0, Nat.sub_0_r. rewrite take_take.
  f_equal. lia.
Qed.

Lemma startsWith_nil_r p : p <> [] -> startsWith p [] = false.
Proof. destruct p; [congruence | reflexivity]. Qed.

Lemma lastIndexFrom_lt p s (i acc : Z) :
  p <> [] -> (acc < i + Z.of_nat (length s))%Z ->
  (lastIndexFrom p s i acc < i + Z.of_nat (length s))%Z.
Proof.
  intros Hp. revert i acc. induction s as [| x s IH]; intros i acc Hacc; simpl.
  - rewrite startsWith_nil_r by assumption. exact Hacc.
  - cbn [length] in *. rewrite Nat2Z.inj_succ in *.
    replace (i + Z.succ (Z.of_nat (length s)))%Z
      with ((i + 1) + Z.of_nat (length s))%Z by lia.
    apply IH. destruct (startsWith p (x :: s)); lia.
Qed.

Lemma lastIndexOf_lt s p :
  p <> [] -> (lastIndexOf s p < Z.of_nat (length s))%Z.
Proof.
  intros Hp. unfold lastIndexOf.
  pose proof (lastIndexFrom_lt p s 0 (-1) Hp). lia.
Qed.

(** *** [trim] *)

Lemma trimStart_head s : headNotSpace (trimStart s).
Proof.
  induction s as [| c s IH]; simpl; [exact I |].
  destruct (isWhiteSpace c) eqn:E; [exact IH | exact E].
Qed.

Lemma trimStart_fix s : headNotSpace s -> trimStart s = s.
Proof. destruct s as [| c s]; simpl; [reflexivity |]. intros ->. reflexivity. Qed.

Lemma trimStart_snoc s c :
  isWhiteSpace c = false -> trimStart (s ++ [c]) = trimStart s ++ [c].
Proof.
  intros Hc. induction s as [| x s IH]; simpl.
  - rewrite Hc. reflexivity.
  - destruct (isWhiteSpace x); [exact IH | reflexivity].
Qed.

Lemma trimEnd_head s : headNotSpace s -> headNotSpace (trimEnd s).
Proof.
  destruct s as [| c s]; simpl; [intros _; exact I |].
  intros Hc. unfold trimEnd. simpl.
  rewrite trimStart_snoc by exact Hc.
  rewrite rev_app_distr. simpl. exact Hc.
Qed.

Lemma trimEnd_idem s : trimEnd (trimEnd s) = trimEnd s.
Proof.
  unfold trimEnd. rewrite rev_involutive.
  rewrite (trimStart_fix (trimStart (rev s))) by apply trimStart_head.
  reflexivity.
Qed.

Lemma trim_head s : headNotSpace (trim s).
Proof. unfold trim. apply trimEnd_head, trimStart_head. Qed.

Lemma trim_idem s : trim (trim s) = trim s.
Proof.
  unfold trim at 1. rewrite trimStart_fix by apply trim_head.
  unfold trim. apply trimEnd_idem.
Qed.

Lemma trimStart_nil s : trimStart s = [] <-> forallb isWhiteSpace s = true.
Proof.
  induction s as [| c s IH]; simpl; [tauto |].
  destruct (isWhiteSpace c); simpl; [exact IH |].
  split; intros H; discriminate H.
Qed.

Lemma forallb_rev {A} (f : A -> bool) (l : list A) :
  forallb f (rev l) = forallb f l.
Proof.
  induction l as [| x l IH]; simpl; [reflexivity |].
  rewrite forallb_app. simpl. rewrite IH. destruct (f x), (forallb f l); reflexivity.
Qed.

Lemma trim_nil s : trim s = [] <-> forallb isWhiteSpace s = true.
Proof.
  unfold trim, trimEnd. split.
  - intros H.
    assert (H1 : trimStart (rev (trimStart s)) = []).
    { destruct (trimStart (rev (trimStart s))); [reflexivity |].
      simpl in H. destruct (rev l); discriminate H. }
    apply trimStart_nil in H1. rewrite forallb_rev in H1.
    pose proof (trimStart_head s) as Hh.
    destruct (trimStart s) as [| c t] eqn:E.
    + apply trimStart_nil. exact E.
    + simpl in Hh, H1. rewrite Hh in H1. discriminate H1.
  - intros H. apply trimStart_nil in H. rewrite H. reflexivity.
Qed.



Lemma truthy_true s : truthy s = true <-> s <> [].
Proof. destruct s; simpl; split; congruence. Qed.

(** A string with a character that is not white space has a non-empty trim. *)
Lemma trim_not_nil s c :
  In c s -> isWhiteSpace c = false -> trim s <> [].
Proof.
  intros Hin Hc H. apply trim_nil in H.
  rewrite forallb_forall in H. specialize (H c Hin). congruence.
Qed.

End StringFacts.

(** ** [chunkText] *)

Section ChunkText.

Variable text : jstring.
Variable pageNumber : Z.

Local Abbreviation len := (Z.of_nat (length text)).

Lemma windowEnd_bounds (start : Z) :
  (0 <= start < len)%Z ->
  (start < windowEnd text start <= len)%Z /\
  (windowEnd text start <= start + 800)%Z /\
  (windowEnd text start < len -> windowEnd text start = start + 800)%Z.
Proof. unfold windowEnd, CHUNK_SIZE. lia. Qed.

Lemma lastSpaceOf_lt (start : Z) :
  (0 <= start < len)%Z ->
  (lastSpaceOf text start < windowEnd text start - start)%Z.
Proof.
  intros H. pose proof (windowEnd_bounds start H) as Hw. unfold lastSpaceOf.
  assert (Hne : lit " " <> []) by discriminate.
  pose proof (lastIndexOf_lt (slice text start (windowEnd text start)) (lit " ") Hne) as Hl.
  rewrite length_slice in Hl by lia. lia.
Qed.

(** The next value of [start], by cases. *)
Lemma chunkStep_next (start : Z) :
  snd (chunkStep text start) =
  if (windowEnd text start <? len)%Z then
    if (lastSpaceOf text start >? CHUNK_SIZE / 2)%Z
    then (start + (lastSpaceOf text start + 1 - CHUNK_OVERLAP))%Z
    else (windowEnd text start - CHUNK_OVERLAP)%Z
  else len.
Proof.
  unfold chunkStep, lastSpaceOf, windowEnd.
  destruct (Z.min (start + CHUNK_SIZE) len <? len)%Z; [| reflexivity].
  destruct (_ >? _)%Z; reflexivity.
Qed.

(** The slice of an iteration is the window of [text] from [start]. *)
Lemma chunkStep_slice (start : Z) :
  (0 <= start < len)%Z ->
  fst (chunkStep text start) = slice text start (sliceEnd text start).
Proof.
  intros H. pose proof (lastSpaceOf_lt start H) as Hl.
  pose proof (windowEnd_bounds start H) as Hw.
  unfold sliceEnd, chunkStep.
  change (Z.min (start + CHUNK_SIZE) len) with (windowEnd text start).
  change (lastIndexOf (slice text start (windowEnd text start)) (lit " "))
    with (lastSpaceOf text start).
  destruct (windowEnd text start <? len)%Z eqn:E1; simpl; [| reflexivity].
  destruct (lastSpaceOf text start >? CHUNK_SIZE / 2)%Z eqn:E2; simpl; [| reflexivity].
  change (CHUNK_SIZE / 2)%Z with 400%Z in E2.
  rewrite slice_slice_0 by lia.
  f_equal. lia.
Qed.

Lemma sliceEnd_bounds (start : Z) :
  (0 <= start < len)%Z ->
  (start < sliceEnd text start <= len)%Z /\ (sliceEnd text start - start <= 800)%Z.
Proof.
  intros H. pose proof (lastSpaceOf_lt start H) as Hl.
  pose proof (windowEnd_bounds start H) as Hw. unfold sliceEnd.
  destruct (windowEnd text start <? len)%Z; simpl; [| lia].
  destruct (lastSpaceOf text start >? CHUNK_SIZE / 2)%Z eqn:E2; [| lia].
  change (CHUNK_SIZE / 2)%Z with 400%Z in E2. lia.
Qed.

Lemma chunkStep_progress (start : Z) :
  (0 <= start < len)%Z ->
  (start < snd (chunkStep text start) <= len)%Z.
Proof.
  intros H. rewrite chunkStep_next.
  pose proof (lastSpaceOf_lt start H) as Hl.
  pose proof (windowEnd_bounds start H) as Hw.
  unfold CHUNK_OVERLAP.
  destruct (Z.ltb_spec (windowEnd text start) len).
  - destruct (lastSpaceOf text start >? CHUNK_SIZE / 2)%Z eqn:E.
    + change (CHUNK_SIZE / 2)%Z with 400%Z in E. lia.
    + lia.
  - lia.
Qed.

(** The loop exits within [fuel] iterations when [fuel] is at least the
    distance of [start] to the end of the text. *)
Lemma chunkLoop_fuel (fuel : nat) :
  forall (start : Z) (chunks : list Chunk),
    (0 <= start)%Z -> (len - start <= Z.of_nat fuel)%Z ->
    exists result, chunkLoop fuel text pageNumber start chunks = Some result.
Proof.
  induction fuel as [| fuel IH]; intros start chunks H0 Hf.
  - exists chunks. simpl.
    destruct (Z.ltb_spec start len); [lia | reflexivity].
  - simpl. destruct (Z.ltb_spec start len) as [Hlt | Hge].
    + pose proof (chunkStep_progress start (conj H0 Hlt)) as Hp.
      destruct (chunkStep text start) as [slice0 start'] eqn:E. simpl in Hp.
      apply IH; lia.
    + exists chunks. reflexivity.
Qed.

(** *** The chunks *)





End ChunkText.

(** C9. [chunkText] terminates on every text. In an iteration entered with
    [start < text.length] the new [start] is greater: by at least 301 when
    the slice is cut at a word boundary, by exactly
    [CHUNK_SIZE - CHUNK_OVERLAP = 700] when it is not cut and is not the
    last one, and it is [text.length] after the last slice. Hence the loop
    exits within [text.length] iterations and [chunkText] returns. *)
Theorem chunkText_terminates (text : jstring) (pageNumber : Z) :
  (forall start : Z,
     (0 <= start < Z.of_nat (length text))%Z ->
     let next := snd (chunkStep text start) in
     (start < next <= Z.of_nat (length text))%Z /\
     ((windowEnd text start < Z.of_nat (length text))%Z ->
      (lastSpaceOf text start > CHUNK_SIZE / 2)%Z -> (next - start >= 301)%Z) /\
     ((windowEnd text start < Z.of_nat (length text))%Z ->
      (lastSpaceOf text start <= CHUNK_SIZE / 2)%Z ->
      (next - start = CHUNK_SIZE - CHUNK_OVERLAP)%Z /\ (next - start = 700)%Z) /\
     ((windowEnd text start >= Z.of_nat (length text))%Z ->
      next = Z.of_nat (length text))) /\
  (exists chunks,
     chunkLoop (length text) text pageNumber 0 [] = Some chunks /\
     chunkText text pageNumber = chunkFinish text pageNumber chunks).
Proof.
  split.
  - intros start H next. subst next.
    pose proof (chunkStep_progress text start H) as Hp.
    pose proof (windowEnd_bounds text start H) as Hw.
    pose proof (lastSpaceOf_lt text start H) as Hl.
    rewrite chunkStep_next in *. unfold CHUNK_OVERLAP, CHUNK_SIZE in *.
    change (800 / 2)%Z with 400%Z.
    destruct (Z.ltb_spec (windowEnd text start) (Z.of_nat (length text)));
      [destruct (Z.gtb_spec (lastSpaceOf text start) 400) |]; repeat split; lia.
  - destruct (chunkLoop_fuel text pageNumber (length text) 0 []) as [chunks Hc]; [lia | lia |].
    exists chunks. split; [exact Hc |]. unfold chunkText. rewrite Hc. reflexivity.
Qed.

Lemma chunkText_terminates_witness :
  (0 <= 0 < Z.of_nat (length (lit "hello world")))%Z /\
  (0 < snd (chunkStep (lit "hello world") 0) <= Z.of_nat (length (lit "hello world")))%Z.
Proof.
  assert (H : (0 <= 0 < Z.of_nat (length (lit "hello world")))%Z) by (simpl; lia).
  split; [exact H |].
  exact (proj1 (proj1 (chunkText_terminates (lit "hello world") 1) 0%Z H)).
Defined.




(** ** Replacing the characters of a class *)

Section SingleCharacterPattern.

Variable ic : bool.
Variable r : Regex.re.
Variable p : ascii -> bool.
Hypothesis run_r : forall k s, Regex.run ic r k s = Regex.one p k s.

Lemma matchAt_one (i : nat) (pv : option ascii) (s : jstring) :
  Regex.matchAt ic r (Regex.mkSt i pv s []) =
  match s with
  | x :: _ => if p x then Some (Regex.mkMatch i (S i) []) else None
  | [] => None
  end.
Proof.
  unfold Regex.matchAt. rewrite run_r. unfold Regex.one. simpl.
  destruct s as [| x xs]; [reflexivity |]. destruct (p x); reflexivity.
Qed.

(** The search finds the first character that satisfies [p]. *)
Lemma searchFrom_one (s : jstring) :
  forall (i : nat) (pv : option ascii),
    match Regex.searchFrom ic r i pv s with
    | None => forallb (fun x => negb (p x)) s = true
    | Some m =>
        exists (k : nat) (x : ascii),
          m = Regex.mkMatch (i + k) (S (i + k)) [] /\
          forallb (fun x => negb (p x)) (take k s) = true /\
          s !! k = Some x /\ p x = true
    end.
Proof.
  induction s as [| x xs IH]; intros i pv; simpl; rewrite matchAt_one.
  - reflexivity.
  - destruct (p x) eqn:E.
    + exists 0, x. rewrite Nat.add_0_r. repeat split; assumption.
    + specialize (IH (S i) (Some x)).
      destruct (Regex.searchFrom ic r (S i) (Some x) xs) as [m |]; simpl.
      * destruct IH as (k & y & -> & Hk & Hy & Hp).
        exists (S k), y. rewrite <- plus_n_Sm. simpl. rewrite E. simpl.
        repeat split; assumption.
      * exact IH.
Qed.

Lemma filter_all {A} (f : A -> bool) (l : list A) :
  forallb f l = true -> List.filter f l = l.
Proof.
  induction l as [| x l IH]; simpl; [reflexivity |].
  destruct (f x); simpl; [| discriminate]. intros H. rewrite IH by exact H. reflexivity.
Qed.

(** A global replace by the empty string removes the characters that
    satisfy [p]. *)
Lemma replaceLoop_one (fuel : nat) :
  forall (s : jstring) (i : nat) (pv : option ascii),
    length s < fuel ->
    replaceLoop fuel ic r [] i pv s = List.filter (fun x => negb (p x)) s.
Proof.
  induction fuel as [| fuel IH]; intros s i pv Hlen; [lia |].
  cbn [replaceLoop]. pose proof (searchFrom_one s i pv) as Hs.
  destruct (Regex.searchFrom ic r i pv s) as [m |].
  - destruct Hs as (k & x & -> & Hk & Hx & Hp).
    cbn [Regex.m_start Regex.m_end app].
    rewrite (proj2 (Nat.eqb_neq (S (i + k)) (i + k))) by lia.
    replace (i + k - i) with k by lia. replace (S (i + k) - i) with (S k) by lia.
    assert (Hlt : k < length s) by (apply lookup_lt_is_Some; eauto).
    rewrite IH by (rewrite length_drop; lia).
    assert (E : List.filter (fun y => negb (p y)) s =
                take k s ++ List.filter (fun y => negb (p y)) (drop (S k) s)).
    { rewrite <- (take_drop_middle s k x Hx) at 1.
      rewrite List.filter_app. cbn [List.filter]. rewrite Hp. cbn [negb].
      f_equal. apply filter_all. exact Hk. }
    rewrite E. reflexivity.
  - symmetry. apply filter_all. exact Hs.
Qed.

End SingleCharacterPattern.

Lemma replace_not_lower_alnum (s : jstring) :
  replace s (rxg "[^a-z0-9]") [] = List.filter isLowerAlnum s.
Proof.
  unfold replace. simpl global. cbv iota.
  change (compile (rxg "[^a-z0-9]"))
    with (Regex.CSet true [Regex.IRange "a" "z"; Regex.IRange "0" "9"]).
  rewrite (replaceLoop_one false _
             (fun x => xorb true
                (existsb (fun i => Regex.inItem false i x)
                   [Regex.IRange "a" "z"; Regex.IRange "0" "9"])))
    by (reflexivity || lia).
  apply List.filter_ext. intros x. unfold isLowerAlnum, isLower, isDigit. simpl.
  change (code "a") with 97. change (code "z") with 122.
  change (code "0") with 48. change (code "9") with 57.
  destruct (inRange 97 122 x), (inRange 48 57 x); reflexivity.
Qed.

(** ** Deduplication of risk flags *)

Lemma normalizeKey_normalized50 (s : jstring) : normalizeKey s = normalized50 s.
Proof.
  unfold normalizeKey, normalized50. rewrite replace_not_lower_alnum.
  rewrite slice_take_drop by lia. rewrite drop_0. reflexivity.
Qed.

Lemma normalized50_no_colon (s : jstring) : ~ In ":"%char (normalized50 s).
Proof.
  unfold normalized50. intros H.
  assert (Hin : In ":"%char (List.filter isLowerAlnum (toLowerCase s))).
  { apply list_elem_of_In. apply list_elem_of_In in H.
    apply elem_of_take in H as (i & Hi & _). eapply list_elem_of_lookup_2. exact Hi. }
  apply List.filter_In in Hin as [_ Hc]. discriminate Hc.
Qed.

(** A list is cut in one way at the first occurrence of a separator. *)
Lemma app_sep_inj {A} (x : A) (l1 l2 k1 k2 : list A) :
  ~ In x l1 -> ~ In x l2 -> l1 ++ x :: k1 = l2 ++ x :: k2 -> l1 = l2 /\ k1 = k2.
Proof.
  revert l2. induction l1 as [| a l1 IH]; intros [| b l2] H1 H2 E; simpl in *.
  - injection E as ->. split; reflexivity.
  - injection E as <- _. tauto.
  - injection E as -> _. tauto.
  - injection E as -> E. destruct (IH l2) as [-> ->]; [tauto | tauto | exact E |].
    split; reflexivity.
Qed.

(** The same at the last occurrence. *)
Lemma app_sep_inj_last {A} (x : A) (l1 l2 k1 k2 : list A) :
  ~ In x k1 -> ~ In x k2 -> l1 ++ x :: k1 = l2 ++ x :: k2 -> l1 = l2 /\ k1 = k2.
Proof.
  intros H1 H2 E. apply (f_equal (@rev A)) in E.
  rewrite !rev_app_distr in E. simpl in E. rewrite <- !app_assoc in E. simpl in E.
  apply app_sep_inj in E as [Ek El]; try (rewrite <- in_rev; assumption).
  apply rev_inj in Ek, El. split; assumption.
Qed.

Lemma key_inj (s t : jstring) : key s = key t -> s = t.
Proof.
  unfold key. intros H. apply (f_equal list_ascii_of_string) in H.
  rewrite !list_ascii_of_string_of_list_ascii in H. exact H.
Qed.

(** The string key of the code and the triple of the specification
    identify the same flags. *)
Lemma riskKey_keyTriple (f g : RiskFlag) :
  key (riskKey f) = key (riskKey g) <-> keyTriple f = keyTriple g.
Proof.
  unfold riskKey, keyTriple. rewrite !normalizeKey_normalized50.
  rewrite !slice_take_drop by lia. rewrite !drop_0. change (Z.to_nat 50 - Z.to_nat 0) with 50.
  split.
  - intros H. apply key_inj in H.
    assert (shape : forall rt ref expl : jstring,
               rt ++ lit ":" ++ ref ++ lit ":" ++ expl
               = (rt ++ ":"%char :: ref) ++ ":"%char :: expl).
    { intros rt ref expl. rewrite <- app_assoc. reflexivity. }
    rewrite !shape in H.
    apply app_sep_inj_last in H as [H He]; try apply normalized50_no_colon.
    apply app_sep_inj_last in H as [Ht Hr]; try apply normalized50_no_colon.
    congruence.
  - intros [= -> -> ->]. reflexivity.
Qed.

(** The filter of the code is the filter of the specification when the
    two sets of seen keys agree. *)
Lemma dedupFilter_keepFirstFrom (flags : list RiskFlag) :
  forall (seen : gset string) (seenT : list (jstring * jstring * jstring)),
    (forall f, key (riskKey f) ∈ seen <-> keyTriple f ∈ seenT) ->
    dedupFilter seen flags = keepFirstFrom keyTriple seenT flags.
Proof.
  induction flags as [| f flags IH]; intros seen seenT Hs; simpl; [reflexivity |].
  destruct (bool_decide_reflect (key (riskKey f) ∈ seen)) as [Hin | Hout].
  - rewrite bool_decide_eq_true_2 by (apply Hs; exact Hin). apply IH, Hs.
  - rewrite bool_decide_eq_false_2 by (rewrite <- Hs; exact Hout).
    f_equal. apply IH. intros g. rewrite elem_of_union, elem_of_singleton, elem_of_cons.
    rewrite riskKey_keyTriple, Hs. reflexivity.
Qed.

Section KeepFirst.

Context {A K : Type} `{EqDecision K}.
Variable keyOf : A -> K.

Lemma keepFirstFrom_keys (xs : list A) :
  forall (seen : list K) (x : A),
    In x (keepFirstFrom keyOf seen xs) -> In x xs /\ keyOf x ∉ seen.
Proof.
  induction xs as [| y xs IH]; intros seen x; simpl; [tauto |].
  destruct (bool_decide_reflect (keyOf y ∈ seen)) as [Hin | Hout].
  - intros Hx. apply IH in Hx. tauto.
  - intros [<- | Hx]; [tauto |]. apply IH in Hx as [Hx Hk].
    split; [tauto |]. intros Hs. apply Hk. right. exact Hs.
Qed.

Lemma keepFirstFrom_NoDup (xs : list A) :
  forall seen : list K, NoDup (map keyOf (keepFirstFrom keyOf seen xs)).
Proof.
  induction xs as [| y xs IH]; intros seen; simpl; [constructor |].
  destruct (bool_decide (keyOf y ∈ seen)); [apply IH |].
  simpl. constructor; [| apply IH].
  intros Hin. apply list_elem_of_In, in_map_iff in Hin as (x & Hk & Hx).
  apply keepFirstFrom_keys in Hx as [_ Hx]. apply Hx. rewrite Hk. left.
Qed.

Lemma keepFirstFrom_sublist (xs : list A) :
  forall seen : list K, keepFirstFrom keyOf seen xs `sublist_of` xs.
Proof.
  induction xs as [| y xs IH]; intros seen; simpl; [constructor |].
  destruct (bool_decide (keyOf y ∈ seen)).
  - apply sublist_cons, IH.
  - apply sublist_skip, IH.
Qed.

(** Every key of the input that is not yet seen is kept, by its first
    element. *)
Lemma keepFirstFrom_first (xs : list A) :
  forall (seen : list K) (x : A),
    In x xs -> keyOf x ∉ seen ->
    exists (pre post : list A) (y : A),
      xs = pre ++ y :: post /\ keyOf y = keyOf x /\
      (forall z, In z pre -> keyOf z <> keyOf x) /\
      In y (keepFirstFrom keyOf seen xs).
Proof.
  induction xs as [| a xs IH]; intros seen x Hin Hk; simpl in *; [tauto |].
  destruct (decide (keyOf a = keyOf x)) as [Ha | Ha].
  - exists [], xs, a. rewrite bool_decide_eq_false_2 by (rewrite Ha; exact Hk).
    repeat split; [exact Ha | intros z [] | left; reflexivity].
  - destruct Hin as [-> | Hin]; [congruence |].
    destruct (bool_decide_reflect (keyOf a ∈ seen)) as [Hs | Hs].
    + destruct (IH seen x Hin Hk) as (pre & post & y & -> & Hy & Hpre & Hiny).
      exists (a :: pre), post, y. repeat split; try assumption.
      intros z [<- | Hz]; [exact Ha | apply Hpre, Hz].
    + destruct (IH (keyOf a :: seen) x Hin) as (pre & post & y & -> & Hy & Hpre & Hiny).
      { intros Hx. apply elem_of_cons in Hx as [Hx | Hx]; [congruence | tauto]. }
      exists (a :: pre), post, y. repeat split; try assumption.
      * intros z [<- | Hz]; [exact Ha | apply Hpre, Hz].
      * right. exact Hiny.
Qed.

(** Filtering again with more keys seen changes nothing as long as the
    keys of the list are not among them. *)
Lemma keepFirstFrom_idem (xs : list A) :
  forall seen seen' : list K,
    (forall x, In x (keepFirstFrom keyOf seen xs) -> keyOf x ∉ seen') ->
    keepFirstFrom keyOf seen' (keepFirstFrom keyOf seen xs) = keepFirstFrom keyOf seen xs.
Proof.
  induction xs as [| y xs IH]; intros seen seen' Hs; simpl in *; [reflexivity |].
  destruct (bool_decide_reflect (keyOf y ∈ seen)) as [Hin | Hout].
  - apply IH, Hs.
  - simpl. rewrite bool_decide_eq_false_2 by (apply Hs; left; reflexivity).
    f_equal. apply IH. intros x Hx Hk.
    apply elem_of_cons in Hk as [Hk | Hk].
    + apply keepFirstFrom_keys in Hx as [_ Hx]. apply Hx. rewrite Hk. left.
    + apply (Hs x); [right; exact Hx | exact Hk].
Qed.

End KeepFirst.

(** C2. The deduplication step returns the subsequence that keeps the first
    flag for each key, the key being the triple of the risk type, the
    clause reference normalised to its first 50 lower-case alphanumeric
    characters, and the same normalisation of the first 50 characters of
    the explanation. So no two flags of the result share a key, the order
    of the kept flags is that of the input, every key of the input is
    represented by its first flag, and filtering again changes nothing. *)
Theorem uniqueRiskFlags_keeps_first (flags : list RiskFlag) :
  uniqueRiskFlags flags = keepFirst keyTriple flags /\
  NoDup (map keyTriple (uniqueRiskFlags flags)) /\
  uniqueRiskFlags flags `sublist_of` flags /\
  (forall f, In f flags ->
     exists pre post g,
       flags = pre ++ g :: post /\ keyTriple g = keyTriple f /\
       (forall h, In h pre -> keyTriple h <> keyTriple f) /\
       In g (uniqueRiskFlags flags)) /\
  uniqueRiskFlags (uniqueRiskFlags flags) = uniqueRiskFlags flags.
Proof.
  assert (E : forall l, uniqueRiskFlags l = keepFirst keyTriple l).
  { intros l. unfold uniqueRiskFlags, keepFirst. apply dedupFilter_keepFirstFrom.
    intros f. rewrite elem_of_empty, elem_of_nil. reflexivity. }
  rewrite !E. unfold keepFirst. repeat split.
  - apply keepFirstFrom_NoDup.
  - apply keepFirstFrom_sublist.
  - intros f Hf. apply keepFirstFrom_first; [exact Hf | apply not_elem_of_nil].
  - apply keepFirstFrom_idem. intros x _. apply not_elem_of_nil.
Qed.

(** ** Document type detection *)

Lemma strongContract_bool (t : jstring) :
  (3 <=? countMatches contractIndicators t) ||
  (includes t (lit "agreement") && (2 <=? countMatches contractIndicators t)) = true
  <-> strongContract t.
Proof.
  unfold strongContract.
  rewrite orb_true_iff, andb_true_iff, !Nat.leb_le. reflexivity.
Qed.

Lemma detectDocumentType_classify (rawText : jstring) :
  detectDocumentType rawText = classify rawText.
Proof.
  unfold detectDocumentType, classify.
  assert (E : negb (truthy rawText) || (length rawText <? 20) = (length rawText <? 20)).
  { destruct rawText; reflexivity. }
  rewrite E. clear E. destruct (length rawText <? 20); [reflexivity |].
  destruct ((3 <=? countMatches contractIndicators (toLowerCase rawText)) ||
            (includes (toLowerCase rawText) (lit "agreement") &&
             (2 <=? countMatches contractIndicators (toLowerCase rawText))));
    [reflexivity |].
  unfold remainingTypeTests, firstType.
  destruct (test ndaName _ && test ndaBody _); [reflexivity |].
  destruct (test slaPattern _); [reflexivity |].
  destruct (test purchaseOrderPattern _); [reflexivity |].
  destruct (3 <=? countMatches invoiceIndicators _); [reflexivity |].
  destruct (2 <=? countMatches idIndicators _); reflexivity.
Qed.

(** C3. [detectDocumentType] answers "unknown" for a text of fewer than 20
    characters. For a longer text it answers "contract" when at least 3
    contract indicators match the lower-cased text, or when that text
    contains "agreement" and at least 2 indicators match. Otherwise it
    answers the first of nda, sla, purchase_order, invoice (at least 3
    invoice indicators) and identity_document (at least 2 identity
    indicators) whose test holds, and when none does, "contract" if at
    least one contract indicator matched and "unknown" if none did. *)
Theorem detectDocumentType_cascade (rawText : jstring) :
  let t := toLowerCase rawText in
  (length rawText < 20 -> detectDocumentType rawText = unknown) /\
  (20 <= length rawText -> strongContract t -> detectDocumentType rawText = contract) /\
  (20 <= length rawText -> ~ strongContract t ->
   forall k, firstType (remainingTypeTests t) = Some k -> detectDocumentType rawText = k) /\
  (20 <= length rawText -> ~ strongContract t ->
   firstType (remainingTypeTests t) = None ->
   (1 <= countMatches contractIndicators t -> detectDocumentType rawText = contract) /\
   (countMatches contractIndicators t = 0 -> detectDocumentType rawText = unknown)) /\
  detectDocumentType rawText = classify rawText.
Proof.
  intros t. rewrite detectDocumentType_classify. unfold classify. fold t.
  pose proof (strongContract_bool t) as Hs.
  destruct (Nat.ltb_spec (length rawText) 20) as [Hlt | Hge].
  - repeat split; intros; solve [reflexivity | lia].
  - destruct (_ || _) eqn:E.
    + repeat split; intros; try reflexivity; try lia;
        exfalso; match goal with H : ~ strongContract t |- _ => apply H, Hs end; reflexivity.
    + assert (Hn : ~ strongContract t) by (intros H; apply Hs in H; discriminate H).
      repeat split; intros; try lia; try contradiction.
      * match goal with H : firstType _ = Some _ |- _ => rewrite H end. reflexivity.
      * match goal with H : firstType _ = None |- _ => rewrite H end.
        rewrite (proj2 (Nat.leb_le _ _)) by assumption. reflexivity.
      * match goal with H : firstType _ = None |- _ => rewrite H end.
        match goal with H : countMatches _ _ = 0 |- _ => rewrite H end. reflexivity.
Qed.

Lemma detectDocumentType_cascade_witness :
  length (lit "masteragreement") < 20 /\
  detectDocumentType (lit "masteragreement") = unknown.
Proof.
  assert (H : length (lit "masteragreement") < 20) by (simpl; lia).
  split; [exact H |].
  exact (proj1 (detectDocumentType_cascade (lit "masteragreement")) H).
Defined.


(** ** Binary64 numbers *)

Section Binary64.
(** ** Binary64 numbers *)










(** *** Rounding keeps the sign and does not reach zero *)









(** *** The sign of a difference *)



(** *** Primitive numbers *)

Local Open Scope float_scope.







(** *** Products and zeros *)

Lemma SFmul_comm (x y : spec_float) : SF64mul x y = SF64mul y x.
Proof.
  destruct x as [sx | sx | | sx mx ex], y as [sy | sy | | sy my ey];
    cbn [SF64mul SFmul]; try reflexivity; try (rewrite xorb_comm; reflexivity).
  rewrite xorb_comm, Pos.mul_comm, Z.add_comm. reflexivity.
Qed.

Lemma mul_comm (x y : float) : x * y = y * x.
Proof. apply Prim2SF_inj. rewrite !mul_spec. apply SFmul_comm. Qed.


Lemma zeroOrNaN_mul_zero (x y : float) : zeroOrNaN x -> zeroOrNaN (x * y).
Proof.
  unfold zeroOrNaN. rewrite mul_spec.
  destruct (Prim2SF x) as [sx | sx | | sx mx ex]; try contradiction; intros _;
    destruct (Prim2SF y) as [sy | sy | | sy my ey]; exact I.
Qed.

Lemma zeroOrNaN_add (x y : float) : zeroOrNaN x -> zeroOrNaN y -> zeroOrNaN (x + y).
Proof.
  unfold zeroOrNaN. rewrite add_spec.
  destruct (Prim2SF x) as [sx | sx | | sx mx ex]; try contradiction; intros _;
    destruct (Prim2SF y) as [sy | sy | | sy my ey]; try contradiction; intros _;
    cbn [SF64add SFadd]; try exact I.
  destruct sx, sy; exact I.
Qed.

Lemma zeroOrNaN_div (x y : float) : zeroOrNaN y -> Prim2SF y = S754_nan -> x / y = nan.
Proof.
  intros _ H. apply Prim2SF_inj. rewrite div_spec, H.
  destruct (Prim2SF x); reflexivity.
Qed.

Lemma zeroOrNaN_cases (x : float) : zeroOrNaN x -> (x =? 0) = true \/ x = nan.
Proof.
  unfold zeroOrNaN. rewrite FloatAxioms.eqb_spec. change (Prim2SF 0) with (S754_zero false).
  destruct (Prim2SF x) as [sx | sx | | sx mx ex] eqn:E; try contradiction; intros _.
  - left. reflexivity.
  - right. apply Prim2SF_inj. rewrite E. reflexivity.
Qed.

(** *** Rounding keeps the sign *)









End Binary64.

(** ** Local embedding *)

Lemma length_bump (vec : list float) (idx : nat) : length (bump vec idx) = length vec.
Proof. unfold bump. apply length_insert. Qed.

Lemma length_tokenCounts (text : jstring) : length (tokenCounts text) = EMBED_DIM.
Proof.
  unfold tokenCounts.
  assert (H : forall ts vec, length (fold_left (fun v t => bump v (bucket t)) ts vec)
                             = length vec).
  { induction ts as [| t ts IH]; intros vec; simpl; [reflexivity |].
    rewrite IH. apply length_bump. }
  rewrite H. apply length_replicate.
Qed.


Lemma length_localEmbed (text : jstring) : length (localEmbed text) = EMBED_DIM.
Proof. unfold localEmbed. rewrite length_map. apply length_tokenCounts. Qed.
















Lemma localEmbed_no_tokens (text : jstring) :
  embedTokens text = [] -> localEmbed text = replicate EMBED_DIM 0%float.
Proof.
  intros H. unfold localEmbed, tokenCounts. rewrite H. vm_compute. reflexivity.
Qed.

(** ** Vector search *)

Lemma cosineSums_dotProduct :
  forall (a b : list float) (dot normA normB : float),
    length a = length b ->
    cosineSums a b (dot, normA, normB)
    = (fold_left (fun s xy => (s + fst xy * snd xy)%float) (combine a b) dot,
       fold_left (fun s xy => (s + fst xy * snd xy)%float) (combine a a) normA,
       fold_left (fun s xy => (s + fst xy * snd xy)%float) (combine b b) normB).
Proof.
  induction a as [| x a IH]; intros [| y b] dot normA normB H; simpl in H;
    try discriminate H; simpl; [reflexivity |].
  apply IH. lia.
Qed.

(** The loop of [cosineSimilarity] computes the cosine similarity. *)
Lemma cosineSimilarity_cosineOf (a b : list float) : cosineSimilarity a b = cosineOf a b.
Proof.
  unfold cosineSimilarity, cosineOf.
  destruct (Nat.eqb_spec (length a) (length b)) as [E | E]; simpl; [| reflexivity].
  destruct (Nat.eqb_spec (length a) 0) as [E0 | E0].
  - rewrite E0. reflexivity.
  - replace (0 <? length a) with true by (symmetry; apply Nat.ltb_lt; lia).
    rewrite cosineSums_dotProduct by exact E. reflexivity.
Qed.

Lemma findEmbeddings_chunksOfDocuments (stored : list Embedding) (ids : list ObjectId) :
  findEmbeddings stored ids = chunksOfDocuments stored ids.
Proof.
  unfold findEmbeddings, chunksOfDocuments. apply filter_ext. intros e.
  destruct (existsb (Nat.eqb (emb_documentId e)) ids) eqn:Ex.
  - apply bool_decide_eq_true. apply existsb_exists in Ex as (i & Hi & Hx).
    apply Nat.eqb_eq in Hx. rewrite Hx. apply list_elem_of_In, Hi.
  - apply bool_decide_eq_false. intros Hin. apply list_elem_of_In in Hin.
    assert (Ht : existsb (Nat.eqb (emb_documentId e)) ids = true).
    { apply existsb_exists. exists (emb_documentId e). split; [exact Hin |].
      apply Nat.eqb_refl. }
    congruence.
Qed.


(** Without Chroma [vectorSearch] is the linear scan. *)
Lemma vectorSearch_linearScan (env : SearchEnv) (ids : list ObjectId) (query : jstring)
  (topK : option nat) :
  isChromaEnabled env = false ->
  vectorSearch env ids query topK = linearScan env ids query (default 5 topK).
Proof.
  intros Hoff. unfold vectorSearch. rewrite Hoff. cbv zeta.
  unfold embedText at 1. rewrite length_localEmbed. cbn [EMBED_DIM Nat.eqb].
  unfold linearScan, scoredChunks. rewrite findEmbeddings_chunksOfDocuments.
  f_equal. f_equal. f_equal. apply map_ext. intros e.
  unfold withScore, scored, embedText. rewrite cosineSimilarity_cosineOf. reflexivity.
Qed.

Lemma insertByScore_perm (x : SearchResult) (l : list SearchResult) :
  Permutation (insertByScore x l) (x :: l).
Proof.
  induction l as [| y l IH]; simpl; [reflexivity |].
  destruct (0 <? score y - score x)%float; [| reflexivity].
  rewrite IH. apply perm_swap.
Qed.

Lemma sortByScore_perm (l : list SearchResult) : Permutation (sortByScore l) l.
Proof.
  induction l as [| x l IH]; simpl; [reflexivity |].
  rewrite insertByScore_perm. constructor. exact IH.
Qed.





Lemma filter_sublist {A} (f : A -> bool) (l : list A) : List.filter f l `sublist_of` l.
Proof.
  induction l as [| x l IH]; simpl; [constructor |].
  destruct (f x); [apply sublist_skip | apply sublist_cons]; exact IH.
Qed.

Lemma linearScan_sublist (env : SearchEnv) ids query k :
  linearScan env ids query k `sublist_of` sortByScore (scoredChunks env ids query).
Proof.
  unfold linearScan. etransitivity; [apply filter_sublist | apply sublist_take].
Qed.








(** ** Steps of the pipeline *)

Lemma bind_inv {A B} (m : Step A) (k : A -> Step B) (db db' : DB) (r : Result B) :
  (m ≫= k) db = (db', r) ->
  (exists db1 a, m db = (db1, Ok a) /\ k a db1 = (db', r)) \/
  (exists e, m db = (db', Throw e) /\ r = Throw e).
Proof.
  unfold mbind, step_bind, bind.
  destruct (m db) as [db1 [a | e]]; intros H.
  - left. exists db1, a. split; [reflexivity | exact H].
  - right. exists e. injection H as <- <-. split; reflexivity.
Qed.

Lemma keeps_orFail {X} (proj : DB -> X) (fails : option jstring) (f : DB -> DB) :
  (forall db, proj (f db) = proj db) -> keeps proj (orFail fails f).
Proof.
  intros Hf db db' r. unfold orFail, throw, modify.
  destruct fails; intros [= <- _]; [reflexivity | apply Hf].
Qed.

Lemma keeps_ret {X} (proj : DB -> X) {A} (a : A) : keeps proj (ret a).
Proof. intros db db' r [= <- _]. reflexivity. Qed.

Lemma keeps_bind {X} (proj : DB -> X) {A B} (m : Step A) (k : A -> Step B) :
  keeps proj m -> (forall a, keeps proj (k a)) -> keeps proj (m ≫= k).
Proof.
  intros Hm Hk db db' r H. apply bind_inv in H as [(db1 & a & H1 & H2) | (e & H1 & _)].
  - rewrite (Hk a _ _ _ H2). apply (Hm _ _ _ H1).
  - apply (Hm _ _ _ H1).
Qed.

Lemma keeps_storeEmbeddings {X} (proj : DB -> X) (env : Env) (documentId : ObjectId)
  (chunks : list EmbeddingChunk) :
  (forall db es, proj (setEmbeddings db es) = proj db) ->
  forall i, keeps proj (storeEmbeddings env documentId i chunks).
Proof.
  intros Hp. induction chunks as [| c chunks IH]; intros i; simpl.
  - apply keeps_ret.
  - destruct (negb (truthy (trim (ec_text c)))); [apply IH |].
    apply keeps_bind; [| intros _; apply IH].
    destruct (0 <? length _); [| apply keeps_ret].
    apply keeps_orFail. intros db. apply Hp.
Qed.

(** The outcome of the [try] block. When it throws, no document is
    changed. When it returns, the structure of the extraction is stored,
    the flags of the document are replaced by the deduplicated flags,
    which passed the validation, and the document is completed with the
    score computed from them. *)
Lemma pipelineBody_outcome (env : Env) (documentId : ObjectId) (filePath : jstring)
  (isImage : bool) (mimeType : jstring) (db db' : DB) (r : Result (Z * jstring)) :
  pipelineBody env documentId filePath isImage mimeType db = (db', r) ->
  match r with
  | Throw _ => documents db' = documents db
  | Ok (riskScore, summary) =>
      exists ex,
        extractionOf env filePath isImage mimeType = Ok ex /\
        structures db' = <[ documentId := structureOf ex ]> (structures db) /\
        riskFlags db' =
          List.filter (fun f => negb (rf_documentId f =? documentId)) (riskFlags db) ++
          uniqueFlagsOf env documentId ex /\
        forallb riskFlagValid (uniqueFlagsOf env documentId ex) = true /\
        riskScore = computeRiskScore (finalTypeOf ex) (uniqueFlagsOf env documentId ex) /\
        summary = finalSummaryOf (finalTypeOf ex) ex (storedFieldsOf ex) /\
        documents db' =
          alter (fun d => withCompleted d riskScore summary (finalTypeOf ex))
                documentId (documents db)
  end.
Proof.
  unfold pipelineBody. intros H.
  apply bind_inv in H as [(db1 & buffer & H1 & H) | (e & H1 & ->)];
    [| unfold lift in H1; injection H1 as <- _; reflexivity].
  unfold lift in H1. injection H1 as <- Hread.
  apply bind_inv in H as [(db1 & ex & H1 & H) | (e & H1 & ->)];
    [| unfold lift in H1; injection H1 as <- _; reflexivity].
  unfold lift in H1. injection H1 as <- Hex.
  assert (Hext : extractionOf env filePath isImage mimeType = Ok ex).
  { unfold extractionOf. rewrite Hread. exact Hex. }
  cbv zeta in H.
  change (match detectDocumentType (ex_rawText ex) with
          | identity_document => withIdFields (ex_rawText ex) (ex_extractedForDb ex)
          | _ => ex_extractedForDb ex
          end) with (storedFieldsOf ex) in H.
  change (finalDocTypeOf (ex_documentType ex) (detectDocumentType (ex_rawText ex)))
    with (finalTypeOf ex) in H.
  change (uniqueRiskFlags (pipelineRiskFlags env documentId (ex_rawText ex) (finalTypeOf ex)))
    with (uniqueFlagsOf env documentId ex) in H.
  change (mkDocumentStructure (ex_pages ex) (ex_sections ex) (ex_tables ex)
            (ex_clauses ex) (ex_signatures ex) (ex_relationships ex)
            (ex_crossReferences ex) (storedFieldsOf ex) (finalTypeOf ex))
    with (structureOf ex) in H.
  (* the structure is saved *)
  apply bind_inv in H as [(db1 & [] & H1 & H) | (e & H1 & ->)].
  2: { unfold orFail, throw, modify in H1. destruct (saveStructureFails env);
         injection H1 as <- _; try discriminate; reflexivity. }
  unfold orFail, throw, modify in H1.
  destruct (saveStructureFails env); [discriminate H1 |]. injection H1 as <-.
  (* Chroma *)
  apply bind_inv in H as [(db2 & [] & H1 & H) | (e & H1 & ->)];
    [| discriminate H1].
  unfold modify in H1. injection H1 as <-.
  (* the embeddings *)
  apply bind_inv in H as [(db3 & [] & H1 & H) | (e & H1 & ->)].
  2: { pose proof (keeps_storeEmbeddings documents env documentId (validChunks ex)
                     (fun _ _ => eq_refl) 0 _ _ _ H1) as Hk.
       rewrite Hk. unfold storeInChroma.
       destruct (chromaEnabled env && chromaCollection env); reflexivity. }
  pose proof (keeps_storeEmbeddings documents env documentId (validChunks ex)
                (fun _ _ => eq_refl) 0 _ _ _ H1) as Hd3.
  pose proof (keeps_storeEmbeddings structures env documentId (validChunks ex)
                (fun _ _ => eq_refl) 0 _ _ _ H1) as Hs3.
  pose proof (keeps_storeEmbeddings riskFlags env documentId (validChunks ex)
                (fun _ _ => eq_refl) 0 _ _ _ H1) as Hf3.
  assert (Hd2 : documents db3 = documents db).
  { rewrite Hd3. unfold storeInChroma.
    destruct (chromaEnabled env && chromaCollection env); reflexivity. }
  assert (Hs2 : structures db3 = <[ documentId := structureOf ex ]> (structures db)).
  { rewrite Hs3. unfold storeInChroma.
    destruct (chromaEnabled env && chromaCollection env); reflexivity. }
  assert (Hf2 : riskFlags db3 = riskFlags db).
  { rewrite Hf3. unfold storeInChroma.
    destruct (chromaEnabled env && chromaCollection env); reflexivity. }
  clear H1 Hd3 Hs3 Hf3.
  (* the old flags are deleted *)
  apply bind_inv in H as [(db4 & [] & H1 & H) | (e & H1 & ->)].
  2: { unfold deleteRiskFlags, orFail, throw, modify in H1.
       destruct (deleteRiskFlagsFails env); injection H1 as <- _; try discriminate;
         exact Hd2. }
  unfold deleteRiskFlags, orFail, throw, modify in H1.
  destruct (deleteRiskFlagsFails env); [discriminate H1 |]. injection H1 as <-.
  (* the required fields of the type can be iterated *)
  apply bind_inv in H as [(db4 & [] & H1 & H) | (e & H1 & ->)];
    [| unfold lift in H1; injection H1 as <- _; exact Hd2].
  unfold lift in H1. injection H1 as <- _.
  (* the new flags are inserted *)
  apply bind_inv in H as [(db5 & [] & H1 & H) | (e & H1 & ->)].
  2: { destruct (uniqueFlagsOf env documentId ex) as [| f fs]; [discriminate H1 |].
       unfold insertRiskFlags, orFail, throw, modify in H1.
       destruct (forallb riskFlagValid (f :: fs));
         [destruct (insertRiskFlagsFails env) |];
         injection H1 as <- _; try discriminate; exact Hd2. }
  assert (Hins : forallb riskFlagValid (uniqueFlagsOf env documentId ex) = true /\
                 documents db5 = documents db /\
                 structures db5 = <[ documentId := structureOf ex ]> (structures db) /\
                 riskFlags db5 =
                   List.filter (fun f => negb (rf_documentId f =? documentId)) (riskFlags db)
                   ++ uniqueFlagsOf env documentId ex).
  { destruct (uniqueFlagsOf env documentId ex) as [| f fs] eqn:Eu.
    - injection H1 as <-. simpl. rewrite app_nil_r, Hf2. repeat split; assumption.
    - unfold insertRiskFlags, orFail, throw, modify in H1.
      destruct (forallb riskFlagValid (f :: fs)); [| discriminate H1].
      destruct (insertRiskFlagsFails env); [discriminate H1 |]. injection H1 as <-.
      simpl. rewrite Hf2. repeat split; assumption. }
  destruct Hins as (Hvalid & Hd5 & Hs5 & Hf5). clear H1.
  (* the document is completed *)
  apply bind_inv in H as [(db6 & [] & H1 & H) | (e & H1 & ->)].
  2: { unfold orFail, throw, modify in H1.
       destruct (updateCompletedFails env); [| discriminate H1].
       injection H1 as <- _. exact Hd5. }
  unfold orFail, throw, modify in H1.
  destruct (updateCompletedFails env); [discriminate H1 |]. injection H1 as <-.
  injection H as <- <-.
  exists ex. simpl. rewrite Hd5. repeat split; assumption.
Qed.

(** ** Risk flags and the score *)

Lemma forEachRule_all (P : RiskFlag -> Prop) (rules : list RiskPattern)
  (body : RiskPattern -> option RiskFlag) :
  (forall r f, body r = Some f -> P f) -> Forall P (forEachRule rules body).
Proof.
  intros Hb. unfold forEachRule. apply Forall_forall. intros f Hf.
  apply list_elem_of_omap in Hf as (r & _ & Hr). exact (Hb r f Hr).
Qed.

(** Closes a goal about what the body of a rule loop pushes. *)
Ltac rule_body :=
  let r := fresh "r" in
  let f := fresh "f" in
  let H := fresh "H" in
  intros r f H;
  repeat match type of H with
         | (if ?c then _ else _) = Some _ => destruct c
         end;
  try discriminate H; injection H as <-; reflexivity.

(** Every flag that the pipeline computes belongs to the document. *)
Lemma detectRiskFlags_documentId (documentId : ObjectId) (rawText finalDocType : jstring)
  (semantic : option SemanticRisk) :
  Forall (fun f => rf_documentId f = documentId)
         (detectRiskFlags documentId rawText finalDocType semantic).
Proof.
  unfold detectRiskFlags.
  repeat (apply Forall_app; split);
    repeat match goal with
           | |- Forall _ (if ?c then _ else _) => destruct c
           | |- Forall _ [] => constructor
           | |- Forall _ (_ ++ _) => apply Forall_app; split
           end;
    try (apply forEachRule_all; rule_body).
  - unfold semanticFlags. destruct semantic as [sem |]; [| constructor].
    destruct (negb _); constructor; [reflexivity | constructor].
  - unfold requiredFieldFlags. apply Forall_forall. intros f Hf.
    apply list_elem_of_omap in Hf as (field & _ & Hr).
    destruct (requiredFieldFound _ _ _); [discriminate Hr |]. injection Hr as <-. reflexivity.
Qed.

Lemma dedupFilter_sublist (flags : list RiskFlag) :
  forall seen, dedupFilter seen flags `sublist_of` flags.
Proof.
  induction flags as [| f flags IH]; intros seen; simpl; [constructor |].
  destruct (bool_decide _); [apply sublist_cons | apply sublist_skip]; apply IH.
Qed.

Lemma uniqueFlagsOf_documentId (env : Env) (documentId : ObjectId) (ex : Extraction) :
  Forall (fun f => rf_documentId f = documentId) (uniqueFlagsOf env documentId ex).
Proof.
  unfold uniqueFlagsOf, uniqueRiskFlags, pipelineRiskFlags.
  apply Forall_forall. intros f Hf.
  eapply elem_of_sublist in Hf; [| apply dedupFilter_sublist].
  revert f Hf. apply Forall_forall. apply detectRiskFlags_documentId.
Qed.

(** The flags of a document after its flags were replaced by [new]. *)
Lemma flags_replaced (documentId : ObjectId) (old new : list RiskFlag) :
  Forall (fun f => rf_documentId f = documentId) new ->
  List.filter (fun f => rf_documentId f =? documentId)
    (List.filter (fun f => negb (rf_documentId f =? documentId)) old ++ new) = new.
Proof.
  intros Hnew. rewrite List.filter_app.
  assert (E1 : List.filter (fun f => rf_documentId f =? documentId)
                 (List.filter (fun f => negb (rf_documentId f =? documentId)) old) = []).
  { induction old as [| f old IH]; simpl; [reflexivity |].
    destruct (rf_documentId f =? documentId) eqn:E; simpl; [exact IH |].
    rewrite E. exact IH. }
  rewrite E1. simpl. apply filter_all.
  apply forallb_forall. intros f Hf. rewrite Forall_forall in Hnew.
  apply Nat.eqb_eq, Hnew, list_elem_of_In, Hf.
Qed.

Lemma Math_round_integer (n : Z) : Math_round (inject_Z n) = n.
Proof.
  unfold Math_round, Qfloor, Qplus, inject_Z. simpl.
  rewrite Z.mul_1_r. symmetry. apply (Z.div_unique _ _ _ 1); lia.
Qed.

Lemma computeRiskScore_formula (finalDocType : jstring) (flags : list RiskFlag) :
  computeRiskScore finalDocType flags = scoreFormula finalDocType flags /\
  (0 <= computeRiskScore finalDocType flags <= 100)%Z.
Proof.
  unfold computeRiskScore, scoreFormula. rewrite Math_round_integer.
  assert (H : forall p, (0 <= countSeverity p flags)%Z) by (intros p; unfold countSeverity; lia).
  pose proof (H isHigh). pose proof (H isMedium). pose proof (H isLow).
  destruct (bool_decide _); split; lia.
Qed.

(** ** The pipeline *)

Lemma runDocumentPipeline_finish (env : Env) (documentId : ObjectId) (filePath : jstring)
  (db : DB) (doc : Document) :
  runStarts env ->
  documents db !! documentId = Some doc ->
  runDocumentPipeline env documentId filePath db =
  finishRun env documentId
    (pipelineBody env documentId filePath (isImageDoc doc) (mimeTypeOf doc)
       (updateStatus documentId processing db)).
Proof.
  intros [Hfind Hproc] Hdoc. unfold runDocumentPipeline, finishRun.
  rewrite Hfind, Hdoc, Hproc.
  cbv zeta. fold (mimeTypeOf doc). fold (isImageDoc doc).
  destruct (pipelineBody _ _ _ _ _ _) as [db2 [r | e]]; reflexivity.
Qed.

(** A run that returns has started. *)
Lemma runDocumentPipeline_started (env : Env) (documentId : ObjectId) (filePath : jstring)
  (db db' : DB) (r : Z * jstring) :
  runDocumentPipeline env documentId filePath db = (db', Ok r) ->
  runStarts env /\ exists doc, documents db !! documentId = Some doc.
Proof.
  unfold runDocumentPipeline, runStarts. intros H.
  destruct (findByIdFails env); [discriminate H |].
  destruct (documents db !! documentId) as [doc |]; [| discriminate H].
  destruct (updateProcessingFails env); [discriminate H |].
  split; [split; reflexivity |]. exists doc. reflexivity.
Qed.

(** A run that does not start throws and leaves the database as it is. *)
Lemma runDocumentPipeline_cases (env : Env) (documentId : ObjectId) (filePath : jstring)
  (db db' : DB) (r : Result (Z * jstring)) :
  runDocumentPipeline env documentId filePath db = (db', r) ->
  (db' = db /\ exists e, r = Throw e) \/
  (exists doc, runStarts env /\ documents db !! documentId = Some doc).
Proof.
  unfold runDocumentPipeline, runStarts. intros H.
  destruct (findByIdFails env) as [e |];
    [injection H as <- <-; left; split; [reflexivity | exists e; reflexivity] |].
  destruct (documents db !! documentId) as [doc |];
    [| injection H as <- <-; left; split; [reflexivity | eexists; reflexivity]].
  destruct (updateProcessingFails env) as [e |];
    [injection H as <- <-; left; split; [reflexivity | exists e; reflexivity] |].
  right. exists doc. repeat split; reflexivity.
Qed.

(** The end of a run: the database is the one the [try] block left, or
    that one with the status "failed"; a result is the one of the block. *)
Lemma finishRun_state (env : Env) (documentId : ObjectId) (db2 db' : DB)
  (r2 r : Result (Z * jstring)) :
  finishRun env documentId (db2, r2) = (db', r) ->
  (db' = db2 \/ db' = updateStatus documentId failed db2) /\
  (forall x, r = Ok x -> r2 = Ok x /\ db' = db2).
Proof.
  unfold finishRun, catchBlock. destruct r2 as [x | e].
  - intros [= <- <-]. split; [left; reflexivity |]. intros y [= ->]. split; reflexivity.
  - destruct (updateFailedFails env); intros [= <- <-];
      (split; [auto | intros y Hy; discriminate Hy]).
Qed.

Lemma updateStatus_documents (documentId : ObjectId) (status : DocumentStatus) (db : DB)
  (doc : Document) :
  documents db !! documentId = Some doc ->
  documents (updateStatus documentId status db)
  = <[ documentId := withStatus doc status ]> (documents db).
Proof.
  intros Hdoc. unfold updateStatus. simpl.
  apply map_eq. intros j. destruct (decide (j = documentId)) as [-> | Hne].
  - rewrite lookup_insert_eq, lookup_alter_eq, Hdoc. reflexivity.
  - rewrite lookup_insert_ne by congruence. rewrite lookup_alter_ne by congruence.
    reflexivity.
Qed.

(** A successful run: what is stored when it returns. *)
Lemma runDocumentPipeline_ok (env : Env) (documentId : ObjectId) (filePath : jstring)
  (db db' : DB) (riskScore : Z) (summary : jstring) :
  runDocumentPipeline env documentId filePath db = (db', Ok (riskScore, summary)) ->
  exists doc ex,
    documents db !! documentId = Some doc /\
    extractionOf env filePath (isImageDoc doc) (mimeTypeOf doc) = Ok ex /\
    structures db' !! documentId = Some (structureOf ex) /\
    flagsOfDocument documentId db' = uniqueFlagsOf env documentId ex /\
    forallb riskFlagValid (uniqueFlagsOf env documentId ex) = true /\
    riskScore = computeRiskScore (finalTypeOf ex) (uniqueFlagsOf env documentId ex) /\
    summary = finalSummaryOf (finalTypeOf ex) ex (storedFieldsOf ex) /\
    documents db' =
      <[ documentId := withCompleted doc riskScore summary (finalTypeOf ex) ]> (documents db).
Proof.
  intros Hrun.
  destruct (runDocumentPipeline_started _ _ _ _ _ _ Hrun) as (Hstart & doc & Hdoc).
  rewrite (runDocumentPipeline_finish _ _ _ _ doc Hstart Hdoc) in Hrun.
  destruct (pipelineBody _ _ _ _ _ _) as [db2 [r | e]] eqn:Hbody; simpl in Hrun;
    [| unfold catchBlock in Hrun; destruct (updateFailedFails env); discriminate Hrun].
  injection Hrun as <- ->.
  apply pipelineBody_outcome in Hbody as (ex & Hex & Hs & Hf & Hv & Hscore & Hsum & Hd).
  exists doc, ex. split; [exact Hdoc |]. split; [exact Hex |].
  split; [rewrite Hs; apply lookup_insert_eq |].
  split; [unfold flagsOfDocument; rewrite Hf; apply flags_replaced,
                                            uniqueFlagsOf_documentId |].
  split; [exact Hv |]. split; [exact Hscore |]. split; [exact Hsum |].
  rewrite Hd. unfold updateStatus. simpl.
  apply map_eq. intros j. destruct (decide (j = documentId)) as [-> | Hne].
  - rewrite lookup_insert_eq, !lookup_alter_eq, Hdoc. simpl. destruct doc; reflexivity.
  - rewrite lookup_insert_ne by congruence. rewrite !lookup_alter_ne by congruence.
    reflexivity.
Qed.

(** C1. After a successful run the risk score stored on the document is
    [min(100, 25 H + 15 M + 5 L)], where [H], [M] and [L] count the
    deduplicated flags of the document (the ones the run stored for it)
    of severity high or critical, medium and low, and [min(15, 5 L)] when
    the final document type is "identity_document"; it is the score that
    the run returns and lies between 0 and 100. *)
Theorem riskScore_formula (env : Env) (documentId : ObjectId) (filePath : jstring)
  (db db' : DB) (riskScore : Z) (summary : jstring) :
  runDocumentPipeline env documentId filePath db = (db', Ok (riskScore, summary)) ->
  exists doc doc' ex,
    documents db !! documentId = Some doc /\
    extractionOf env filePath (isImageDoc doc) (mimeTypeOf doc) = Ok ex /\
    documents db' !! documentId = Some doc' /\
    flagsOfDocument documentId db' = uniqueFlagsOf env documentId ex /\
    doc_documentType doc' = finalTypeOf ex /\
    doc_riskScore doc' = riskScore /\
    doc_riskScore doc' =
      scoreFormula (doc_documentType doc') (flagsOfDocument documentId db') /\
    doc_riskScore doc' =
      (let H := countSeverity isHigh (flagsOfDocument documentId db') in
       let M := countSeverity isMedium (flagsOfDocument documentId db') in
       let L := countSeverity isLow (flagsOfDocument documentId db') in
       if bool_decide (doc_documentType doc' = lit "identity_document")
       then Z.min 15 (5 * L)
       else Z.min 100 (Math_round (inject_Z (25 * H + 15 * M + 5 * L)))) /\
    (0 <= doc_riskScore doc' <= 100)%Z.
Proof.
  intros Hrun.
  apply runDocumentPipeline_ok in Hrun
    as (doc & ex & Hdoc & Hex & Hs & Hf & Hv & Hscore & Hsum & Hd).
  exists doc, (withCompleted doc riskScore summary (finalTypeOf ex)), ex.
  split; [exact Hdoc |]. split; [exact Hex |].
  split; [rewrite Hd; apply lookup_insert_eq |].
  split; [exact Hf |]. simpl.
  pose proof (computeRiskScore_formula (finalTypeOf ex) (uniqueFlagsOf env documentId ex))
    as [Hform Hbound].
  rewrite Hf, <- Hscore in *.
  repeat split; try reflexivity; try lia; try exact Hform.
  rewrite Math_round_integer. exact Hform.
Qed.

Lemma riskScore_formula_witness :
  runDocumentPipeline (exampleEnv plainText) 7 (lit "uploads/file.pdf") exampleDb
  = (fst (runDocumentPipeline (exampleEnv plainText) 7 (lit "uploads/file.pdf") exampleDb),
     Ok (60%Z, lit "API key not set.")) /\
  exists doc',
    documents (fst (runDocumentPipeline (exampleEnv plainText) 7 (lit "uploads/file.pdf")
                      exampleDb)) !! 7 = Some doc' /\
    doc_riskScore doc' = 60%Z /\
    countSeverity isMedium
      (flagsOfDocument 7
         (fst (runDocumentPipeline (exampleEnv plainText) 7 (lit "uploads/file.pdf")
                 exampleDb))) = 4%Z.
Proof.
  assert (Hrun : runDocumentPipeline (exampleEnv plainText) 7 (lit "uploads/file.pdf")
                   exampleDb
                 = (fst (runDocumentPipeline (exampleEnv plainText) 7
                           (lit "uploads/file.pdf") exampleDb),
                    Ok (60%Z, lit "API key not set."))) by (vm_compute; reflexivity).
  split; [exact Hrun |].
  destruct (riskScore_formula _ _ _ _ _ _ _ Hrun)
    as (doc & doc' & ex & _ & _ & Hd & _ & _ & Hs & _).
  exists doc'. split; [exact Hd |]. split; [exact Hs |]. vm_compute. reflexivity.
Defined.

(** A run that throws: only the status of the document changes. *)
(** A run in which a step of the [try] block throws: the [catch] block
    sets the status to "failed" and throws the error again, or its own
    update throws and the status stays "processing". *)
Lemma runDocumentPipeline_throw (env : Env) (documentId : ObjectId) (filePath : jstring)
  (db db' : DB) (doc : Document) (err : jstring) :
  runStarts env ->
  documents db !! documentId = Some doc ->
  runDocumentPipeline env documentId filePath db = (db', Throw err) ->
  match updateFailedFails env with
  | None =>
      documents db' = <[ documentId := withStatus doc failed ]> (documents db) /\
      exists db2,
        pipelineBody env documentId filePath (isImageDoc doc) (mimeTypeOf doc)
          (updateStatus documentId processing db) = (db2, Throw err)
  | Some err' =>
      err = err' /\
      documents db' = <[ documentId := withStatus doc processing ]> (documents db)
  end.
Proof.
  intros Hstart Hdoc Hrun.
  rewrite (runDocumentPipeline_finish _ _ _ _ doc Hstart Hdoc) in Hrun.
  destruct (pipelineBody _ _ _ _ _ _) as [db2 [r | e]] eqn:Hbody; simpl in Hrun;
    [discriminate Hrun |].
  apply pipelineBody_outcome in Hbody. simpl in Hbody.
  unfold catchBlock in Hrun.
  destruct (updateFailedFails env) as [err' |].
  - injection Hrun as <- <-. split; [reflexivity |].
    rewrite Hbody. apply updateStatus_documents, Hdoc.
  - injection Hrun as <- <-. split; [| exists db2; reflexivity].
    unfold updateStatus at 1. simpl. rewrite Hbody. unfold updateStatus. simpl.
    apply map_eq. intros j. destruct (decide (j = documentId)) as [-> | Hne].
    + rewrite lookup_insert_eq, !lookup_alter_eq, Hdoc. reflexivity.
    + rewrite lookup_insert_ne by congruence. rewrite !lookup_alter_ne by congruence.
      reflexivity.
Qed.

(** C7. The upload route creates the document with status "pending" and
    risk score 0, unless there is no file (400) or the creation throws
    (500), and then nothing is stored. A run whose [findById] throws,
    whose document does not exist or whose update to "processing" throws
    ends with that error and changes nothing. Otherwise the status is set
    to "processing" before the [try] block runs. If no step throws, the
    run ends with the status "completed" and the new risk score, summary
    and document type. If a step throws and the update of the [catch]
    block succeeds, the document differs from the initial one only by its
    status "failed" and the error of the step is thrown again. If a step
    throws and the update of the [catch] block throws too, the error of
    that update is thrown and the status stays "processing". No other
    document is changed; when the update of the [catch] block succeeds
    the status at the end is "completed" or "failed". *)
Theorem pipeline_status (env : Env) (documentId : ObjectId) (filePath : jstring) (db : DB) :
  (forall (createFails : bool) (req : UploadRequest) (db0 : DB),
     match uploadDocument createFails req db0 with
     | (db1, (code, Some newId)) =>
         code = 201 /\ createFails = false /\ documents db0 !! newId = None /\
         exists d, documents db1 = <[ newId := d ]> (documents db0) /\
                   doc_status d = pending /\ doc_riskScore d = 0%Z
     | (db1, (code, None)) =>
         db1 = db0 /\
         (code = 400 /\ req_file req = None \/ code = 500 /\ createFails = true)
     end) /\
  (forall err, findByIdFails env = Some err ->
     runDocumentPipeline env documentId filePath db = (db, Throw err)) /\
  (findByIdFails env = None -> documents db !! documentId = None ->
   runDocumentPipeline env documentId filePath db = (db, Throw (lit "Document not found"))) /\
  (forall doc err,
     findByIdFails env = None -> documents db !! documentId = Some doc ->
     updateProcessingFails env = Some err ->
     runDocumentPipeline env documentId filePath db = (db, Throw err)) /\
  (forall doc : Document,
     runStarts env ->
     documents db !! documentId = Some doc ->
     let started := updateStatus documentId processing db in
     let body := pipelineBody env documentId filePath (isImageDoc doc) (mimeTypeOf doc)
                   started in
     documents started = <[ documentId := withStatus doc processing ]> (documents db) /\
     runDocumentPipeline env documentId filePath db = finishRun env documentId body /\
     forall (db' : DB) (r : Result (Z * jstring)),
       runDocumentPipeline env documentId filePath db = (db', r) ->
       match r with
       | Ok (riskScore, summary) =>
           body = (db', r) /\
           exists documentType,
             documents db' =
               <[ documentId := withCompleted doc riskScore summary documentType ]>
                 (documents db)
       | Throw err =>
           match updateFailedFails env with
           | None =>
               (exists db2, body = (db2, Throw err)) /\
               documents db' = <[ documentId := withStatus doc failed ]> (documents db)
           | Some err' =>
               (exists db2 err0, body = (db2, Throw err0)) /\
               err = err' /\
               documents db' = <[ documentId := withStatus doc processing ]> (documents db)
           end
       end /\
       (updateFailedFails env = None ->
        exists doc',
          documents db' !! documentId = Some doc' /\
          doc_status doc' <> processing /\
          (doc_status doc' = completed \/ doc_status doc' = failed))).
Proof.
  split; [| split; [| split; [| split]]].
  - intros createFails req db0. unfold uploadDocument.
    destruct (req_file req) as [file |].
    + destruct createFails.
      * split; [reflexivity |]. right. split; reflexivity.
      * split; [reflexivity |]. split; [reflexivity |]. split.
        -- apply not_elem_of_dom. apply is_fresh.
        -- exists (newDocument req file). simpl. repeat split; reflexivity.
    + split; [reflexivity |]. left. split; reflexivity.
  - intros err Hfind. unfold runDocumentPipeline. rewrite Hfind. reflexivity.
  - intros Hfind Hnone. unfold runDocumentPipeline. rewrite Hfind, Hnone. reflexivity.
  - intros doc err Hfind Hdoc Hproc. unfold runDocumentPipeline.
    rewrite Hfind, Hdoc, Hproc. reflexivity.
  - intros doc Hstart Hdoc started body.
    pose proof (runDocumentPipeline_finish env documentId filePath db doc Hstart Hdoc)
      as Hfin.
    fold started in Hfin. fold body in Hfin.
    split; [apply updateStatus_documents, Hdoc |].
    split; [exact Hfin |].
    intros db' [[riskScore summary] | err] Hrun.
    + pose proof Hrun as Hrun'.
      apply runDocumentPipeline_ok in Hrun'
        as (doc0 & ex & Hdoc0 & _ & _ & _ & _ & _ & _ & Hd).
      rewrite Hdoc in Hdoc0. injection Hdoc0 as <-.
      split.
      * split; [| exists (finalTypeOf ex); exact Hd].
        rewrite Hfin in Hrun. unfold finishRun in Hrun.
        destruct body as [db2 [r | e]];
          [exact Hrun
          | unfold catchBlock in Hrun; destruct (updateFailedFails env); discriminate Hrun].
      * intros _. exists (withCompleted doc riskScore summary (finalTypeOf ex)).
        rewrite Hd, lookup_insert_eq. simpl.
        split; [reflexivity |]. split; [discriminate | left; reflexivity].
    + pose proof (runDocumentPipeline_throw _ _ _ _ _ _ _ Hstart Hdoc Hrun) as Hd.
      fold started in Hd. fold body in Hd.
      destruct (updateFailedFails env) as [err' |] eqn:Hcatch.
      * destruct Hd as [-> Hd]. split; [| intros Hn; discriminate Hn].
        split; [| split; [reflexivity | exact Hd]].
        rewrite Hfin in Hrun. unfold finishRun in Hrun.
        destruct body as [db2 [r | e]]; [discriminate Hrun |].
        exists db2, e. reflexivity.
      * destruct Hd as [Hd Hbody]. split; [split; [exact Hbody | exact Hd] |].
        intros _. exists (withStatus doc failed).
        rewrite Hd, lookup_insert_eq. simpl.
        split; [reflexivity |]. split; [discriminate | right; reflexivity].
Qed.

Lemma pipeline_status_witness :
  runStarts (exampleEnv identityText) /\
  documents exampleDb !! 7 = Some exampleDocument /\
  documents (updateStatus 7 processing exampleDb)
  = <[ 7 := withStatus exampleDocument processing ]> (documents exampleDb).
Proof.
  assert (H0 : runStarts (exampleEnv identityText)) by (split; reflexivity).
  assert (H : documents exampleDb !! 7 = Some exampleDocument) by reflexivity.
  split; [exact H0 |]. split; [exact H |].
  exact (proj1 (proj2 (proj2 (proj2 (proj2 (pipeline_status (exampleEnv identityText) 7
                                               (lit "uploads/file.pdf") exampleDb))))
                  exampleDocument H0 H)).
Defined.

(** C7, the end of a run: when the file of the document cannot be read
    and the update of the [catch] block throws too, the run ends with the
    error of that update and the document is left with the status
    "processing". *)
Theorem pipeline_ends_processing :
  let outcome := runDocumentPipeline brokenEnv 7 (lit "uploads/file.pdf") exampleDb in
  runStarts brokenEnv /\
  documents exampleDb !! 7 = Some exampleDocument /\
  fst (pipelineBody brokenEnv 7 (lit "uploads/file.pdf") (isImageDoc exampleDocument)
         (mimeTypeOf exampleDocument) (updateStatus 7 processing exampleDb))
  = updateStatus 7 processing exampleDb /\
  snd (pipelineBody brokenEnv 7 (lit "uploads/file.pdf") (isImageDoc exampleDocument)
         (mimeTypeOf exampleDocument) (updateStatus 7 processing exampleDb))
  = Throw (lit "ENOENT: no such file or directory") /\
  snd outcome = Throw (lit "MongoNetworkError: connection closed") /\
  documents (fst outcome) !! 7 = Some (withStatus exampleDocument processing) /\
  (doc_status <$> documents (fst outcome) !! 7) = Some processing.
Proof.
  cbv zeta. split; [split; reflexivity |].
  split; [reflexivity |].
  split; [reflexivity |].
  split; [reflexivity |].
  split; [reflexivity |].
  split; reflexivity.
Qed.

(** ** Extraction fallback for PDFs *)

(** The extraction of the PDF branch, by parts. *)
Lemma extractPdf_parts (env : Env) (buffer : Buffer) (ex : Extraction) :
  extractPdf env buffer = Ok ex ->
  exists totalPages pageTexts,
    pdfExtractText env buffer = Ok (totalPages, pageTexts) /\
    let rawText := pdfRawText pageTexts in
    let ai := extractStructureFromPdf env rawText (pdfNumPages totalPages) in
    ex_rawText ex = rawText /\
    ex_extractedForDb ex =
      fallbackFields (es_extractedFields ai) (extractFieldsFromText rawText) /\
    ex_sections ex = orElse (es_sections ai) (extractSectionsFromText rawText) /\
    ex_tables ex =
      orElse (es_tables ai) (heuristicTablesOf (pdfPages totalPages pageTexts)).
Proof.
  unfold extractPdf. destruct (pdfExtractText env buffer) as [[totalPages pageTexts] | e];
    [| discriminate].
  intros [= <-]. exists totalPages, pageTexts. split; [reflexivity |].
  cbv zeta. cbn [ex_rawText ex_extractedForDb ex_sections ex_tables].
  set (ai := extractStructureFromPdf env (pdfRawText pageTexts) (pdfNumPages totalPages)).
  split; [reflexivity |]. split; [| split].
  - unfold fallbackFields. destruct (es_extractedFields ai) as [| a fields].
    + cbn [map]. rewrite map_map. reflexivity.
    + rewrite map_app, !map_map. reflexivity.
  - unfold orElse. destruct (es_sections ai); reflexivity.
  - unfold orElse. destruct (es_tables ai); reflexivity.
Qed.

(** The loop over the identity fields appends [appendedIdFields]. *)
Lemma addIdField_appended (fs : list HeuristicField) :
  forall (seen : gset string) (present : list jstring) (acc : list DbField),
    (forall s, key s ∈ seen <-> s ∈ present) ->
    snd (fold_left addIdField fs (seen, acc)) = acc ++ appendedIdFields present fs.
Proof.
  induction fs as [| f fs IH]; intros seen present acc Hseen; simpl.
  - rewrite app_nil_r. reflexivity.
  - destruct (bool_decide_reflect (key (toLowerCase (hf_fieldName f)) ∈ seen)) as [Hin | Hout].
    + rewrite bool_decide_eq_true_2 by (apply Hseen; exact Hin).
      apply IH. exact Hseen.
    + rewrite bool_decide_eq_false_2 by (intros Hp; apply Hout, Hseen; exact Hp).
      rewrite (IH _ (toLowerCase (hf_fieldName f) :: present)).
      * rewrite <- app_assoc. reflexivity.
      * intros s. rewrite elem_of_union, elem_of_singleton, elem_of_cons, Hseen.
        split; (intros [H | H]; [left | right; exact H]).
        -- apply key_inj, H.
        -- rewrite H. reflexivity.
Qed.

Lemma withIdFields_appended (rawText : jstring) (base : list DbField) :
  withIdFields rawText base
  = base ++ appendedIdFields (map (fun b => toLowerCase (fieldName b)) base)
                             (extractIdFieldsFromText rawText).
Proof.
  unfold withIdFields. apply addIdField_appended. intros s.
  rewrite elem_of_list_to_set, !list_elem_of_In, !in_map_iff. split.
  - intros (b & Hb & Hin). exists b. split; [apply key_inj; exact Hb | exact Hin].
  - intros (b & Hb & Hin). exists b. split; [rewrite Hb; reflexivity | exact Hin].
Qed.

(** What is appended: fields of the list, with names that were not there
    and differ from each other; and the name of every field of the list
    is there in the end. *)
Lemma appendedIdFields_spec (fs : list HeuristicField) :
  forall present : list jstring,
    let extra := appendedIdFields present fs in
    Forall (fun d => exists f, In f fs /\ d = heuristicToDb f /\
                               ~ In (toLowerCase (fieldName d)) present) extra /\
    NoDup (map (fun d => toLowerCase (fieldName d)) extra) /\
    (forall f, In f fs ->
       In (toLowerCase (hf_fieldName f))
          (present ++ map (fun d => toLowerCase (fieldName d)) extra)).
Proof.
  induction fs as [| f fs IH]; intros present; cbn zeta.
  - split; [constructor |]. split; [constructor |]. intros f [].
  - cbn [appendedIdFields].
    destruct (bool_decide_reflect (toLowerCase (hf_fieldName f) ∈ present)) as [Hin | Hout].
    + destruct (IH present) as (Hall & Hnd & Hcov).
      split; [| split; [exact Hnd |]].
      * eapply Forall_impl; [exact Hall |]. intros d (g & Hg & Hd & Hn).
        exists g. split; [right; exact Hg |]. split; assumption.
      * intros g [<- | Hg]; [| apply Hcov, Hg].
        apply in_or_app. left. apply list_elem_of_In, Hin.
    + destruct (IH (toLowerCase (hf_fieldName f) :: present)) as (Hall & Hnd & Hcov).
        split; [| split].
        * constructor.
          -- exists f. split; [left; reflexivity |]. split; [reflexivity |].
             intros Hn. apply Hout, list_elem_of_In, Hn.
          -- eapply Forall_impl; [exact Hall |]. intros d (g & Hg & Hd & Hn).
             exists g. split; [right; exact Hg |]. split; [exact Hd |].
             intros Hp. apply Hn. right. exact Hp.
        * cbn [map]. constructor; [| exact Hnd].
          intros Hdup. apply list_elem_of_In, in_map_iff in Hdup as (d & Hd & Hdin).
          rewrite Forall_forall in Hall.
          destruct (Hall d (proj2 (list_elem_of_In _ _) Hdin)) as (g & _ & _ & Hn).
          apply Hn. left. symmetry. exact Hd.
        * intros g [<- | Hg].
          -- apply in_or_app. right. left. reflexivity.
          -- specialize (Hcov g Hg). apply in_app_or in Hcov as [[Hc | Hc] | Hc].
             ++ apply in_or_app. right. left. exact Hc.
             ++ apply in_or_app. left. exact Hc.
             ++ apply in_or_app. right. right. exact Hc.
Qed.

(** C4, as it is stated, fails: for a PDF in which the AI finds no field
    the stored fields need not be the ones of [extractFieldsFromText]. *)
Lemma pdf_fields_not_only_regex :
  ~ (forall (env : Env) (documentId : ObjectId) (filePath : jstring) (db db' : DB)
            (r : Z * jstring) (doc : Document) (st : DocumentStructure)
            (buffer : Buffer) (totalPages : nat) (pageTexts : PageTexts),
       documents db !! documentId = Some doc -> isImageDoc doc = false ->
       runDocumentPipeline env documentId filePath db = (db', Ok r) ->
       structures db' !! documentId = Some st ->
       readFile env filePath = Ok buffer ->
       pdfExtractText env buffer = Ok (totalPages, pageTexts) ->
       es_extractedFields
         (extractStructureFromPdf env (pdfRawText pageTexts) (pdfNumPages totalPages)) = [] ->
       ds_extractedFields st =
         map heuristicToDb (extractFieldsFromText (pdfRawText pageTexts))).
Proof.
  intros H.
  pose (res := runDocumentPipeline (exampleEnv identityText) 7 (lit "uploads/file.pdf")
                 exampleDb).
  assert (E : exists r st,
             res = (fst res, Ok r) /\ structures (fst res) !! 7 = Some st /\
             ds_extractedFields st <> []).
  { vm_compute. eexists. eexists. split; [reflexivity |]. split; [reflexivity |]. discriminate. }
  destruct E as (r & st & Hres & Hst & Hne).
  specialize (H (exampleEnv identityText) 7 (lit "uploads/file.pdf") exampleDb (fst res) r
                exampleDocument st (lit "%PDF-1.7") 1 (PageArray [identityText])
                eq_refl eq_refl Hres Hst eq_refl eq_refl eq_refl).
  apply Hne. rewrite H. vm_compute. reflexivity.
Qed.

(** C4, amended. After a successful run on a PDF the stored structure
    holds: as fields, the heuristic fields of [extractFieldsFromText]
    when the AI gave no field, and otherwise the AI fields followed by
    the heuristic fields whose name does not occur, ignoring case, among
    the AI fields; after these, exactly when the heuristic document type
    is "identity_document", the fields of [extractIdFieldsFromText] whose
    name, ignoring case, is not there yet, in their order and each name
    once, so that the name of every identity field is among the stored
    ones; as sections, the AI sections when there are some and otherwise
    those of [extractSectionsFromText]; as tables, the AI tables when
    there are some and otherwise the heuristic tables of the pages. *)
Theorem pdf_extraction_fallback (env : Env) (documentId : ObjectId) (filePath : jstring)
  (db db' : DB) (r : Z * jstring) (doc : Document) :
  documents db !! documentId = Some doc ->
  isImageDoc doc = false ->
  runDocumentPipeline env documentId filePath db = (db', Ok r) ->
  exists buffer totalPages pageTexts st,
    readFile env filePath = Ok buffer /\
    pdfExtractText env buffer = Ok (totalPages, pageTexts) /\
    structures db' !! documentId = Some st /\
    let rawText := pdfRawText pageTexts in
    let ai := extractStructureFromPdf env rawText (pdfNumPages totalPages) in
    let base := fallbackFields (es_extractedFields ai) (extractFieldsFromText rawText) in
    let names := map (fun b => toLowerCase (fieldName b)) in
    let extra :=
      match detectDocumentType rawText with
      | identity_document => appendedIdFields (names base) (extractIdFieldsFromText rawText)
      | _ => []
      end in
    ds_extractedFields st = base ++ extra /\
    Forall (fun d =>
              exists f, In f (extractIdFieldsFromText rawText) /\ d = heuristicToDb f /\
                        ~ In (toLowerCase (fieldName d)) (names base))
           extra /\
    NoDup (names extra) /\
    (detectDocumentType rawText = identity_document ->
     forall f, In f (extractIdFieldsFromText rawText) ->
       In (toLowerCase (hf_fieldName f)) (names (ds_extractedFields st))) /\
    ds_sections st = orElse (es_sections ai) (extractSectionsFromText rawText) /\
    ds_tables st = orElse (es_tables ai) (heuristicTablesOf (pdfPages totalPages pageTexts)).
Proof.
  intros Hdoc Hpdf Hrun. destruct r as [riskScore summary].
  apply runDocumentPipeline_ok in Hrun
    as (doc0 & ex & Hdoc0 & Hex & Hs & _).
  rewrite Hdoc in Hdoc0. injection Hdoc0 as <-.
  unfold extractionOf in Hex. rewrite Hpdf in Hex.
  destruct (readFile env filePath) as [buffer | e] eqn:Hread; [| discriminate Hex].
  apply extractPdf_parts in Hex as (totalPages & pageTexts & Hp & Hraw & Hf & Hsec & Htab).
  exists buffer, totalPages, pageTexts, (structureOf ex).
  split; [reflexivity |]. split; [exact Hp |]. split; [exact Hs |].
  cbv zeta. cbn [structureOf ds_extractedFields ds_sections ds_tables].
  set (rawText := pdfRawText pageTexts) in *.
  set (base := fallbackFields _ _) in *.
  set (names := map (fun b : DbField => toLowerCase (fieldName b))).
  pose proof (appendedIdFields_spec (extractIdFieldsFromText rawText) (names base))
    as (Hall & Hnd & Hcov).
  assert (Hstored : storedFieldsOf ex
                    = base ++ match detectDocumentType rawText with
                              | identity_document =>
                                  appendedIdFields (names base)
                                    (extractIdFieldsFromText rawText)
                              | _ => []
                              end).
  { unfold storedFieldsOf. rewrite Hraw, Hf.
    destruct (detectDocumentType rawText); try (rewrite app_nil_r; reflexivity).
    apply withIdFields_appended. }
  split; [exact Hstored |].
  split; [destruct (detectDocumentType rawText); try constructor; exact Hall |].
  split; [destruct (detectDocumentType rawText); try constructor; exact Hnd |].
  split; [| split; [exact Hsec | exact Htab]].
  intros Hid f Hfin. rewrite Hstored, Hid. unfold names. rewrite map_app.
  apply Hcov, Hfin.
Qed.

Lemma pdf_extraction_fallback_witness :
  documents exampleDb !! 7 = Some exampleDocument /\
  isImageDoc exampleDocument = false /\
  (exists db' r,
     runDocumentPipeline (exampleEnv identityText) 7 (lit "uploads/file.pdf") exampleDb
       = (db', Ok r) /\
     exists st, structures db' !! 7 = Some st /\
                map fieldName (ds_extractedFields st)
                = [lit "Name"; lit "Date of Birth"; lit "License Number"] /\
                ds_sections st = extractSectionsFromText identityText).
Proof.
  assert (H1 : documents exampleDb !! 7 = Some exampleDocument) by reflexivity.
  assert (H2 : isImageDoc exampleDocument = false) by (vm_compute; reflexivity).
  split; [exact H1 |]. split; [exact H2 |].
  assert (E : exists r,
             runDocumentPipeline (exampleEnv identityText) 7 (lit "uploads/file.pdf") exampleDb
             = (fst (runDocumentPipeline (exampleEnv identityText) 7
                       (lit "uploads/file.pdf") exampleDb), Ok r)).
  { vm_compute. eexists. reflexivity. }
  destruct E as (r & Hrun).
  eexists. exists r. split; [exact Hrun |].
  destruct (pdf_extraction_fallback _ _ _ _ _ _ _ H1 H2 Hrun)
    as (buffer & totalPages & pageTexts & st & Hread & Hp & Hst & Hfields & _ & _ & _ & Hsec & _).
  exists st. split; [exact Hst |].
  injection Hp as <- <-. split; [| exact Hsec].
  rewrite Hfields. vm_compute. reflexivity.
Defined.

(** ** Flags against the schema *)

(** C8 fails on a contract with an unlimited liability clause: the rule
    loop for payment risks pushes a flag of severity "critical", which is
    not in the [enum] of the schema; the flag reaches
    [RiskFlagModel.insertMany], the validation rejects it, and the run
    ends with the status "failed" and no flag stored. The semantic path
    does what the rule loop misses: it stores "critical" as "high". *)
Theorem critical_flag_rejected :
  let flags := uniqueRiskFlags
                 (pipelineRiskFlags (exampleEnv contractText) 7 contractText (lit "contract")) in
  let outcome := runDocumentPipeline (exampleEnv contractText) 7 (lit "uploads/file.pdf")
                   exampleDb in
  detectDocumentType contractText = contract /\
  (exists f, In f flags /\
             riskType f = lit "payment_risk" /\
             clauseReference f = lit "Unlimited financial exposure" /\
             severity f = lit "critical" /\
             ~ In (severity f) severityEnum /\
             riskFlagValid f = false) /\
  snd outcome = Throw (lit "RiskFlag validation failed") /\
  (doc_status <$> documents (fst outcome) !! 7) = Some failed /\
  riskFlags (fst outcome) = [] /\
  map severity
    (semanticFlags 7
       (Some (mkSemanticRisk (lit "liability") (lit "critical")
                (lit "The liability of the vendor is not capped.") None None (7 # 10))))
  = [lit "high"].
Proof.
  cbv zeta. split; [vm_compute; reflexivity |]. split.
  - eexists (ruleFlag 7 (lit "Unlimited financial exposure") (lit "payment_risk")
               (lit "critical")
               (lit "Critical financial exposure: Unlimited financial exposure. This could result in unlimited liability.")).
    split; [vm_compute; tauto |].
    repeat split; try reflexivity.
    vm_compute. intros [H | [H | [H | []]]]; discriminate H.
  - vm_compute. repeat split; reflexivity.
Qed.



(** * Further properties of the code *)

(** ** Decimal numerals *)

Lemma to_uint_not_Nil (n : nat) : Nat.to_uint n <> Decimal.Nil.
Proof.
  intros H. pose proof (DecimalNat.Unsigned.of_to n) as E. rewrite H in E.
  simpl in E. subst n. discriminate H.
Qed.

Lemma lit_inj (s t : string) : lit s = lit t -> s = t.
Proof.
  unfold lit. intros H. apply (f_equal string_of_list_ascii) in H.
  rewrite !string_of_list_ascii_of_string in H. exact H.
Qed.

Lemma showNat_inj (m n : nat) : showNat m = showNat n -> m = n.
Proof.
  unfold showNat. intros H. apply lit_inj in H.
  apply (f_equal NilZero.uint_of_string) in H.
  rewrite !NilZero.usu in H by apply to_uint_not_Nil.
  injection H as H. apply DecimalNat.Unsigned.to_uint_inj, H.
Qed.

Lemma string_of_uint_digits (d : Decimal.uint) :
  Forall (fun c => isDigit c = true) (lit (NilEmpty.string_of_uint d)).
Proof.
  induction d; simpl; constructor; (reflexivity || assumption).
Qed.

Lemma showNat_digits (n : nat) : Forall (fun c => isDigit c = true) (showNat n).
Proof.
  unfold showNat, NilZero.string_of_uint.
  destruct (Nat.to_uint n) eqn:E; try (rewrite <- E; apply string_of_uint_digits).
  repeat constructor.
Qed.

Lemma showNat_not_nil (n : nat) : showNat n <> [].
Proof.
  unfold showNat, NilZero.string_of_uint.
  destruct (Nat.to_uint n) eqn:E; simpl; try discriminate.
Qed.

Lemma idToString_inj (i j : ObjectId) : idToString i = idToString j -> i = j.
Proof. apply showNat_inj. Qed.

(** ** Lists *)

Lemma filter_none {A} (f : A -> bool) (l : list A) :
  Forall (fun x => f x = false) l -> List.filter f l = [].
Proof.
  induction 1 as [| x l Hx _ IH]; simpl; [reflexivity |]. rewrite Hx. exact IH.
Qed.

Lemma forallb_exists_false {A} (f : A -> bool) (l : list A) :
  forallb f l <> true -> exists x, In x l /\ f x = false.
Proof.
  induction l as [| x l IH]; simpl; [congruence |].
  destruct (f x) eqn:E; simpl.
  - intros H. destruct (IH H) as (y & Hy & Hf). exists y. split; [right |]; assumption.
  - intros _. exists x. split; [left; reflexivity | exact E].
Qed.

Lemma filter_filter_other {A} (idOf : A -> nat) (i j : nat) (l : list A) :
  j <> i ->
  List.filter (fun x => idOf x =? j) (List.filter (fun x => negb (idOf x =? i)) l)
  = List.filter (fun x => idOf x =? j) l.
Proof.
  intros Hne. induction l as [| x l IH]; simpl; [reflexivity |].
  destruct (idOf x =? i) eqn:Ei; simpl.
  - apply Nat.eqb_eq in Ei. rewrite (proj2 (Nat.eqb_neq (idOf x) j)) by lia. exact IH.
  - destruct (idOf x =? j); [f_equal |]; exact IH.
Qed.

Lemma filter_not_self {A} (f : A -> bool) (l : list A) :
  List.filter f (List.filter (fun x => negb (f x)) l) = [].
Proof.
  induction l as [| x l IH]; simpl; [reflexivity |].
  destruct (f x) eqn:E; simpl; [exact IH |]. rewrite E. exact IH.
Qed.

Lemma more_patterns_parse : forallb parses morePatterns = true.
Proof. vm_compute. reflexivity. Qed.

(** ** Steps of the pipeline, again *)

Lemma keeps_lift {X} (proj : DB -> X) {A} (r : Result A) : keeps proj (lift r).
Proof. intros db db' r' [= <- _]. reflexivity. Qed.

Lemma keeps_modify {X} (proj : DB -> X) (f : DB -> DB) :
  (forall db, proj (f db) = proj db) -> keeps proj (modify f).
Proof. intros Hf db db' r [= <- _]. apply Hf. Qed.

Lemma keeps_throw {X} (proj : DB -> X) {A} (e : jstring) : keeps proj (@throw A e).
Proof. intros db db' r [= <- _]. reflexivity. Qed.

(** Filters by document. *)
Lemma keeps_addsEmbeddings (documentId : ObjectId) {A} (m : Step A) :
  keeps embeddings m -> addsEmbeddings documentId m.
Proof.
  intros Hk db db' r H. exists []. rewrite app_nil_r. split; [| constructor].
  exact (Hk _ _ _ H).
Qed.

Lemma addsEmbeddings_bind (documentId : ObjectId) {A B} (m : Step A) (k : A -> Step B) :
  addsEmbeddings documentId m -> (forall a, addsEmbeddings documentId (k a)) ->
  addsEmbeddings documentId (m ≫= k).
Proof.
  intros Hm Hk db db' r H.
  apply bind_inv in H as [(db1 & a & H1 & H2) | (e & H1 & _)].
  - destruct (Hm _ _ _ H1) as (l1 & E1 & F1). destruct (Hk a _ _ _ H2) as (l2 & E2 & F2).
    exists (l1 ++ l2). rewrite E2, E1, app_assoc. split; [reflexivity |].
    apply Forall_app; split; assumption.
  - exact (Hm _ _ _ H1).
Qed.

Lemma trim_truthy (s : jstring) : truthy (trim s) = true -> trim s <> [].
Proof. intros H. apply truthy_true. exact H. Qed.

Lemma storedBy_embeddingOfChunk (documentId : ObjectId) (i : nat) (c : EmbeddingChunk) :
  truthy (trim (ec_text c)) = true -> storedBy documentId (embeddingOfChunk documentId i c).
Proof.
  intros H. unfold storedBy, embeddingOfChunk; simpl. repeat split.
  - apply length_localEmbed.
  - apply truthy_true, H.
  - apply trim_idem.
Qed.

Lemma addsEmbeddings_storeEmbeddings (env : Env) (documentId : ObjectId)
  (chunks : list EmbeddingChunk) :
  forall i, addsEmbeddings documentId (storeEmbeddings env documentId i chunks).
Proof.
  induction chunks as [| c chunks IH]; intros i; simpl.
  - apply keeps_addsEmbeddings, keeps_ret.
  - destruct (truthy (trim (ec_text c))) eqn:Et; simpl; [| apply IH].
    apply addsEmbeddings_bind; [| intros _; apply IH].
    destruct (0 <? length _); [| apply keeps_addsEmbeddings, keeps_ret].
    intros db db' r. unfold orFail, throw, modify.
    destruct (createEmbeddingFails env i); intros [= <- _].
    + exists []. rewrite app_nil_r. split; [reflexivity | constructor].
    + simpl. eexists. split; [reflexivity |]. constructor; [| constructor].
      apply (storedBy_embeddingOfChunk documentId i c Et).
Qed.

(** A run that stored its embeddings does so from any database. *)
Lemma storeEmbeddings_replay (env : Env) (documentId : ObjectId)
  (chunks : list EmbeddingChunk) :
  Forall (fun c => truthy (trim (ec_text c)) = true) chunks ->
  forall (i : nat) (db db' : DB),
    storeEmbeddings env documentId i chunks db = (db', Ok tt) ->
    forall db0,
      storeEmbeddings env documentId i chunks db0 =
      (setEmbeddings db0
         (embeddings db0 ++ imap (fun k => embeddingOfChunk documentId (i + k)) chunks),
       Ok tt).
Proof.
  induction 1 as [| c chunks Hc _ IH]; intros i db db' H db0; simpl in *.
  - rewrite app_nil_r. destruct db0; reflexivity.
  - rewrite Hc in *. simpl in *.
    assert (Hlen : (0 <? length (embedText (trim (ec_text c)))) = true).
    { unfold embedText. rewrite length_localEmbed. reflexivity. }
    rewrite Hlen in *.
    apply bind_inv in H as [(db1 & [] & H1 & H2) | (e & _ & [=])].
    unfold orFail, throw, modify in H1 |- *.
    destruct (createEmbeddingFails env i); [discriminate H1 |].
    unfold mbind, step_bind, bind. 
    rewrite (IH (S i) _ _ H2). simpl. rewrite Nat.add_0_r, <- app_assoc. simpl.
    assert (E : imap (fun k => embeddingOfChunk documentId (S (i + k))) chunks =
                imap ((fun k => embeddingOfChunk documentId (i + k)) ∘ S) chunks).
    { apply imap_ext. intros k x _. simpl. f_equal. lia. }
    rewrite E. destruct db0; reflexivity.
Qed.

Lemma validChunks_truthy (ex : Extraction) :
  Forall (fun c => truthy (trim (ec_text c)) = true) (validChunks ex).
Proof.
  unfold validChunks. apply Forall_forall. intros c Hc.
  apply list_elem_of_In, filter_In in Hc as [_ Hc].
  destruct (trim (ec_text c)); [discriminate Hc | reflexivity].
Qed.

(** The [try] block does not look at the database: when it returns from
    one database, it returns the same value from any other, and the
    database it leaves is [completedDb]. *)
Lemma pipelineBody_replay (env : Env) (documentId : ObjectId) (filePath : jstring)
  (isImage : bool) (mimeType : jstring) (db db' : DB) (r : Z * jstring) :
  pipelineBody env documentId filePath isImage mimeType db = (db', Ok r) ->
  exists ex,
    extractionOf env filePath isImage mimeType = Ok ex /\
    forall db0,
      pipelineBody env documentId filePath isImage mimeType db0
      = (completedDb env documentId ex db0, Ok r).
Proof.
  unfold pipelineBody. intros H.
  apply bind_inv in H as [(db1 & buffer & H1 & H) | (e & _ & [=])].
  unfold lift in H1. injection H1 as <- Hread.
  apply bind_inv in H as [(db1 & ex & H1 & H) | (e & _ & [=])].
  unfold lift in H1. injection H1 as <- Hex.
  exists ex. split; [unfold extractionOf; rewrite Hread; exact Hex |].
  cbv zeta in H.
  change (match detectDocumentType (ex_rawText ex) with
          | identity_document => withIdFields (ex_rawText ex) (ex_extractedForDb ex)
          | _ => ex_extractedForDb ex
          end) with (storedFieldsOf ex) in H.
  change (finalDocTypeOf (ex_documentType ex) (detectDocumentType (ex_rawText ex)))
    with (finalTypeOf ex) in H.
  change (uniqueRiskFlags (pipelineRiskFlags env documentId (ex_rawText ex) (finalTypeOf ex)))
    with (uniqueFlagsOf env documentId ex) in H.
  change (mkDocumentStructure (ex_pages ex) (ex_sections ex) (ex_tables ex)
            (ex_clauses ex) (ex_signatures ex) (ex_relationships ex)
            (ex_crossReferences ex) (storedFieldsOf ex) (finalTypeOf ex))
    with (structureOf ex) in H.
  apply bind_inv in H as [(db1 & [] & H1 & H) | (e & _ & [=])].
  unfold orFail, throw, modify in H1.
  destruct (saveStructureFails env) eqn:Esave; [discriminate H1 |]. injection H1 as <-.
  apply bind_inv in H as [(db2 & [] & H1 & H) | (e & _ & [=])].
  unfold modify in H1. injection H1 as <-.
  apply bind_inv in H as [(db3 & [] & H1 & H) | (e & _ & [=])].
  pose proof (storeEmbeddings_replay env documentId (validChunks ex)
                (validChunks_truthy ex) 0 _ _ H1) as Hstore. clear H1.
  apply bind_inv in H as [(db4 & [] & H1 & H) | (e & _ & [=])].
  unfold deleteRiskFlags, orFail, throw, modify in H1.
  destruct (deleteRiskFlagsFails env) eqn:Edel; [discriminate H1 |]. injection H1 as <-.
  apply bind_inv in H as [(db4 & [] & H1 & H) | (e & _ & [=])].
  unfold lift in H1. injection H1 as <- Hiter.
  apply bind_inv in H as [(db5 & [] & H1 & H) | (e & _ & [=])].
  assert (Hins : forall dbx,
            match uniqueFlagsOf env documentId ex with
            | [] => ret ()
            | _ :: _ => insertRiskFlags env (uniqueFlagsOf env documentId ex)
            end dbx
            = (setRiskFlags dbx (riskFlags dbx ++ uniqueFlagsOf env documentId ex), Ok tt)).
  { intros dbx. destruct (uniqueFlagsOf env documentId ex) as [| f fs] eqn:Eu.
    - rewrite app_nil_r. destruct dbx; reflexivity.
    - unfold insertRiskFlags, orFail, throw, modify in H1 |- *.
      destruct (forallb riskFlagValid (f :: fs)); [| discriminate H1].
      destruct (insertRiskFlagsFails env); [discriminate H1 |]. reflexivity. }
  clear H1.
  apply bind_inv in H as [(db6 & [] & H1 & H) | (e & _ & [=])].
  unfold orFail, throw in H1.
  destruct (updateCompletedFails env) eqn:Ecomp; [discriminate H1 |]. clear H1.
  injection H as _ <-.
  intros db0. unfold mbind, step_bind, bind, lift. rewrite Hread, Hex. cbv zeta.
  change (match detectDocumentType (ex_rawText ex) with
          | identity_document => withIdFields (ex_rawText ex) (ex_extractedForDb ex)
          | _ => ex_extractedForDb ex
          end) with (storedFieldsOf ex).
  change (finalDocTypeOf (ex_documentType ex) (detectDocumentType (ex_rawText ex)))
    with (finalTypeOf ex).
  change (uniqueRiskFlags (pipelineRiskFlags env documentId (ex_rawText ex) (finalTypeOf ex)))
    with (uniqueFlagsOf env documentId ex).
  change (mkDocumentStructure (ex_pages ex) (ex_sections ex) (ex_tables ex)
            (ex_clauses ex) (ex_signatures ex) (ex_relationships ex)
            (ex_crossReferences ex) (storedFieldsOf ex) (finalTypeOf ex))
    with (structureOf ex).
  unfold orFail. unfold modify at 1 2.
  rewrite Hstore.
  unfold deleteRiskFlags, orFail. rewrite Edel. unfold modify at 1.
  rewrite Hiter. rewrite Hins. unfold modify, ret. unfold completedDb, embeddingsOf. simpl.
  reflexivity.
Qed.

Lemma completedDb_parts (env : Env) (documentId : ObjectId) (ex : Extraction) (db : DB) :
  documents (completedDb env documentId ex db) =
    alter (fun d => withCompleted d
                      (computeRiskScore (finalTypeOf ex) (uniqueFlagsOf env documentId ex))
                      (finalSummaryOf (finalTypeOf ex) ex (storedFieldsOf ex))
                      (finalTypeOf ex))
          documentId (documents db) /\
  structures (completedDb env documentId ex db) =
    <[ documentId := structureOf ex ]> (structures db) /\
  embeddings (completedDb env documentId ex db) =
    embeddings db ++ embeddingsOf documentId (validChunks ex) /\
  riskFlags (completedDb env documentId ex db) =
    List.filter (fun f => negb (rf_documentId f =? documentId)) (riskFlags db)
    ++ uniqueFlagsOf env documentId ex /\
  chromaChunks (completedDb env documentId ex db) =
    chromaChunks (storeInChroma env documentId (validChunks ex) db).
Proof.
  unfold completedDb, updateCompleted, storeInChroma.
  destruct (chromaEnabled env && chromaCollection env); simpl; repeat split; reflexivity.
Qed.

Lemma addsEmbeddings_pipelineBody (env : Env) (documentId : ObjectId) (filePath : jstring)
  (isImage : bool) (mimeType : jstring) :
  addsEmbeddings documentId (pipelineBody env documentId filePath isImage mimeType).
Proof.
  unfold pipelineBody.
  apply addsEmbeddings_bind; [apply keeps_addsEmbeddings, keeps_lift | intros buffer].
  apply addsEmbeddings_bind; [apply keeps_addsEmbeddings, keeps_lift | intros ex].
  cbv zeta.
  apply addsEmbeddings_bind;
    [apply keeps_addsEmbeddings, keeps_orFail; reflexivity | intros _].
  apply addsEmbeddings_bind.
  { apply keeps_addsEmbeddings, keeps_modify. intros db. unfold storeInChroma.
    destruct (chromaEnabled env && chromaCollection env); reflexivity. }
  intros _. apply addsEmbeddings_bind; [apply addsEmbeddings_storeEmbeddings | intros _].
  apply addsEmbeddings_bind;
    [apply keeps_addsEmbeddings, keeps_orFail; reflexivity | intros _].
  apply addsEmbeddings_bind; [apply keeps_addsEmbeddings, keeps_lift | intros _].
  apply addsEmbeddings_bind.
  { apply keeps_addsEmbeddings.
    destruct (uniqueRiskFlags _); [apply keeps_ret |].
    unfold insertRiskFlags. destruct (forallb riskFlagValid _);
      [apply keeps_orFail; reflexivity | apply keeps_throw]. }
  intros _. apply addsEmbeddings_bind;
    [apply keeps_addsEmbeddings, keeps_orFail; reflexivity | intros _].
  apply keeps_addsEmbeddings, keeps_ret.
Qed.

Lemma addsEmbeddings_runDocumentPipeline (env : Env) (documentId : ObjectId)
  (filePath : jstring) :
  addsEmbeddings documentId (runDocumentPipeline env documentId filePath).
Proof.
  intros db db' r Hrun.
  destruct (runDocumentPipeline_cases _ _ _ _ _ _ Hrun)
    as [[-> _] | (doc & Hstart & Hdoc)].
  { exists []; rewrite app_nil_r; split; [reflexivity | constructor]. }
  rewrite (runDocumentPipeline_finish _ _ _ _ doc Hstart Hdoc) in Hrun.
  destruct (pipelineBody _ _ _ _ _ _) as [db2 r2] eqn:Hbody.
  destruct (addsEmbeddings_pipelineBody _ _ _ _ _ _ _ _ Hbody) as (added & E & F).
  exists added. split; [| exact F].
  apply finishRun_state in Hrun as [[-> | ->] _]; exact E.
Qed.

(** X1. Embeddings are only ever added. Whatever the outcome of a run, the
    embeddings stored before it are still there, followed by the ones the
    run added; each added one belongs to the document, has a vector of 64
    entries and a non-empty trimmed text. A run that returns has added
    one embedding for each valid chunk, numbered in order: embeddings that
    an earlier run stored for the same document are not removed. *)
Theorem pipeline_appends_embeddings (env : Env) (documentId : ObjectId)
  (filePath : jstring) (db db' : DB) (r : Result (Z * jstring)) :
  runDocumentPipeline env documentId filePath db = (db', r) ->
  (exists added,
     embeddings db' = embeddings db ++ added /\
     Forall (storedBy documentId) added) /\
  (forall result, r = Ok result ->
     exists doc ex,
       documents db !! documentId = Some doc /\
       extractionOf env filePath (isImageDoc doc) (mimeTypeOf doc) = Ok ex /\
       embeddings db' = embeddings db ++ embeddingsOf documentId (validChunks ex)).
Proof.
  intros Hrun. split; [exact (addsEmbeddings_runDocumentPipeline _ _ _ _ _ _ Hrun) |].
  destruct (runDocumentPipeline_cases _ _ _ _ _ _ Hrun)
    as [[-> [e ->]] | (doc & Hstart & Hdoc)].
  { intros result [=]. }
  rewrite (runDocumentPipeline_finish _ _ _ _ doc Hstart Hdoc) in Hrun.
  destruct (pipelineBody _ _ _ _ _ _) as [db2 r2] eqn:Hbody.
  - intros result ->.
    destruct (proj2 (finishRun_state _ _ _ _ _ _ Hrun) result eq_refl) as [-> ->].
    pose proof Hbody as Hb. apply pipelineBody_replay in Hbody as (ex & Hex & Hall).
    exists doc, ex. split; [exact Hdoc |]. split; [exact Hex |].
    rewrite Hall in Hb. injection Hb as <-.
    destruct (completedDb_parts env documentId ex (updateStatus documentId processing db))
      as (_ & _ & E & _).
    exact E.
Qed.

Lemma pipeline_appends_embeddings_witness :
  runDocumentPipeline (exampleEnv plainText) 7 (lit "uploads/file.pdf") exampleDb
  = (fst (runDocumentPipeline (exampleEnv plainText) 7 (lit "uploads/file.pdf") exampleDb),
     Ok (60%Z, lit "API key not set.")) /\
  exists added,
    embeddings (fst (runDocumentPipeline (exampleEnv plainText) 7 (lit "uploads/file.pdf")
                       exampleDb))
    = embeddings exampleDb ++ added /\
    Forall (storedBy 7) added.
Proof.
  assert (Hrun : runDocumentPipeline (exampleEnv plainText) 7 (lit "uploads/file.pdf")
                   exampleDb
                 = (fst (runDocumentPipeline (exampleEnv plainText) 7
                           (lit "uploads/file.pdf") exampleDb),
                    Ok (60%Z, lit "API key not set."))) by (vm_compute; reflexivity).
  split; [exact Hrun |].
  exact (proj1 (pipeline_appends_embeddings _ _ _ _ _ _ Hrun)).
Defined.

(** ** The data of the other documents *)

Lemma keeps_pipelineBody_others (env : Env) (documentId : ObjectId) (filePath : jstring)
  (isImage : bool) (mimeType : jstring) (j : ObjectId) :
  j <> documentId ->
  keeps (fun db => (documents db !! j, structures db !! j, flagsOfDocument j db,
                    chromaChunksOfDocument j db))
        (pipelineBody env documentId filePath isImage mimeType).
Proof.
  intros Hne. unfold pipelineBody.
  apply keeps_bind; [apply keeps_lift | intros buffer].
  apply keeps_bind; [apply keeps_lift | intros ex]. cbv zeta.
  apply keeps_bind.
  { apply keeps_orFail. intros db. simpl. rewrite lookup_insert_ne by congruence.
    reflexivity. }
  intros _. apply keeps_bind.
  { apply keeps_modify. intros db. unfold storeInChroma.
    destruct (chromaEnabled env && chromaCollection env); [| reflexivity].
    unfold chromaChunksOfDocument, flagsOfDocument. simpl. f_equal.
    assert (E1 : forall l,
               List.filter (fun c => bool_decide (dc_documentId c = idToString j))
                 (List.filter
                    (fun c => negb (bool_decide (dc_documentId c = idToString documentId))) l)
               = List.filter (fun c => bool_decide (dc_documentId c = idToString j)) l).
    { induction l as [| c l IH]; simpl; [reflexivity |].
      destruct (bool_decide (dc_documentId c = idToString documentId)) eqn:Ei; simpl.
      - apply bool_decide_eq_true in Ei.
        rewrite bool_decide_eq_false_2; [exact IH |].
        rewrite Ei. intros E. apply idToString_inj in E. congruence.
      - destruct (bool_decide (dc_documentId c = idToString j)); [f_equal |]; exact IH. }
    destruct (chromaDeleteFails env), (chromaAddFails env || (length (validChunks ex) =? 0));
      rewrite ?List.filter_app, ?E1; try reflexivity.
    all: rewrite (filter_none _ (mapi _ _)); [apply app_nil_r |].
    all: apply Forall_forall; intros c Hc; unfold mapi in Hc;
      apply list_elem_of_lookup in Hc as (k & Hk);
      apply list_lookup_imap_Some in Hk as (x & _ & ->); simpl;
      apply bool_decide_eq_false_2; intros E; apply idToString_inj in E; congruence. }
  intros _. apply keeps_bind.
  { intros db db' r H.
    pose proof (keeps_storeEmbeddings
                  (fun db => (documents db !! j, structures db !! j, flagsOfDocument j db,
                              chromaChunksOfDocument j db))
                  env documentId (validChunks ex) (fun _ _ => eq_refl) 0 _ _ _ H) as E.
    exact E. }
  intros _. apply keeps_bind.
  { apply keeps_orFail. intros db. unfold flagsOfDocument, chromaChunksOfDocument. simpl.
    f_equal. f_equal. apply filter_filter_other. exact Hne. }
  intros _. apply keeps_bind; [apply keeps_lift | intros _].
  apply keeps_bind.
  { assert (Hu : Forall (fun f => rf_documentId f = documentId)
                   (uniqueRiskFlags
                      (pipelineRiskFlags env documentId (ex_rawText ex)
                         (finalDocTypeOf (ex_documentType ex)
                            (detectDocumentType (ex_rawText ex)))))).
    { apply (uniqueFlagsOf_documentId env documentId ex). }
    destruct (uniqueRiskFlags _) as [| f fs] eqn:Eu; [apply keeps_ret |].
    unfold insertRiskFlags. destruct (forallb riskFlagValid _); [| apply keeps_throw].
    apply keeps_orFail. intros db. unfold flagsOfDocument, chromaChunksOfDocument. simpl.
    f_equal. f_equal. rewrite List.filter_app.
    rewrite (filter_none _ (f :: fs)); [apply app_nil_r |].
    eapply Forall_impl; [exact Hu |]. intros g Hg. simpl in Hg.
    apply Nat.eqb_neq. congruence. }
  intros _. apply keeps_bind; [| intros _; apply keeps_ret].
  apply keeps_orFail. intros db. unfold updateCompleted, flagsOfDocument,
    chromaChunksOfDocument. simpl. rewrite lookup_alter_ne by congruence. reflexivity.
Qed.

Lemma updateStatus_others (documentId j : ObjectId) (s : DocumentStatus) (db : DB) :
  j <> documentId ->
  (documents (updateStatus documentId s db) !! j,
   structures (updateStatus documentId s db) !! j,
   flagsOfDocument j (updateStatus documentId s db),
   chromaChunksOfDocument j (updateStatus documentId s db))
  = (documents db !! j, structures db !! j, flagsOfDocument j db,
     chromaChunksOfDocument j db).
Proof.
  intros Hne. unfold updateStatus, flagsOfDocument, chromaChunksOfDocument. simpl.
  rewrite lookup_alter_ne by congruence. reflexivity.
Qed.

(** What a run leaves as it is: the data of the other documents. *)
Lemma runDocumentPipeline_others (env : Env) (documentId : ObjectId) (filePath : jstring)
  (db db' : DB) (r : Result (Z * jstring)) (j : ObjectId) :
  j <> documentId ->
  runDocumentPipeline env documentId filePath db = (db', r) ->
  documents db' !! j = documents db !! j /\
  structures db' !! j = structures db !! j /\
  flagsOfDocument j db' = flagsOfDocument j db /\
  embeddingsOfDocument j db' = embeddingsOfDocument j db /\
  chromaChunksOfDocument j db' = chromaChunksOfDocument j db.
Proof.
  intros Hne Hrun.
  assert (Hemb : embeddingsOfDocument j db' = embeddingsOfDocument j db).
  { destruct (addsEmbeddings_runDocumentPipeline env documentId filePath db db' r Hrun)
      as (added & E & F).
    unfold embeddingsOfDocument. rewrite E, List.filter_app.
    rewrite (filter_none _ added); [apply app_nil_r |].
    eapply Forall_impl; [exact F |]. intros e (He & _). apply Nat.eqb_neq. congruence. }
  assert (Hview : (documents db' !! j, structures db' !! j, flagsOfDocument j db',
                   chromaChunksOfDocument j db')
                  = (documents db !! j, structures db !! j, flagsOfDocument j db,
                     chromaChunksOfDocument j db)).
  { destruct (runDocumentPipeline_cases _ _ _ _ _ _ Hrun)
      as [[-> _] | (doc & Hstart & Hdoc)]; [reflexivity |].
    rewrite (runDocumentPipeline_finish _ _ _ _ doc Hstart Hdoc) in Hrun.
    destruct (pipelineBody _ _ _ _ _ _) as [db2 r2] eqn:Hbody.
    pose proof (keeps_pipelineBody_others env documentId filePath _ _ j Hne _ _ _ Hbody)
      as Hk.
    cbv beta in Hk. rewrite (updateStatus_others documentId j processing db Hne) in Hk.
    apply finishRun_state in Hrun as [[-> | ->] _]; [exact Hk |].
    rewrite (updateStatus_others documentId j failed db2 Hne). exact Hk. }
  injection Hview as H1 H2 H3 H4. repeat split; assumption.
Qed.

(** X2. A run touches the data of its own document only. Whatever its
    outcome, every other document keeps its record, its structure, its
    risk flags, its embeddings and its Chroma chunks. *)
Theorem pipeline_isolation (env : Env) (documentId : ObjectId) (filePath : jstring)
  (db db' : DB) (r : Result (Z * jstring)) (j : ObjectId) :
  j <> documentId ->
  runDocumentPipeline env documentId filePath db = (db', r) ->
  documents db' !! j = documents db !! j /\
  structures db' !! j = structures db !! j /\
  flagsOfDocument j db' = flagsOfDocument j db /\
  embeddingsOfDocument j db' = embeddingsOfDocument j db /\
  chromaChunksOfDocument j db' = chromaChunksOfDocument j db.
Proof. apply runDocumentPipeline_others. Qed.

Lemma pipeline_isolation_witness :
  8 <> 7 /\
  runDocumentPipeline (exampleEnv plainText) 7 (lit "uploads/file.pdf") exampleDb
  = (fst (runDocumentPipeline (exampleEnv plainText) 7 (lit "uploads/file.pdf") exampleDb),
     Ok (60%Z, lit "API key not set.")) /\
  flagsOfDocument 8
    (fst (runDocumentPipeline (exampleEnv plainText) 7 (lit "uploads/file.pdf") exampleDb))
  = flagsOfDocument 8 exampleDb.
Proof.
  assert (Hne : 8 <> 7) by lia.
  assert (Hrun : runDocumentPipeline (exampleEnv plainText) 7 (lit "uploads/file.pdf")
                   exampleDb
                 = (fst (runDocumentPipeline (exampleEnv plainText) 7
                           (lit "uploads/file.pdf") exampleDb),
                    Ok (60%Z, lit "API key not set."))) by (vm_compute; reflexivity).
  split; [exact Hne |]. split; [exact Hrun |].
  exact (proj1 (proj2 (proj2 (pipeline_isolation _ _ _ _ _ _ 8 Hne Hrun)))).
Defined.

(** ** Processing a document again *)

Lemma filter_other_twice {A} (f : A -> bool) (l new : list A) :
  Forall (fun x => f x = false) new ->
  List.filter f (List.filter f l ++ new) = List.filter f l.
Proof.
  intros Hnew. rewrite List.filter_app, (filter_none _ new Hnew), app_nil_r.
  induction l as [| x l IH]; simpl; [reflexivity |].
  destruct (f x) eqn:E; simpl; [rewrite E; f_equal |]; exact IH.
Qed.

(** X3. Processing a document again (the reprocess route starts the same
    run) with the same answers of the outside world returns the same
    score and summary and leaves the documents, the structures and the
    risk flags as the first run left them; the embeddings of the document
    are stored a second time after the first ones. *)
Theorem reprocess_repeats_embeddings (env : Env) (documentId : ObjectId)
  (filePath : jstring) (db db1 : DB) (r : Z * jstring) :
  runDocumentPipeline env documentId filePath db = (db1, Ok r) ->
  exists db2 doc ex,
    documents db !! documentId = Some doc /\
    extractionOf env filePath (isImageDoc doc) (mimeTypeOf doc) = Ok ex /\
    runDocumentPipeline env documentId filePath db1 = (db2, Ok r) /\
    documents db2 = documents db1 /\
    structures db2 = structures db1 /\
    riskFlags db2 = riskFlags db1 /\
    embeddings db1 = embeddings db ++ embeddingsOf documentId (validChunks ex) /\
    embeddings db2 =
      embeddings db ++ embeddingsOf documentId (validChunks ex)
                    ++ embeddingsOf documentId (validChunks ex).
Proof.
  intros Hrun.
  destruct (runDocumentPipeline_started _ _ _ _ _ _ Hrun) as (Hstart & doc & Hdoc).
  rewrite (runDocumentPipeline_finish _ _ _ _ doc Hstart Hdoc) in Hrun.
  destruct (pipelineBody _ _ _ _ _ _) as [dbx rx0] eqn:Hbody.
  destruct (proj2 (finishRun_state _ _ _ _ _ _ Hrun) r eq_refl) as [-> <-].
  clear Hrun.
  pose proof Hbody as Hb. apply pipelineBody_replay in Hbody as (ex & Hex & Hall).
  rewrite Hall in Hb. injection Hb as <-.
  assert (Hd0 : documents (updateStatus documentId processing db) !! documentId
                = Some (withStatus doc processing) /\
                embeddings (updateStatus documentId processing db) = embeddings db).
  { unfold updateStatus. simpl. rewrite lookup_alter_eq, Hdoc. split; reflexivity. }
  destruct Hd0 as (Hd0 & He0).
  remember (updateStatus documentId processing db) as db0 eqn:Edb0.
  destruct (completedDb_parts env documentId ex db0) as (Hd1 & Hs1 & He1 & Hf1 & _).
  remember (completedDb env documentId ex db0) as db1 eqn:Edb1.
  set (done := fun d => withCompleted d
                 (computeRiskScore (finalTypeOf ex) (uniqueFlagsOf env documentId ex))
                 (finalSummaryOf (finalTypeOf ex) ex (storedFieldsOf ex)) (finalTypeOf ex))
    in *.
  assert (Hdoc1 : documents db1 !! documentId = Some (done (withStatus doc processing))).
  { rewrite Hd1, lookup_alter_eq, Hd0. reflexivity. }
  exists (completedDb env documentId ex (updateStatus documentId processing db1)), doc, ex.
  split; [exact Hdoc |]. split; [exact Hex |].
  destruct (completedDb_parts env documentId ex (updateStatus documentId processing db1))
    as (Hd2 & Hs2 & He2 & Hf2 & _).
  split.
  { rewrite (runDocumentPipeline_finish _ _ _ _ _ Hstart Hdoc1).
    change (isImageDoc (done (withStatus doc processing))) with (isImageDoc doc).
    change (mimeTypeOf (done (withStatus doc processing))) with (mimeTypeOf doc).
    rewrite Hall. reflexivity. }
  split.
  { rewrite Hd2. unfold updateStatus. simpl. apply map_eq. intros j.
    destruct (decide (j = documentId)) as [-> | Hne].
    - rewrite !lookup_alter_eq, Hdoc1. reflexivity.
    - rewrite !lookup_alter_ne by congruence. reflexivity. }
  split.
  { rewrite Hs2. unfold updateStatus. simpl. rewrite Hs1. apply insert_insert_eq. }
  split.
  { rewrite Hf2. unfold updateStatus. simpl. rewrite Hf1. f_equal.
    apply filter_other_twice.
    eapply Forall_impl; [apply (uniqueFlagsOf_documentId env documentId ex) |].
    intros f Hf. simpl in Hf. rewrite Hf, Nat.eqb_refl. reflexivity. }
  split.
  { rewrite He1, He0. reflexivity. }
  rewrite He2. unfold updateStatus. simpl. rewrite He1, He0.
  rewrite <- app_assoc. reflexivity.
Qed.

Lemma reprocess_repeats_embeddings_witness :
  runDocumentPipeline (exampleEnv plainText) 7 (lit "uploads/file.pdf") exampleDb
  = (fst (runDocumentPipeline (exampleEnv plainText) 7 (lit "uploads/file.pdf") exampleDb),
     Ok (60%Z, lit "API key not set.")) /\
  exists db2,
    runDocumentPipeline (exampleEnv plainText) 7 (lit "uploads/file.pdf")
      (fst (runDocumentPipeline (exampleEnv plainText) 7 (lit "uploads/file.pdf") exampleDb))
    = (db2, Ok (60%Z, lit "API key not set.")).
Proof.
  assert (Hrun : runDocumentPipeline (exampleEnv plainText) 7 (lit "uploads/file.pdf")
                   exampleDb
                 = (fst (runDocumentPipeline (exampleEnv plainText) 7
                           (lit "uploads/file.pdf") exampleDb),
                    Ok (60%Z, lit "API key not set."))) by (vm_compute; reflexivity).
  split; [exact Hrun |].
  destruct (reprocess_repeats_embeddings _ _ _ _ _ _ Hrun)
    as (db2 & doc & ex & _ & _ & H2 & _).
  exists db2. exact H2.
Defined.

(** ** The rule tables and the schema of the risk flags *)

Lemma rules_in_schema :
  forallb ruleInSchema
    (MISSING_CLAUSE_RISKS ++ WEAK_CLAUSE_PATTERNS ++ COMPLIANCE_RISK_PATTERNS ++
     IMBALANCE_RISK_PATTERNS ++ SIGNATURE_RISK_PATTERNS ++ STRUCTURAL_RISK_PATTERNS ++
     AMBIGUITY_RISK_PATTERNS ++ METADATA_RISK_PATTERNS ++ GST_INVOICE_COMPLIANCE) = true /\
  forallb (fun r => ruleInSchema r || (truthy (risk r) && isCriticalRule r))
    PAYMENT_RISK_PATTERNS = true.
Proof. split; vm_compute; reflexivity. Qed.

Lemma isCriticalRule_pattern (r : RiskPattern) :
  isCriticalRule r = true ->
  rp_severity r = lit "critical" /\ risk r = lit "Unlimited financial exposure" /\
  pattern r = unlimitedExposure /\ isMissingRule r = false.
Proof.
  unfold isCriticalRule. rewrite !andb_true_iff, !bool_decide_eq_true, !negb_true_iff.
  intros (((((Hs & Hr) & Hp) & Hi) & Hg) & Hm). repeat split; try assumption.
  destruct (pattern r) as [src ic g]. simpl in *. subst. reflexivity.
Qed.

Lemma forEachRule_Forall (q : RiskPattern -> bool) (P : RiskFlag -> Prop)
  (rules : list RiskPattern) (body : RiskPattern -> option RiskFlag) :
  forallb q rules = true ->
  (forall r f, q r = true -> body r = Some f -> P f) ->
  Forall P (forEachRule rules body).
Proof.
  intros Hq Hb. unfold forEachRule. apply Forall_forall. intros f Hf.
  apply list_elem_of_omap in Hf as (r & Hr & Hbody).
  rewrite forallb_forall in Hq. apply (Hb r f); [| exact Hbody].
  apply Hq, list_elem_of_In, Hr.
Qed.

Lemma ruleFlag_valid (documentId : ObjectId) (ref type sev expl : jstring) :
  truthy ref = true -> truthy type = true ->
  bool_decide (sev ∈ severityEnum) = true -> truthy expl = true ->
  riskFlagValid (ruleFlag documentId ref type sev expl) = true.
Proof. intros H1 H2 H3 H4. unfold riskFlagValid. simpl. rewrite H1, H2, H3, H4. reflexivity. Qed.

Lemma payment_rules :
  forallb (fun r =>
             (ruleInSchema r || (truthy (risk r) && isCriticalRule r)) &&
             implb (bool_decide (normalized50 (risk r)
                                 = normalized50 (lit "Unlimited financial exposure")))
                   (isCriticalRule r))
          PAYMENT_RISK_PATTERNS = true.
Proof. vm_compute. reflexivity. Qed.

(** Closes the goal for the body of a rule loop that pushes flags of an
    allowed severity and of a type other than "payment_risk". *)
Ltac plain_rule :=
  let r := fresh "r" in
  let f := fresh "f" in
  let Hq := fresh "Hq" in
  let H := fresh "H" in
  let E := fresh "E" in
  intros r f Hq H;
  unfold ruleInSchema in Hq; apply andb_true_iff in Hq as [? ?];
  repeat match type of H with
         | (if ?c then _ else _) = Some _ => destruct c
         end;
  try discriminate H; injection H as <-;
  (split; [| split];
   [simpl; repeat split; try discriminate; try reflexivity;
    try (apply truthy_true; assumption)
   | left; apply ruleFlag_valid; try assumption; reflexivity
   | intros E; exfalso; vm_compute in E; discriminate E]).

(** Every flag that the rules push has its required strings, and passes
    the validation unless it is the flag for unlimited exposure, which is
    pushed for a contract of sufficient quality whose text matches
    [unlimitedExposure]. *)
Lemma detectRiskFlags_rules (documentId : ObjectId) (rawText finalDocType : jstring) :
  Forall (pushedByRules documentId rawText finalDocType)
         (detectRiskFlags documentId rawText finalDocType None).
Proof.
  destruct rules_in_schema as (Hplain & _). pose proof payment_rules as Hpay.
  rewrite !forallb_app, !andb_true_iff in Hplain.
  destruct Hplain as (Hmiss & Hweak & Hcomp & Himb & Hsig & Hstruct & Hamb & Hmeta & Hgst).
  unfold detectRiskFlags, pushedByRules.
  apply Forall_app; split; [| apply Forall_app; split].
  - destruct (bool_decide (finalDocType = lit "contract") && negb (isLowQualityText rawText))
      eqn:Econtract; [| constructor].
    apply andb_true_iff in Econtract as [Ec Eq].
    apply bool_decide_eq_true in Ec. apply negb_true_iff in Eq.
    repeat (apply Forall_app; split).
    + apply (forEachRule_Forall ruleInSchema); [exact Hmiss | plain_rule].
    + apply (forEachRule_Forall ruleInSchema); [exact Hweak | plain_rule].
    + apply (forEachRule_Forall _ _ _ _ Hpay). intros r f Hq H.
      apply andb_true_iff in Hq as [Hq Hkey].
      assert (Hf : exists expl, truthy expl = true /\
                     f = ruleFlag documentId (risk r) (lit "payment_risk")
                           (rp_severity r) expl /\
                     (isCriticalRule r = true -> matched rawText unlimitedExposure = true)).
      { destruct (negb (matched rawText (pattern r)) && isMissingRule r) eqn:E1.
        - injection H as <-. eexists. split; [| split; [reflexivity |]]; [reflexivity |].
          intros Hc. apply isCriticalRule_pattern in Hc as (_ & _ & _ & Hm).
          rewrite Hm, andb_false_r in E1. discriminate E1.
        - destruct (matched rawText (pattern r) && _) eqn:E2; [| discriminate H].
          injection H as <-. eexists. split; [| split; [reflexivity |]]; [reflexivity |].
          intros Hc. apply isCriticalRule_pattern in Hc as (_ & _ & Hp & _).
          rewrite <- Hp. apply andb_true_iff in E2 as [E2 _]. exact E2. }
      destruct Hf as (expl & Hexpl & -> & Hmatch).
      assert (Hname : truthy (risk r) = true).
      { apply orb_true_iff in Hq as [Hq | Hq]; apply andb_true_iff in Hq as [Hq _];
          exact Hq. }
      split; [| split].
      * simpl. repeat split; try discriminate; try (apply truthy_true; assumption).
      * apply orb_true_iff in Hq as [Hq | Hq].
        -- left. apply andb_true_iff in Hq as [_ Hs].
           apply ruleFlag_valid; try assumption; reflexivity.
        -- right. apply andb_true_iff in Hq as [_ Hc]. specialize (Hmatch Hc).
           apply isCriticalRule_pattern in Hc as (Hs & Hr & _ & _).
           unfold isCriticalFlag. simpl. repeat split; assumption.
      * simpl. intros _ Hn. rewrite bool_decide_eq_true_2 in Hkey by exact Hn.
        simpl in Hkey. apply isCriticalRule_pattern in Hkey as (Hs & Hr & _ & _).
        unfold isCriticalFlag. simpl. repeat split; assumption.
    + apply (forEachRule_Forall ruleInSchema); [exact Hcomp | plain_rule].
    + apply (forEachRule_Forall ruleInSchema); [exact Himb | plain_rule].
    + apply (forEachRule_Forall ruleInSchema); [exact Hsig | plain_rule].
    + apply (forEachRule_Forall ruleInSchema); [exact Hstruct | plain_rule].
    + apply (forEachRule_Forall ruleInSchema); [exact Hamb | plain_rule].
    + apply (forEachRule_Forall ruleInSchema); [exact Hmeta | plain_rule].
    + destruct (100 <? length rawText); constructor.
  - destruct (bool_decide (finalDocType = lit "invoice")); [| constructor].
    apply (forEachRule_Forall ruleInSchema); [exact Hgst | plain_rule].
  - unfold requiredFieldFlags. apply Forall_forall. intros f Hf.
    apply list_elem_of_omap in Hf as (field & _ & Hr).
    destruct (requiredFieldFound _ _ _); [discriminate Hr |]. injection Hr as <-.
    split; [simpl; repeat split; discriminate || reflexivity |].
    split; [left; reflexivity |].
    intros E. exfalso. vm_compute in E. discriminate E.
Qed.

Lemma uniqueRiskFlags_keepFirst (flags : list RiskFlag) :
  uniqueRiskFlags flags = keepFirst keyTriple flags.
Proof.
  unfold uniqueRiskFlags, keepFirst. apply dedupFilter_keepFirstFrom.
  intros f. rewrite elem_of_empty, elem_of_nil. reflexivity.
Qed.


Lemma isCriticalFlag_invalid (f : RiskFlag) : isCriticalFlag f -> riskFlagValid f = false.
Proof.
  intros (Hs & _ & _). unfold riskFlagValid. rewrite Hs.
  replace (bool_decide (lit "critical" ∈ severityEnum)) with false by (vm_compute; reflexivity).
  rewrite andb_false_r. reflexivity.
Qed.

(** X4. The flags that the rules push for a text (without an answer of
    the semantic analysis) all carry a clause reference, a type, an
    explanation and page 1, and each passes the validation of the schema
    except the flag "Unlimited financial exposure", whose severity is
    "critical". So the validation of [insertMany] rejects the flags of a
    text exactly when the document is a contract of sufficient quality
    whose text matches the pattern for unlimited exposure; the
    deduplication does not change that. *)
Theorem rule_flags_validation (documentId : ObjectId) (rawText finalDocType : jstring) :
  let flags := detectRiskFlags documentId rawText finalDocType None in
  (forall f, In f flags ->
     clauseReference f <> [] /\ riskType f <> [] /\ explanation f <> [] /\
     rf_pageNumber f = Some 1%Z /\
     (riskFlagValid f = true \/ isCriticalFlag f)) /\
  (forallb riskFlagValid flags = false <->
   finalDocType = lit "contract" /\ isLowQualityText rawText = false /\
   matched rawText unlimitedExposure = true) /\
  forallb riskFlagValid (uniqueRiskFlags flags) = forallb riskFlagValid flags.
Proof.
  intros flags.
  pose proof (detectRiskFlags_rules documentId rawText finalDocType) as Hall.
  fold flags in Hall. rewrite Forall_forall in Hall.
  assert (Hiff : forallb riskFlagValid flags = false <->
                 finalDocType = lit "contract" /\ isLowQualityText rawText = false /\
                 matched rawText unlimitedExposure = true).
  { split.
    - intros Hf. apply not_true_iff_false in Hf.
      destruct (forallb_exists_false riskFlagValid flags Hf) as (f & Hin & Hinv).
      destruct (Hall f (proj2 (list_elem_of_In _ _) Hin)) as (_ & [Hv | (_ & H)] & _).
      + congruence.
      + exact H.
    - intros (Hc & Hq & Hm).
      set (crit := ruleFlag documentId (lit "Unlimited financial exposure")
                     (lit "payment_risk") (lit "critical")
                     (lit "Critical financial exposure: " ++
                      lit "Unlimited financial exposure" ++
                      lit ". This could result in unlimited liability.")).
      assert (Hin : In crit flags).
      { unfold flags, detectRiskFlags. rewrite Hc, Hq. simpl negb.
        rewrite bool_decide_eq_true_2 by reflexivity. cbn [andb].
        apply in_or_app. left. apply in_or_app. right. apply in_or_app. right.
        apply in_or_app. left. apply list_elem_of_In.
        unfold paymentFlags, forEachRule. apply list_elem_of_omap.
        exists (mkRiskPattern unlimitedExposure (lit "Unlimited financial exposure")
                  (lit "critical") (Some false) None).
        split; [apply list_elem_of_In; do 4 right; left; reflexivity |].
        cbn [pattern isMissingRule missingOnly rp_severity risk].
        rewrite Hm. reflexivity. }
      destruct (forallb riskFlagValid flags) eqn:E; [| reflexivity].
      rewrite forallb_forall in E. specialize (E crit Hin). discriminate E. }
  split; [| split; [exact Hiff |]].
  - intros f Hin. destruct (Hall f (proj2 (list_elem_of_In _ _) Hin))
      as ((H1 & H2 & H3 & _ & H5) & Hv & _).
    repeat split; try assumption. destruct Hv as [Hv | (Hc & _)]; [left | right]; assumption.
  - destruct (forallb riskFlagValid flags) eqn:E.
    + rewrite forallb_forall in E |- *. intros f Hf. apply E.
      rewrite uniqueRiskFlags_keepFirst in Hf.
      apply (keepFirstFrom_keys keyTriple flags [] f Hf).
    + apply not_true_iff_false in E.
      destruct (forallb_exists_false riskFlagValid flags E) as (f & Hin & Hinv).
      destruct (Hall f (proj2 (list_elem_of_In _ _) Hin)) as (_ & [Hv | (Hc & _)] & _);
        [congruence |].
      destruct (keepFirstFrom_first keyTriple flags [] f Hin (not_elem_of_nil _))
        as (pre & post & g & Hflags & Hkey & _ & Hg).
      change (keepFirstFrom keyTriple [] flags) with (keepFirst keyTriple flags) in Hg.
      rewrite <- uniqueRiskFlags_keepFirst in Hg.
      assert (Hgin : In g flags) by (rewrite Hflags; apply in_or_app; right; left; reflexivity).
      destruct (Hall g (proj2 (list_elem_of_In _ _) Hgin)) as (_ & _ & Hg3).
      destruct Hc as (Hs & Ht & Hr).
      unfold keyTriple in Hkey. injection Hkey as Hk1 Hk2 _.
      assert (Hgc : isCriticalFlag g).
      { apply Hg3; [congruence |]. rewrite Hk2, Hr. reflexivity. }
      destruct (forallb riskFlagValid (uniqueRiskFlags flags)) eqn:Eu; [| reflexivity].
      rewrite forallb_forall in Eu. specialize (Eu g Hg).
      rewrite (isCriticalFlag_invalid g Hgc) in Eu. discriminate Eu.
Qed.

(** ** The score and the number of flags *)

Lemma countSeverity_sublist (p : jstring -> bool) (l k : list RiskFlag) :
  l `sublist_of` k -> (countSeverity p l <= countSeverity p k)%Z.
Proof.
  unfold countSeverity. intros H. apply inj_le.
  induction H as [| x l k _ IH | x l k _ IH]; simpl; [lia | |];
    destruct (p (severity x)); simpl; lia.
Qed.

Lemma computeRiskScore_sublist (finalDocType : jstring) (l k : list RiskFlag) :
  l `sublist_of` k ->
  (computeRiskScore finalDocType l <= computeRiskScore finalDocType k)%Z.
Proof.
  intros H. unfold computeRiskScore. rewrite !Math_round_integer.
  pose proof (countSeverity_sublist isHigh l k H).
  pose proof (countSeverity_sublist isMedium l k H).
  pose proof (countSeverity_sublist isLow l k H).
  destruct (bool_decide _); lia.
Qed.

(** X5. The score grows with the flags: it is 0 without flags, a further
    flag never lowers it, and the deduplication never raises it. *)
Theorem computeRiskScore_monotone (finalDocType : jstring) (f : RiskFlag)
  (flags : list RiskFlag) :
  computeRiskScore finalDocType [] = 0%Z /\
  (computeRiskScore finalDocType flags <= computeRiskScore finalDocType (f :: flags))%Z /\
  (computeRiskScore finalDocType (uniqueRiskFlags flags)
   <= computeRiskScore finalDocType flags)%Z.
Proof.
  split; [| split].
  - unfold computeRiskScore. destruct (bool_decide _); reflexivity.
  - apply computeRiskScore_sublist. apply sublist_cons. reflexivity.
  - apply computeRiskScore_sublist. apply dedupFilter_sublist.
Qed.

(** ** The Chroma client *)

Lemma chroma_client_available (cfg : Chroma.Config) (st : Chroma.State) :
  Chroma._chromaAvailable (fst (Chroma.client cfg st)) = Chroma._chromaAvailable st.
Proof. unfold Chroma.client. destruct (Chroma._client st); reflexivity. Qed.

Lemma chroma_isChromaEnabled_false (cfg : Chroma.Config) (st : Chroma.State) :
  Chroma._chromaAvailable st <> Some true ->
  snd (Chroma.isChromaEnabled cfg st) = false /\
  Chroma._chromaAvailable (fst (Chroma.isChromaEnabled cfg st)) <> Some true.
Proof.
  intros Hst. unfold Chroma.isChromaEnabled.
  destruct (negb (truthy (Chroma.CHROMA_URL cfg))); [split; [reflexivity | exact Hst] |].
  destruct (Chroma._chromaAvailable st) as [[|] |] eqn:E.
  - congruence.
  - split; [reflexivity | simpl; rewrite E; discriminate].
  - pose proof (chroma_client_available cfg st) as Hc.
    destruct (Chroma.client cfg st) as [st1 [c |]]; simpl in *.
    + split; [reflexivity | rewrite Hc, E; discriminate].
    + split; [reflexivity | discriminate].
Qed.

Lemma chroma_after_available (cfg : Chroma.Config) (calls : list Chroma.Call) :
  forall st, Chroma._chromaAvailable st <> Some true ->
             Chroma._chromaAvailable (fold_left (Chroma.after cfg) calls st) <> Some true.
Proof.
  induction calls as [| c calls IH]; intros st Hst; simpl; [exact Hst |].
  apply IH. destruct c; simpl;
    try (rewrite chroma_client_available; exact Hst).
  apply chroma_isChromaEnabled_false, Hst.
Qed.

(** X6. Chroma is never enabled. Whatever [CHROMA_URL] is and whatever
    calls of the exported functions of the module came before,
    [isChromaEnabled()] answers [false]: [_chromaAvailable] starts as
    [null], only [setChromaAvailable] could make it [true], and nothing
    calls that function. So [vectorSearch] always scans the stored
    embeddings and the pipeline never writes to Chroma. *)
Theorem isChromaEnabled_never (cfg : Chroma.Config) (calls : list Chroma.Call) :
  snd (Chroma.isChromaEnabled cfg (Chroma.afterCalls cfg calls)) = false /\
  Chroma._chromaAvailable (Chroma.afterCalls cfg calls) <> Some true.
Proof.
  assert (H : Chroma._chromaAvailable (Chroma.afterCalls cfg calls) <> Some true).
  { apply chroma_after_available. discriminate. }
  split; [apply chroma_isChromaEnabled_false, H | exact H].
Qed.


(** ** Cosine similarity *)

Lemma dotProduct_comm (a b : list float) : dotProduct a b = dotProduct b a.
Proof.
  unfold dotProduct. generalize 0%float. revert b.
  induction a as [| x a IH]; intros [| y b] acc; simpl; try reflexivity.
  rewrite (mul_comm x y). apply IH.
Qed.

Lemma cosineOf_comm (a b : list float) : cosineOf a b = cosineOf b a.
Proof.
  unfold cosineOf. rewrite (Nat.eqb_sym (length b) (length a)).
  destruct (Nat.eqb_spec (length a) (length b)) as [E | E]; simpl; [| reflexivity].
  rewrite <- E. destruct (0 <? length a); [| reflexivity].
  rewrite (dotProduct_comm b a), (mul_comm (PrimFloat.sqrt (dotProduct b b))).
  reflexivity.
Qed.

Lemma cosineOf_mismatch (a b : list float) :
  length a <> length b \/ a = [] -> cosineOf a b = 0%float.
Proof.
  unfold cosineOf. intros [H | ->].
  - apply Nat.eqb_neq in H. rewrite H. reflexivity.
  - simpl. rewrite andb_false_r. reflexivity.
Qed.

Lemma zeroOrNaN_sqrt (x : float) : zeroOrNaN x -> zeroOrNaN (PrimFloat.sqrt x).
Proof.
  unfold zeroOrNaN. rewrite sqrt_spec.
  destruct (Prim2SF x) as [s | s | | s m e]; try contradiction; intros _; exact I.
Qed.

Lemma zeroOrNaN_zero : zeroOrNaN 0%float.
Proof. exact I. Qed.

(** The dot product with a vector of zeros: every product is 0 or [NaN]. *)
Lemma zeroOrNaN_dotProduct (a b : list float) :
  Forall (fun x => x = 0%float) a -> zeroOrNaN (dotProduct a b).
Proof.
  unfold dotProduct. intros Ha.
  assert (G : forall acc, zeroOrNaN acc ->
            zeroOrNaN (fold_left (fun s xy => (s + fst xy * snd xy)%float)
                         (combine a b) acc)).
  { revert b. induction Ha as [| x a Hx Ha IH]; intros b acc Hacc; [exact Hacc |].
    destruct b as [| y b]; [exact Hacc |]. simpl. apply IH.
    apply zeroOrNaN_add; [exact Hacc |]. apply zeroOrNaN_mul_zero. rewrite Hx. exact I. }
  apply G. exact I.
Qed.

(** The similarity with a vector of zeros is 0, or [NaN] when a product
    or a sum of the loop is [NaN]. *)
Lemma cosineOf_zero_l (a b : list float) :
  Forall (fun x => x = 0%float) a -> cosineOf a b = 0%float \/ cosineOf a b = nan.
Proof.
  intros Ha. unfold cosineOf.
  destruct ((length a =? length b) && (0 <? length a)); [| left; reflexivity].
  set (denom := (PrimFloat.sqrt (dotProduct a a) * PrimFloat.sqrt (dotProduct b b))%float).
  assert (Hd : zeroOrNaN denom).
  { apply zeroOrNaN_mul_zero, zeroOrNaN_sqrt, zeroOrNaN_dotProduct, Ha. }
  destruct (zeroOrNaN_cases denom Hd) as [E | E].
  - rewrite E. left. reflexivity.
  - rewrite E. right. change (nan =? 0)%float with false. cbv iota.
    apply zeroOrNaN_div; [exact I | reflexivity].
Qed.

Lemma cosineOf_zero_r (a b : list float) :
  Forall (fun x => x = 0%float) b -> cosineOf a b = 0%float \/ cosineOf a b = nan.
Proof. rewrite cosineOf_comm. apply cosineOf_zero_l. Qed.

Lemma notAbove_zeroOrNaN (x : float) :
  x = 0%float \/ x = nan -> (0.1 <? x)%float = false.
Proof. intros [-> | ->]; reflexivity. Qed.

(** X7. [cosineSimilarity] does not depend on the order of its arguments
    and is 0 for vectors of different lengths and for empty vectors. For
    a vector whose entries are all 0 it is 0, not a division by zero,
    unless a product or a sum with the entries of the other vector is
    [NaN]: then it is [NaN], as for the vectors (0, 0) and
    (1e200, 1e200). In both cases it is not above the threshold 0.1 of
    the search. *)
Theorem cosineSimilarity_degenerate (a b : list float) :
  cosineSimilarity a b = cosineSimilarity b a /\
  (length a <> length b -> cosineSimilarity a b = 0%float) /\
  cosineSimilarity [] b = 0%float /\
  (Forall (fun x => x = 0%float) a \/ Forall (fun x => x = 0%float) b ->
   (cosineSimilarity a b = 0%float \/ cosineSimilarity a b = nan) /\
   (0.1 <? cosineSimilarity a b)%float = false) /\
  cosineSimilarity [0; 0]%float [1; 2]%float = 0%float /\
  cosineSimilarity [0; 0]%float [1e200; 1e200]%float = nan.
Proof.
  rewrite !cosineSimilarity_cosineOf.
  split; [apply cosineOf_comm |].
  split; [intros H; apply cosineOf_mismatch; left; exact H |].
  split; [apply cosineOf_mismatch; right; reflexivity |].
  split; [| split; vm_compute; reflexivity].
  intros H.
  assert (Hz : cosineOf a b = 0%float \/ cosineOf a b = nan)
    by (destruct H as [H | H]; [apply cosineOf_zero_l | apply cosineOf_zero_r]; exact H).
  split; [exact Hz | apply notAbove_zeroOrNaN, Hz].
Qed.

(** ** Queries *)

Lemma upperChar_ascii (c : ascii) :
  (code c <? 128) = true ->
  (code c =? 223) = false /\ lowerChar (upperChar c) = lowerChar c.
Proof. destruct c as [[] [] [] [] [] [] [] []]; intros H; try discriminate H; split; reflexivity. Qed.

Lemma lowerChar_idem (c : ascii) : lowerChar (lowerChar c) = lowerChar c.
Proof. destruct c as [[] [] [] [] [] [] [] []]; reflexivity. Qed.

(** For ASCII characters the upper-case form has the same lower-case form. *)
Lemma toLowerCase_toUpperCase (s : jstring) :
  isAscii s = true -> toLowerCase (toUpperCase s) = toLowerCase s.
Proof.
  unfold isAscii, toLowerCase, toUpperCase.
  induction s as [| c s IH]; intros H; [reflexivity |].
  simpl in H. apply andb_prop in H as [Hc Hs].
  destruct (upperChar_ascii c Hc) as [H223 Hl].
  cbn [flat_map]. rewrite H223. cbn [app map]. rewrite Hl, (IH Hs). reflexivity.
Qed.

Lemma toLowerCase_idem (s : jstring) : toLowerCase (toLowerCase s) = toLowerCase s.
Proof. unfold toLowerCase. rewrite map_map. apply map_ext, lowerChar_idem. Qed.

Lemma localEmbed_tokens (s t : jstring) :
  embedTokens s = embedTokens t -> localEmbed s = localEmbed t.
Proof. intros H. unfold localEmbed, tokenCounts. rewrite H. reflexivity. Qed.

(** X9. The search does not look at the case of the letters of a query of
    ASCII characters: the embedding of the query is that of its
    lower-case form and that of its upper-case form, so with Chroma off
    the query in upper case or in lower case finds what the query as
    typed finds. *)
Theorem vectorSearch_ignores_case (env : SearchEnv) (documentIds : list ObjectId)
  (query : jstring) (topK : option nat) :
  isChromaEnabled env = false ->
  isAscii query = true ->
  localEmbed (toUpperCase query) = localEmbed query /\
  localEmbed (toLowerCase query) = localEmbed query /\
  vectorSearch env documentIds (toUpperCase query) topK
  = vectorSearch env documentIds query topK /\
  vectorSearch env documentIds (toLowerCase query) topK
  = vectorSearch env documentIds query topK.
Proof.
  intros Hoff Hascii.
  assert (Hu : localEmbed (toUpperCase query) = localEmbed query).
  { apply localEmbed_tokens. unfold embedTokens.
    rewrite toLowerCase_toUpperCase by exact Hascii. reflexivity. }
  assert (Hl : localEmbed (toLowerCase query) = localEmbed query).
  { apply localEmbed_tokens. unfold embedTokens. rewrite toLowerCase_idem. reflexivity. }
  split; [exact Hu |]. split; [exact Hl |].
  rewrite !vectorSearch_linearScan by exact Hoff.
  unfold linearScan, scoredChunks, scored. rewrite Hu, Hl. split; reflexivity.
Qed.

Lemma vectorSearch_ignores_case_witness :
  isChromaEnabled scanEnv = false /\
  isAscii (lit "Termination clause") = true /\
  vectorSearch scanEnv [1; 2] (toUpperCase (lit "Termination clause")) None
  = vectorSearch scanEnv [1; 2] (lit "Termination clause") None /\
  map sr_chunkId (vectorSearch scanEnv [1; 2] (lit "Termination clause") None)
  = [lit "chunk_2_0"; lit "chunk_1_1"].
Proof.
  split; [reflexivity |]. split; [reflexivity |].
  split; [| vm_compute; reflexivity].
  exact (proj1 (proj2 (proj2 (vectorSearch_ignores_case scanEnv [1; 2]
                                (lit "Termination clause") None eq_refl eq_refl)))).
Defined.

(** X10. A query without a token (no run of two or more letters, digits
    or underscores) finds nothing: its embedding is the zero vector, the
    similarity with a stored chunk is 0 or [NaN], and no score is above
    the threshold 0.1. *)
Theorem vectorSearch_without_tokens (env : SearchEnv) (documentIds : list ObjectId)
  (query : jstring) (topK : option nat) :
  isChromaEnabled env = false ->
  embedTokens query = [] ->
  vectorSearch env documentIds query topK = [].
Proof.
  intros Hoff Htok. rewrite vectorSearch_linearScan by exact Hoff.
  unfold linearScan. apply filter_none. apply Forall_forall. intros r Hr.
  assert (Hin : r ∈ scoredChunks env documentIds query).
  { rewrite <- (sortByScore_perm (scoredChunks env documentIds query)).
    eapply elem_of_sublist; [exact Hr | apply sublist_take]. }
  apply list_elem_of_In in Hin. unfold scoredChunks in Hin.
  apply in_map_iff in Hin as (e & <- & _).
  unfold aboveThreshold, scored. simpl.
  apply notAbove_zeroOrNaN, cosineOf_zero_l.
  rewrite (localEmbed_no_tokens query Htok).
  apply Forall_forall. intros x Hx. apply elem_of_replicate in Hx as [-> _]. reflexivity.
Qed.

Lemma vectorSearch_without_tokens_witness :
  isChromaEnabled scanEnv = false /\
  embedTokens (lit "a ? b") = [] /\
  vectorSearch scanEnv [1; 2] (lit "a ? b") None = [].
Proof.
  assert (Htok : embedTokens (lit "a ? b") = []) by (vm_compute; reflexivity).
  split; [reflexivity |]. split; [exact Htok |].
  exact (vectorSearch_without_tokens scanEnv [1; 2] (lit "a ? b") None eq_refl Htok).
Defined.

(** ** Chunks and the characters of the text *)

Lemma slice_lookup (s : jstring) (a b : Z) (i : nat) (x : ascii) :
  (0 <= a <= Z.of_nat i)%Z -> (Z.of_nat i < b)%Z ->
  s !! i = Some x -> In x (slice s a b).
Proof.
  intros Ha Hb Hx. rewrite slice_take_drop by lia. apply list_elem_of_In.
  apply list_elem_of_lookup. exists (i - Z.to_nat a).
  rewrite lookup_take_lt by lia. rewrite lookup_drop.
  replace (Z.to_nat a + (i - Z.to_nat a)) with i by lia. exact Hx.
Qed.

Lemma chunkStep_next_le (text : jstring) (start : Z) :
  (0 <= start < Z.of_nat (length text))%Z ->
  (snd (chunkStep text start) <= sliceEnd text start)%Z.
Proof.
  intros H. pose proof (windowEnd_bounds text start H) as Hw.
  rewrite chunkStep_next. unfold sliceEnd, CHUNK_OVERLAP.
  destruct (Z.ltb_spec (windowEnd text start) (Z.of_nat (length text))); simpl; [| lia].
  destruct (lastSpaceOf text start >? CHUNK_SIZE / 2)%Z; lia.
Qed.

(** Every character before [start] that is not white space is in a
    chunk, once the loop has come to [start]. *)
Lemma chunkLoop_covers (text : jstring) (pageNumber : Z) (fuel : nat) :
  forall (start : Z) (chunks result : list Chunk),
    (0 <= start)%Z ->
    (forall i x, text !! i = Some x -> isWhiteSpace x = false -> (Z.of_nat i < start)%Z ->
                 exists c, In c chunks /\ covers text i c) ->
    chunkLoop fuel text pageNumber start chunks = Some result ->
    forall i x, text !! i = Some x -> isWhiteSpace x = false ->
                exists c, In c result /\ covers text i c.
Proof.
  induction fuel as [| fuel IH]; intros start chunks result H0 Hinv; simpl;
    destruct (Z.ltb_spec start (Z.of_nat (length text))) as [Hlt | Hge]; try congruence;
    try (intros [= <-] i x Hx Hws; apply (Hinv i x Hx Hws);
         apply lookup_lt_Some in Hx; lia).
  pose proof (chunkStep_progress text start (conj H0 Hlt)) as Hp.
  pose proof (chunkStep_slice text start (conj H0 Hlt)) as Hs.
  pose proof (sliceEnd_bounds text start (conj H0 Hlt)) as Hb.
  pose proof (chunkStep_next_le text start (conj H0 Hlt)) as Hle.
  destruct (chunkStep text start) as [slice0 start'] eqn:E. simpl in Hp, Hs, Hle.
  apply IH; [lia |].
  intros i x Hx Hws Hi. unfold pushChunk.
  destruct (Z.lt_ge_cases (Z.of_nat i) start) as [Hold | Hnew].
  - destruct (Hinv i x Hx Hws Hold) as (c & Hc & Hcov). exists c. split; [| exact Hcov].
    destruct (truthy (trim slice0)); [apply in_or_app; left |]; exact Hc.
  - assert (Hin : In x slice0).
    { rewrite Hs. apply (slice_lookup text start (sliceEnd text start) i x); [lia | lia |].
      exact Hx. }
    pose proof (trim_not_nil slice0 x Hin Hws) as Hne.
    apply truthy_true in Hne. rewrite Hne.
    exists (mkChunk (trim slice0) pageNumber). split.
    + apply in_or_app. right. left. reflexivity.
    + exists start, (sliceEnd text start). simpl. rewrite <- Hs.
      unfold CHUNK_SIZE. repeat split; lia.
Qed.

(** X11. No text is lost by the chunking: every character of the text
    that is not white space lies in the window of one of the chunks, and
    so occurs in the text of that chunk. *)
Theorem chunkText_covers (text : jstring) (pageNumber : Z) (i : nat) (x : ascii) :
  text !! i = Some x -> isWhiteSpace x = false ->
  exists c, In c (chunkText text pageNumber) /\ covers text i c /\ In x (chunk_text c).
Proof.
  intros Hx Hws. unfold chunkText.
  destruct (chunkLoop_fuel text pageNumber (length text) 0 []) as [chunks Hloop]; [lia | lia |].
  rewrite Hloop.
  destruct (chunkLoop_covers text pageNumber (length text) 0 [] chunks (Z.le_refl 0)
              ltac:(intros; lia) Hloop i x Hx Hws) as (c & Hc & Hcov).
  exists c. split; [| split; [exact Hcov |]].
  - unfold chunkFinish. destruct chunks; [destruct Hc | exact Hc].
  - destruct Hcov as (a & b & Ha & Hb & _ & ->).
    pose proof (slice_lookup text a b i x Ha (proj1 Hb) Hx) as Hin.
    clear - Hin Hws. revert Hin. generalize (slice text a b). intros s Hin.
    unfold trim, trimEnd.
    assert (Hstart : forall t, In x t -> In x (trimStart t)).
    { induction t as [| y t IH]; simpl; [tauto |].
      intros [-> | Hin']; [rewrite Hws; left; reflexivity |].
      destruct (isWhiteSpace y); [apply IH, Hin' | right; exact Hin']. }
    apply in_rev. rewrite rev_involutive. apply Hstart. apply -> in_rev. apply Hstart, Hin.
Qed.

Lemma chunkText_covers_witness :
  lit "hello world" !! 4 = Some "o"%char /\ isWhiteSpace "o" = false /\
  exists c, In c (chunkText (lit "hello world") 1) /\ covers (lit "hello world") 4 c /\
            In "o"%char (chunk_text c).
Proof.
  split; [reflexivity |]. split; [reflexivity |].
  exact (chunkText_covers (lit "hello world") 1 4 "o" eq_refl eq_refl).
Defined.

(** ** The number of chunks *)

Lemma chunkStep_advance (text : jstring) (start : Z) :
  (0 <= start < Z.of_nat (length text))%Z ->
  (snd (chunkStep text start) = Z.of_nat (length text) \/
   start + 301 <= snd (chunkStep text start))%Z.
Proof.
  intros H. rewrite chunkStep_next.
  pose proof (lastSpaceOf_lt text start H) as Hl.
  pose proof (windowEnd_bounds text start H) as Hw. unfold CHUNK_OVERLAP.
  destruct (Z.ltb_spec (windowEnd text start) (Z.of_nat (length text))); [right | left; lia].
  destruct (lastSpaceOf text start >? CHUNK_SIZE / 2)%Z eqn:E.
  - change (CHUNK_SIZE / 2)%Z with 400%Z in E. lia.
  - lia.
Qed.

Lemma chunkLoop_count (text : jstring) (pageNumber : Z) (fuel : nat) :
  forall (start : Z) (chunks result : list Chunk),
    (0 <= start)%Z ->
    chunkLoop fuel text pageNumber start chunks = Some result ->
    (Z.of_nat (length result)
     <= Z.of_nat (length chunks) + (Z.max 0 (Z.of_nat (length text) - start) + 300) / 301)%Z.
Proof.
  induction fuel as [| fuel IH]; intros start chunks result H0; simpl;
    destruct (Z.ltb_spec start (Z.of_nat (length text))) as [Hlt | Hge]; try congruence;
    try (intros [= <-];
         pose proof (Z.div_pos (Z.max 0 (Z.of_nat (length text) - start) + 300) 301); lia).
  pose proof (chunkStep_progress text start (conj H0 Hlt)) as Hp.
  pose proof (chunkStep_advance text start (conj H0 Hlt)) as Ha.
  destruct (chunkStep text start) as [slice0 start'] eqn:E. simpl in Hp, Ha.
  intros Hr. apply IH in Hr; [| lia].
  assert (Hpush : length (pushChunk chunks slice0 pageNumber) <= S (length chunks)).
  { unfold pushChunk. destruct (truthy (trim slice0)); [rewrite length_app; simpl |]; lia. }
  assert (Hdiv : ((Z.max 0 (Z.of_nat (length text) - start') + 300) / 301 + 1
                  <= (Z.max 0 (Z.of_nat (length text) - start) + 300) / 301)%Z).
  { destruct Ha as [-> | Ha].
    - rewrite Z.sub_diag. change ((Z.max 0 0 + 300) / 301)%Z with 0%Z.
      apply (Z.div_le_lower_bound _ 301 1); lia.
    - rewrite <- Z.div_add by lia. apply Z.div_le_mono; lia. }
  lia.
Qed.

(** X12. The number of chunks of a text is bounded by its length: each
    iteration but the last moves on by at least 301 characters, so a text
    of [n] characters has at most [(n + 300) / 301] chunks, and an empty
    text has none. *)
Theorem chunkText_count (text : jstring) (pageNumber : Z) :
  (Z.of_nat (length (chunkText text pageNumber))
   <= (Z.of_nat (length text) + 300) / 301)%Z /\
  chunkText [] pageNumber = [].
Proof.
  split; [| reflexivity]. unfold chunkText.
  destruct (chunkLoop_fuel text pageNumber (length text) 0 []) as [chunks Hloop]; [lia | lia |].
  rewrite Hloop. pose proof (chunkLoop_count text pageNumber _ _ _ _ (Z.le_refl 0) Hloop) as Hc.
  simpl length in Hc. rewrite Z.sub_0_r, Z.max_r in Hc by lia.
  unfold chunkFinish. destruct chunks as [| c chunks]; [| exact Hc].
  destruct text as [| x text]; [reflexivity |].
  destruct (truthy _); simpl length.
  - apply (Z.div_le_lower_bound _ 301 1); [lia |]. rewrite Nat2Z.inj_succ. lia.
  - apply Z.div_pos; lia.
Qed.

(** ** The line diff *)

Lemma findMatchingFrom_same (line : jstring) (used : gset nat) (pre post : list jstring) :
  forall i,
    (forall k, k < length pre -> i + k ∈ used) ->
    i + length pre ∉ used ->
    findMatchingFrom line (pre ++ line :: post) used i = Some (i + length pre).
Proof.
  induction pre as [| o pre IH]; intros i Hused Hfree; simpl.
  - rewrite Nat.add_0_r in Hfree |- *.
    rewrite bool_decide_eq_false_2 by exact Hfree.
    rewrite bool_decide_eq_true_2 by reflexivity. reflexivity.
  - rewrite bool_decide_eq_true_2.
    2: { specialize (Hused 0 ltac:(simpl; lia)). rewrite Nat.add_0_r in Hused. exact Hused. }
    rewrite IH.
    + f_equal. lia.
    + intros k Hk. replace (S i + k) with (i + S k) by lia. apply Hused. simpl. lia.
    + replace (S i + length pre) with (i + length (o :: pre)) by (simpl; lia). exact Hfree.
Qed.

(** The first loop on a text and itself: each line is matched with
    itself and nothing is pushed. *)
Lemma diffOldLines_same (rest : list jstring) :
  forall (pre : list jstring) (used : gset nat) (out : list VersionDifference),
    (forall k, k ∈ used <-> k < length pre) ->
    exists used',
      diffOldLines rest (length pre) (pre ++ rest) used out = (used', out) /\
      (forall k, k ∈ used' <-> k < length (pre ++ rest)).
Proof.
  induction rest as [| line rest IH]; intros pre used out Hused; simpl.
  - exists used. rewrite app_nil_r. split; [reflexivity | exact Hused].
  - unfold findMatchingLine.
    rewrite (findMatchingFrom_same line used pre rest 0).
    2: { intros k Hk. apply Hused. simpl. exact Hk. }
    2: { rewrite Hused. simpl. lia. }
    simpl. rewrite nth_middle. rewrite bool_decide_eq_true_2 by reflexivity.
    specialize (IH (pre ++ [line]) ({[ length pre ]} ∪ used) out).
    rewrite length_app in IH. simpl in IH. rewrite Nat.add_1_r in IH.
    rewrite <- app_assoc in IH. simpl in IH.
    apply IH. intros k. rewrite elem_of_union, elem_of_singleton, Hused. lia.
Qed.

Lemma diffNewLines_used (lines2 : list jstring) :
  forall (j : nat) (used : gset nat) (out : list VersionDifference),
    (forall k, k < length lines2 -> j + k ∈ used) ->
    diffNewLines lines2 j used out = out.
Proof.
  induction lines2 as [| line lines2 IH]; intros j used out Hused; simpl; [reflexivity |].
  rewrite bool_decide_eq_true_2.
  2: { specialize (Hused 0 ltac:(simpl; lia)). rewrite Nat.add_0_r in Hused. exact Hused. }
  apply IH. intros k Hk. replace (S j + k) with (j + S k) by lia. apply Hused. simpl. lia.
Qed.

(** X13. A text compared with itself has no difference. *)
Theorem simpleTextDiff_same (text : jstring) : simpleTextDiff text text = [].
Proof.
  unfold simpleTextDiff.
  destruct (diffOldLines_same (toLines text) [] ∅ [])
    as (used & Hold & Hused).
  { intros k. rewrite elem_of_empty. simpl. lia. }
  simpl in Hold, Hused. rewrite Hold.
  rewrite diffNewLines_used by (intros k Hk; apply Hused; exact Hk).
  simpl. rewrite bool_decide_eq_true_2 by reflexivity. reflexivity.
Qed.

(** X14. An empty diff means the same text: when [simpleTextDiff] finds no
    difference the two texts are equal up to the white space around
    them. *)
Theorem simpleTextDiff_empty (text1 text2 : jstring) :
  simpleTextDiff text1 text2 = [] -> trim text1 = trim text2.
Proof.
  unfold simpleTextDiff.
  destruct (diffOldLines _ _ _ _ _) as [used2 out1].
  destruct (diffNewLines _ _ _ _) as [| d out]; simpl.
  - destruct (bool_decide_reflect (trim text1 = trim text2)) as [E | _];
      [intros _; exact E | discriminate].
  - discriminate.
Qed.

Lemma simpleTextDiff_empty_witness :
  simpleTextDiff (lit "  the same text  ") (lit "the same text") = [] /\
  trim (lit "  the same text  ") = trim (lit "the same text").
Proof.
  assert (H : simpleTextDiff (lit "  the same text  ") (lit "the same text") = [])
    by (vm_compute; reflexivity).
  split; [exact H |].
  exact (simpleTextDiff_empty (lit "  the same text  ") (lit "the same text") H).
Defined.

(** *** The entries of a diff *)

Lemma slice_0_length_le (s : jstring) (n : Z) :
  (0 <= n)%Z -> length (slice s 0 n) <= Z.to_nat n.
Proof.
  intros Hn. rewrite slice_take_drop by lia. rewrite length_take. lia.
Qed.

(** The texts of an entry are slices of at most 500 characters. *)
Ltac texts_short :=
  repeat match goal with
         | |- Forall _ (_ :: _) => constructor; [apply (slice_0_length_le _ 500); lia |]
         | |- Forall _ [] => constructor
         end.

(** The identifiers and the shape of what the first loop pushes. *)
Lemma diffOldLines_entries (lines2 : list jstring) (lines1 : list jstring) :
  forall (i : nat) (used : gset nat) (out : list VersionDifference),
    exists ks,
      map vd_id (snd (diffOldLines lines1 i lines2 used out))
      = map vd_id out ++ map (fun k => lit "diff_" ++ showNat k) ks /\
      Forall (fun k => i <= k) ks /\ NoDup ks /\
      (Forall lineDifferenceShape out ->
       Forall lineDifferenceShape (snd (diffOldLines lines1 i lines2 used out))).
Proof.
  induction lines1 as [| line1 rest IH]; intros i used out; simpl.
  - exists []. rewrite app_nil_r. repeat split; (constructor || auto).
  - assert (Hstep : forall used' d,
              vd_id d = lit "diff_" ++ showNat i -> lineDifferenceShape d ->
              exists ks,
                map vd_id (snd (diffOldLines rest (S i) lines2 used' (out ++ [d])))
                = map vd_id out ++ map (fun k => lit "diff_" ++ showNat k) ks /\
                Forall (fun k => i <= k) ks /\ NoDup ks /\
                (Forall lineDifferenceShape out ->
                 Forall lineDifferenceShape
                   (snd (diffOldLines rest (S i) lines2 used' (out ++ [d]))))).
    { intros used' d Hid Hshape.
      destruct (IH (S i) used' (out ++ [d])) as (ks & Hids & Hge & Hnd & Hsh).
      exists (i :: ks). rewrite Hids, map_app, <- app_assoc. simpl. rewrite Hid.
      split; [reflexivity |]. split; [| split].
      - constructor; [lia |]. eapply Forall_impl; [exact Hge |]. simpl. intros; lia.
      - constructor; [| exact Hnd]. intros Hin. rewrite Forall_forall in Hge.
        specialize (Hge i Hin). lia.
      - intros Hout. apply Hsh. apply Forall_app. split; [exact Hout |].
        constructor; [exact Hshape | constructor]. }
    destruct (findMatchingLine line1 lines2 used) as [j |].
    + destruct (bool_decide (line1 = nth j lines2 [])).
      * destruct (IH (S i) ({[ j ]} ∪ used) out) as (ks & Hids & Hge & Hnd & Hsh).
        exists ks. split; [exact Hids |]. split; [| split; assumption].
        eapply Forall_impl; [exact Hge |]. simpl. intros; lia.
      * apply Hstep; [reflexivity |]. unfold lineDifferenceShape, lineDifference. simpl.
        split; [reflexivity |]. split.
        -- texts_short.
        -- right. left. split; [reflexivity |]. split; discriminate.
    + apply Hstep; [reflexivity |]. unfold lineDifferenceShape, lineDifference. simpl.
      split; [reflexivity |]. split.
      * texts_short.
      * left. split; [reflexivity |]. split; [discriminate | reflexivity].
Qed.

Lemma diffNewLines_entries (lines2 : list jstring) :
  forall (j : nat) (used : gset nat) (out : list VersionDifference),
    exists ks,
      map vd_id (diffNewLines lines2 j used out)
      = map vd_id out ++ map (fun k => lit "diff_added_" ++ showNat k) ks /\
      Forall (fun k => j <= k) ks /\ NoDup ks /\
      (Forall lineDifferenceShape out ->
       Forall lineDifferenceShape (diffNewLines lines2 j used out)).
Proof.
  induction lines2 as [| line2 rest IH]; intros j used out; simpl.
  - exists []. rewrite app_nil_r. repeat split; (constructor || auto).
  - destruct (bool_decide (j ∈ used)).
    + destruct (IH (S j) used out) as (ks & Hids & Hge & Hnd & Hsh).
      exists ks. split; [exact Hids |]. split; [| split; assumption].
      eapply Forall_impl; [exact Hge |]. simpl. intros; lia.
    + match goal with
      | |- context [diffNewLines rest (S j) used (out ++ [?d])] =>
          destruct (IH (S j) used (out ++ [d])) as (ks & Hids & Hge & Hnd & Hsh)
      end.
      exists (j :: ks). rewrite Hids, map_app, <- app_assoc. simpl.
      split; [reflexivity |]. split; [| split].
      * constructor; [lia |]. eapply Forall_impl; [exact Hge |]. simpl. intros; lia.
      * constructor; [| exact Hnd]. intros Hin. rewrite Forall_forall in Hge.
        specialize (Hge j Hin). lia.
      * intros Hout. apply Hsh. apply Forall_app. split; [exact Hout |].
        constructor; [| constructor]. unfold lineDifferenceShape, lineDifference. simpl.
        split; [reflexivity |]. split.
        -- texts_short.
        -- right. right. split; [reflexivity |]. split; [reflexivity | discriminate].
Qed.

Lemma NoDup_map_inj {A B} (f : A -> B) (l : list A) :
  (forall x y, f x = f y -> x = y) -> NoDup l -> NoDup (map f l).
Proof.
  intros Hf. induction 1 as [| x l Hx _ IH]; simpl; constructor; [| exact IH].
  intros Hin. apply Hx. apply list_elem_of_In, in_map_iff in Hin as (y & Hy & Hin).
  apply Hf in Hy. subst y. apply list_elem_of_In. exact Hin.
Qed.

Lemma prefixed_showNat_inj (prefix : jstring) (x y : nat) :
  prefix ++ showNat x = prefix ++ showNat y -> x = y.
Proof. intros H. apply app_inv_head in H. apply showNat_inj, H. Qed.

Lemma diff_id_not_added (k1 k2 : nat) :
  lit "diff_" ++ showNat k1 <> lit "diff_added_" ++ showNat k2.
Proof.
  change (lit "diff_added_") with (lit "diff_" ++ lit "added_").
  rewrite <- app_assoc. intros H. apply app_inv_head in H.
  pose proof (showNat_digits k1) as Hd. rewrite H in Hd.
  inversion Hd as [| ? ? Ha _]. discriminate Ha.
Qed.

(** X15. The entries of a diff can be told apart and have a fixed shape:
    no two of them have the same [id], none has a risk impact, a
    deletion carries the old text only, an addition the new text only, a
    modification both or neither, and no text is longer than 500
    characters. *)
Theorem simpleTextDiff_entries (text1 text2 : jstring) :
  NoDup (map vd_id (simpleTextDiff text1 text2)) /\
  Forall lineDifferenceShape (simpleTextDiff text1 text2).
Proof.
  unfold simpleTextDiff.
  destruct (diffOldLines_entries (toLines text2) (toLines text1) 0 ∅ [])
    as (ks1 & Hid1 & _ & Hnd1 & Hsh1).
  destruct (diffOldLines (toLines text1) 0 (toLines text2) ∅ []) as [used2 out1].
  simpl in Hid1, Hsh1. specialize (Hsh1 ltac:(constructor)).
  destruct (diffNewLines_entries (toLines text2) 0 used2 out1)
    as (ks2 & Hid2 & _ & Hnd2 & Hsh2).
  specialize (Hsh2 Hsh1).
  set (out := diffNewLines (toLines text2) 0 used2 out1) in *.
  assert (Hout : NoDup (map vd_id out)).
  { rewrite Hid2, Hid1. apply NoDup_app. split; [| split].
    - apply NoDup_map_inj; [| exact Hnd1].
      intros x y H. exact (prefixed_showNat_inj (lit "diff_") x y H).
    - intros s Hs1 Hs2.
      apply list_elem_of_In, in_map_iff in Hs1 as (k1 & <- & _).
      apply list_elem_of_In, in_map_iff in Hs2 as (k2 & Hs2 & _).
      exact (diff_id_not_added k1 k2 (eq_sym Hs2)).
    - apply NoDup_map_inj; [| exact Hnd2].
      intros x y H. exact (prefixed_showNat_inj (lit "diff_added_") x y H). }
  destruct ((length out =? 0) && negb (bool_decide (trim text1 = trim text2))) eqn:E;
    [| split; assumption].
  apply andb_true_iff in E as [E _]. apply Nat.eqb_eq in E.
  destruct out; [| discriminate E]. simpl. split.
  - apply NoDup_singleton.
  - constructor; [| constructor]. unfold lineDifferenceShape, lineDifference. simpl.
    split; [reflexivity |]. split; [constructor |].
    right. left. split; [reflexivity |]. split; reflexivity.
Qed.

(** *** The description of a changed line *)

(** X16. [describeLineChange] says "No change" exactly when the two lines
    are equal up to the white space around them; every other description
    starts in another way. *)
Theorem describeLineChange_no_change (oldLine newLine : jstring) :
  describeLineChange oldLine newLine = lit "No change" <-> trim oldLine = trim newLine.
Proof.
  unfold describeLineChange.
  destruct (bool_decide_reflect (trim oldLine = trim newLine)) as [E | Hne];
    [split; [intros _; exact E | reflexivity] |].
  split; [| intros E; contradiction].
  intros H. exfalso.
  destruct (suffixLoop _ _ _ _) as [endA endB].
  apply (f_equal (fun s => head s)) in H.
  repeat match type of H with
         | context [if ?c then _ else _] => destruct c
         end;
    vm_compute in H; discriminate H.
Qed.

(** *** The comparison of two versions *)

Lemma firstAnswer_Some {A} (ask : jstring -> option A) (models : list jstring) (a : A) :
  firstAnswer ask models = Some a -> exists m, In m models /\ ask m = Some a.
Proof.
  induction models as [| m models IH]; simpl; [discriminate |].
  destruct (ask m) as [b |] eqn:E.
  - intros [= <-]. exists m. split; [left; reflexivity | exact E].
  - intros H. destruct (IH H) as (m' & Hin & Hm). exists m'. split; [right |]; assumption.
Qed.

(** X17. [compareVersions] falls back to the line diff: without an API key
    it is [simpleTextDiff], and an array of the model is used only when
    it is not empty. So the comparison finds no difference only when the
    line diff finds none, that is, only for texts that are equal up to
    the white space around them. *)
Theorem compareVersions_fallback (env : Env)
  (generateDifferences : jstring -> jstring -> jstring -> jstring
                         -> option (list ParsedDifference))
  (text1 text2 : jstring) (clauses1 clauses2 : option (list ExtractedClause)) :
  (genAI env = false ->
   compareVersions env generateDifferences text1 text2 clauses1 clauses2
   = simpleTextDiff text1 text2) /\
  (compareVersions env generateDifferences text1 text2 clauses1 clauses2 = [] ->
   simpleTextDiff text1 text2 = [] /\ trim text1 = trim text2).
Proof.
  unfold compareVersions. split.
  - intros ->. reflexivity.
  - assert (Hdiff : simpleTextDiff text1 text2 = [] ->
                    simpleTextDiff text1 text2 = [] /\ trim text1 = trim text2).
    { intros H. split; [exact H |]. revert H. unfold simpleTextDiff.
      destruct (diffOldLines _ _ _ _ _) as [used2 out1].
      destruct (diffNewLines _ _ _ _) as [| d out]; simpl.
      - destruct (bool_decide_reflect (trim text1 = trim text2)) as [E | _];
          [intros _; exact E | discriminate].
      - discriminate. }
    destruct (negb (genAI env)); [exact Hdiff |].
    destruct (firstAnswer _ _) as [arr |] eqn:E; [| exact Hdiff].
    apply firstAnswer_Some in E as (m & _ & Hm).
    destruct (generateDifferences _ _ _ _) as [[| item arr'] |]; try discriminate Hm.
    injection Hm as <-. unfold mapi. simpl. intros H. discriminate H.
Qed.

(** ** Replacing the characters of a class by a text *)

Lemma replaceLoop_class (ic : bool) (r : Regex.re) (p : ascii -> bool)
  (run_r : forall k s, Regex.run ic r k s = Regex.one p k s) (repl : jstring)
  (fuel : nat) :
  forall (s : jstring) (i : nat) (pv : option ascii),
    length s < fuel ->
    replaceLoop fuel ic r repl i pv s = flat_map (fun x => if p x then repl else [x]) s.
Proof.
  induction fuel as [| fuel IH]; intros s i pv Hlen; [lia |].
  cbn [replaceLoop]. pose proof (searchFrom_one ic r p run_r s i pv) as Hs.
  assert (Hkeep : forall t, forallb (fun x => negb (p x)) t = true ->
                            flat_map (fun x => if p x then repl else [x]) t = t).
  { induction t as [| x t IHt]; simpl; [reflexivity |].
    destruct (p x); simpl; [discriminate |]. intros H. rewrite IHt by exact H. reflexivity. }
  destruct (Regex.searchFrom ic r i pv s) as [m |].
  - destruct Hs as (k & x & -> & Hk & Hx & Hp).
    cbn [Regex.m_start Regex.m_end].
    rewrite (proj2 (Nat.eqb_neq (S (i + k)) (i + k))) by lia.
    replace (i + k - i) with k by lia. replace (S (i + k) - i) with (S k) by lia.
    assert (Hlt : k < length s) by (apply lookup_lt_is_Some; eauto).
    rewrite IH by (rewrite length_drop; lia).
    rewrite <- (take_drop_middle s k x Hx) at 3.
    rewrite flat_map_app. cbn [flat_map]. rewrite Hp, (Hkeep _ Hk). reflexivity.
  - symmetry. apply Hkeep. exact Hs.
Qed.

Lemma sanitize_map (originalname : jstring) :
  replace originalname (rxg "[^a-zA-Z0-9.-]") (lit "_")
  = map (fun x => if isFilenameChar x then x else "_"%char) originalname.
Proof.
  unfold replace. simpl global. cbv iota.
  change (compile (rxg "[^a-zA-Z0-9.-]"))
    with (Regex.CSet true [Regex.IRange "a" "z"; Regex.IRange "A" "Z";
                           Regex.IRange "0" "9"; Regex.IChar "."; Regex.IChar "-"]).
  rewrite (replaceLoop_class false _
             (fun x => xorb true
                (existsb (fun i => Regex.inItem false i x)
                   [Regex.IRange "a" "z"; Regex.IRange "A" "Z"; Regex.IRange "0" "9";
                    Regex.IChar "."; Regex.IChar "-"])))
    by (reflexivity || lia).
  induction originalname as [| x s IH]; simpl; [reflexivity |]. simpl in IH. rewrite IH.
  assert (E : xorb true
                (existsb (fun i => Regex.inItem false i x)
                   [Regex.IRange "a" "z"; Regex.IRange "A" "Z"; Regex.IRange "0" "9";
                    Regex.IChar "."; Regex.IChar "-"])
              = negb (isFilenameChar x) \/ x = "_"%char).
  { destruct x as [[] [] [] [] [] [] [] []]; (left; reflexivity) || (right; reflexivity). }
  destruct E as [E | ->]; [| reflexivity].
  simpl in E. rewrite E. destruct (isFilenameChar x); reflexivity.
Qed.

(** X18. The name under which an upload is stored is built from the time
    and the original name with every character other than a letter, a
    digit, [.] or [-] replaced by [_]: it has the length of its parts,
    holds only those characters and so no [/] or [\], whatever the
    original name is. *)
Theorem storedFilename_safe (now : nat) (originalname : jstring) :
  Forall (fun c => isFilenameChar c = true) (storedFilename now originalname) /\
  ~ In "/"%char (storedFilename now originalname) /\
  ~ In "\"%char (storedFilename now originalname) /\
  length (storedFilename now originalname)
  = length (showNat now) + 1 + length originalname.
Proof.
  assert (Hall : Forall (fun c => isFilenameChar c = true) (storedFilename now originalname)).
  { unfold storedFilename. rewrite sanitize_map.
    apply Forall_app; split; [| apply Forall_app; split].
    - eapply Forall_impl; [apply showNat_digits |]. intros c Hc. unfold isFilenameChar.
      rewrite Hc. destruct (isLower c), (isUpper c); reflexivity.
    - repeat constructor.
    - apply Forall_forall. intros c Hc. apply list_elem_of_In, in_map_iff in Hc as (x & <- & _).
      destruct (isFilenameChar x) eqn:E; [exact E | reflexivity]. }
  split; [exact Hall |]. rewrite Forall_forall in Hall.
  split; [| split].
  - intros H. apply list_elem_of_In, Hall in H. discriminate H.
  - intros H. apply list_elem_of_In, Hall in H. discriminate H.
  - unfold storedFilename. rewrite sanitize_map, !length_app, length_map. simpl. lia.
Qed.

(** ** Deleting a document *)

Lemma findOwned_Some (userId id : ObjectId) (db : DB) (doc : Document) :
  findOwned userId id db = Some doc ->
  documents db !! id = Some doc /\ doc_userId doc = userId.
Proof.
  unfold findOwned. destruct (documents db !! id) as [d |]; [| discriminate].
  destruct (doc_userId d =? userId) eqn:E; [| discriminate].
  intros [= ->]. split; [reflexivity | apply Nat.eqb_eq, E].
Qed.


(** ** Upload, run and delete *)

(** After a run, whatever its outcome, the document is still there and
    belongs to the same user. *)
Lemma runDocumentPipeline_owner (env : Env) (documentId : ObjectId) (filePath : jstring)
  (db db' : DB) (r : Result (Z * jstring)) (doc : Document) :
  documents db !! documentId = Some doc ->
  runDocumentPipeline env documentId filePath db = (db', r) ->
  exists doc', documents db' = <[ documentId := doc' ]> (documents db) /\
               doc_userId doc' = doc_userId doc /\ doc_filePath doc' = doc_filePath doc.
Proof.
  intros Hdoc Hrun.
  destruct (runDocumentPipeline_cases _ _ _ _ _ _ Hrun) as [[-> _] | (doc0 & Hstart & _)].
  { exists doc. split; [symmetry; apply insert_id, Hdoc | split; reflexivity]. }
  destruct r as [[riskScore summary] | err].
  - apply runDocumentPipeline_ok in Hrun
      as (doc1 & ex & Hdoc1 & _ & _ & _ & _ & _ & _ & Hd).
    rewrite Hdoc in Hdoc1. injection Hdoc1 as <-.
    eexists. split; [exact Hd |]. destruct doc; split; reflexivity.
  - pose proof (runDocumentPipeline_throw _ _ _ _ _ _ _ Hstart Hdoc Hrun) as Hd.
    destruct (updateFailedFails env); [destruct Hd as [_ Hd] | destruct Hd as [Hd _]];
      eexists; (split; [exact Hd |]); destruct doc; split; reflexivity.
Qed.

(** X20. Deleting a document that was uploaded and processed undoes both:
    when no operation of the delete route throws, the answer is 204, the
    documents are those before the upload, nothing is left of the
    structure, the risk flags and the embeddings of the run, whatever
    its outcome was, and every other document has the structure, the
    flags and the embeddings it had before the upload. *)
Theorem upload_process_delete (createFails : bool) (req : UploadRequest) (env : Env)
  (renv : RouteEnv) (db db1 db2 : DB) (id : ObjectId) (filePath : jstring)
  (r : Result (Z * jstring)) (chats : list ChatHistory) (files : gset string) :
  uploadDocument createFails req db = (db1, (201, Some id)) ->
  runDocumentPipeline env id filePath db1 = (db2, r) ->
  deletionSucceeds renv ->
  let res := deleteDocument renv (req_userId req) id (mkStore db2 chats files) in
  snd res = 204 /\
  documents (st_db (fst res)) = documents db /\
  structures (st_db (fst res)) !! id = None /\
  flagsOfDocument id (st_db (fst res)) = [] /\
  embeddingsOfDocument id (st_db (fst res)) = [] /\
  (forall j, j <> id ->
     structures (st_db (fst res)) !! j = structures db !! j /\
     flagsOfDocument j (st_db (fst res)) = flagsOfDocument j db /\
     embeddingsOfDocument j (st_db (fst res)) = embeddingsOfDocument j db).
Proof.
  intros Hup Hrun (Hf1 & Hf2 & Hf3 & Hf4 & Hf5).
  unfold uploadDocument in Hup. destruct (req_file req) as [file |]; [| discriminate Hup].
  destruct createFails; [discriminate Hup |].
  injection Hup as Hdb1 Hid.
  assert (Hfresh : documents db !! id = None).
  { rewrite <- Hid. apply not_elem_of_dom, is_fresh. }
  assert (Hdoc : documents db1 !! id = Some (newDocument req file)).
  { rewrite <- Hdb1, Hid. simpl. apply lookup_insert_eq. }
  destruct (runDocumentPipeline_owner env id filePath db1 db2 r _ Hdoc Hrun)
    as (doc' & Hd2 & Hu & _).
  assert (Hown : findOwned (req_userId req) id db2 = Some doc').
  { unfold findOwned. rewrite Hd2, lookup_insert_eq, Hu. simpl.
    rewrite Nat.eqb_refl. reflexivity. }
  assert (Hdocs : delete id (documents db2) = documents db).
  { rewrite Hd2, delete_insert_eq, <- Hdb1, Hid. simpl.
    apply delete_insert_id, Hfresh. }
  assert (Hothers : forall j, j <> id ->
            structures db2 !! j = structures db !! j /\
            flagsOfDocument j db2 = flagsOfDocument j db /\
            embeddingsOfDocument j db2 = embeddingsOfDocument j db).
  { intros j Hj.
    destruct (runDocumentPipeline_others env id filePath db1 db2 r j Hj Hrun)
      as (_ & Hs & Hfl & He & _).
    rewrite Hs, Hfl, He, <- Hdb1. repeat split; reflexivity. }
  cbv zeta. unfold deleteDocument. rewrite Hf1, Hf2, Hf3, Hf4, Hf5.
  cbn [st_db st_chatHistory st_files]. rewrite Hown.
  destruct (rt_chromaEnabled renv && rt_chromaCollection renv &&
            negb (rt_chromaDeleteFails renv));
    cbn [fst snd st_db]; unfold flagsOfDocument, embeddingsOfDocument in *; simpl.
  all: rewrite Hdocs, lookup_delete_eq.
  all: rewrite (filter_not_self (fun e => emb_documentId e =? id)).
  all: rewrite (filter_not_self (fun f => rf_documentId f =? id)).
  all: repeat (split; [reflexivity |]).
  all: intros j Hj; destruct (Hothers j Hj) as (Hs & Hfl & He).
  all: rewrite lookup_delete_ne by congruence.
  all: rewrite (filter_filter_other emb_documentId id j) by exact Hj.
  all: rewrite (filter_filter_other rf_documentId id j) by exact Hj.
  all: repeat split; assumption.
Qed.

Lemma upload_process_delete_witness :
  uploadDocument false exampleRequest exampleDb
  = (fst (uploadDocument false exampleRequest exampleDb), (201, Some 8)) /\
  runDocumentPipeline (exampleEnv plainText) 8 (lit "uploads/2_b.pdf")
    (fst (uploadDocument false exampleRequest exampleDb))
  = (fst (runDocumentPipeline (exampleEnv plainText) 8 (lit "uploads/2_b.pdf")
            (fst (uploadDocument false exampleRequest exampleDb))),
     Ok (60%Z, lit "API key not set.")) /\
  deletionSucceeds exampleRouteEnv /\
  documents
    (st_db
       (fst (deleteDocument exampleRouteEnv 1 8
               (mkStore
                  (fst (runDocumentPipeline (exampleEnv plainText) 8
                          (lit "uploads/2_b.pdf")
                          (fst (uploadDocument false exampleRequest exampleDb))))
                  [] ∅))))
  = documents exampleDb.
Proof.
  assert (Hup : uploadDocument false exampleRequest exampleDb
                = (fst (uploadDocument false exampleRequest exampleDb), (201, Some 8)))
    by (vm_compute; reflexivity).
  assert (Hrun : runDocumentPipeline (exampleEnv plainText) 8 (lit "uploads/2_b.pdf")
                   (fst (uploadDocument false exampleRequest exampleDb))
                 = (fst (runDocumentPipeline (exampleEnv plainText) 8
                           (lit "uploads/2_b.pdf")
                           (fst (uploadDocument false exampleRequest exampleDb))),
                    Ok (60%Z, lit "API key not set.")))
    by (vm_compute; reflexivity).
  assert (Hdel : deletionSucceeds exampleRouteEnv) by (repeat split; reflexivity).
  split; [exact Hup |]. split; [exact Hrun |]. split; [exact Hdel |].
  exact (proj1 (proj2 (upload_process_delete false exampleRequest (exampleEnv plainText)
                         exampleRouteEnv exampleDb _ _ 8 (lit "uploads/2_b.pdf") _
                         [] ∅ Hup Hrun Hdel))).
Defined.

(** ** The heuristics on the text *)

(** X21. For texts of ASCII characters the document type found by the
    heuristics does not depend on the case of the letters: two such texts
    with the same lower-case form have the same length and get the same
    type. *)
Theorem detectDocumentType_ignores_case (a b : jstring) :
  isAscii a = true -> isAscii b = true ->
  toLowerCase a = toLowerCase b ->
  length a = length b /\ detectDocumentType a = detectDocumentType b.
Proof.
  intros _ _ H.
  assert (Hlen : length a = length b).
  { apply (f_equal (@length ascii)) in H. unfold toLowerCase in H.
    rewrite !length_map in H. exact H. }
  assert (Ht : truthy a = truthy b).
  { destruct a, b; simpl in *; congruence. }
  split; [exact Hlen |].
  unfold detectDocumentType. rewrite H, Hlen, Ht. reflexivity.
Qed.

Lemma detectDocumentType_ignores_case_witness :
  isAscii (lit "NON-DISCLOSURE of Confidential Data") = true /\
  isAscii (lit "non-disclosure OF CONFIDENTIAL data") = true /\
  toLowerCase (lit "NON-DISCLOSURE of Confidential Data")
  = toLowerCase (lit "non-disclosure OF CONFIDENTIAL data") /\
  detectDocumentType (lit "NON-DISCLOSURE of Confidential Data")
  = detectDocumentType (lit "non-disclosure OF CONFIDENTIAL data").
Proof.
  split; [reflexivity |]. split; [reflexivity |].
  split; [vm_compute; reflexivity |].
  apply (detectDocumentType_ignores_case
           (lit "NON-DISCLOSURE of Confidential Data")
           (lit "non-disclosure OF CONFIDENTIAL data"));
    vm_compute; reflexivity.
Defined.

Lemma invoiceRow_length (line : jstring) (r : list jstring) :
  invoiceRow line = Some r -> length r = 5.
Proof.
  unfold invoiceRow. destruct (_ && _ && _); [| discriminate].
  intros [= <-]. reflexivity.
Qed.

Lemma detectInvoiceTable_shape (pageText : jstring) (pageNumber : Z) (t : Table) :
  detectInvoiceTable pageText pageNumber = Some t -> tableShape pageNumber t.
Proof.
  unfold detectInvoiceTable.
  destruct (dropUntil invoiceHeaderLine (nonEmptyLines pageText)) as [fromHeader |];
    [| discriminate].
  destruct (omap invoiceRow (drop 1 fromHeader)) as [| r rs] eqn:E; [discriminate |].
  intros [= <-]. unfold tableShape. cbn [tb_pageNumber tb_headers tb_rows].
  split; [reflexivity |]. split; [simpl; lia |].
  split; [repeat constructor; discriminate |].
  split; [discriminate |].
  rewrite <- E. apply Forall_forall. intros x Hx.
  apply list_elem_of_omap in Hx as (line & _ & Hline).
  apply invoiceRow_length in Hline. lia.
Qed.

(** X22. The table heuristics find at most one table on a page.  A table
    they find carries the page number, has at least two headers, none of
    them empty, and at least one row, and every row has at least two
    cells (an invoice table has the five invoice headers and rows of
    five cells). *)
Theorem detectTablesFromText_shape (pageText : jstring) (pageNumber : Z) :
  length (detectTablesFromText pageText pageNumber) <= 1 /\
  Forall (tableShape pageNumber) (detectTablesFromText pageText pageNumber) /\
  (forall t, detectInvoiceTable pageText pageNumber = Some t ->
     detectTablesFromText pageText pageNumber = [t] /\
     length (tb_headers t) = 5 /\ Forall (fun r => length r = 5) (tb_rows t)).
Proof.
  assert (Hinv : forall t, detectInvoiceTable pageText pageNumber = Some t ->
            detectTablesFromText pageText pageNumber = [t]).
  { intros t Ht. unfold detectTablesFromText. rewrite Ht.
    destruct (length (nonEmptyLines pageText) <? 2); [reflexivity |].
    cbn [length Nat.eqb]. rewrite andb_false_r. reflexivity. }
  split; [| split].
  - destruct (detectInvoiceTable pageText pageNumber) as [t |] eqn:Et.
    { rewrite (Hinv t eq_refl). simpl. lia. }
    unfold detectTablesFromText. rewrite Et.
    destruct (length (nonEmptyLines pageText) <? 2); [simpl; lia |].
    destruct (_ && _); [| simpl; lia].
    destruct (List.filter _ (drop 1 _)); simpl; lia.
  - destruct (detectInvoiceTable pageText pageNumber) as [t |] eqn:Et.
    { rewrite (Hinv t eq_refl). repeat constructor.
      all: apply (detectInvoiceTable_shape pageText pageNumber t Et). }
    unfold detectTablesFromText. rewrite Et.
    destruct (length (nonEmptyLines pageText) <? 2); [constructor |].
    set (rows := List.filter (fun cells => 2 <=? length cells)
                             (map lineCells (nonEmptyLines pageText))).
    assert (Hrows : Forall (fun r => 2 <= length r) rows).
    { apply Forall_forall. intros r Hr. apply list_elem_of_In, filter_In in Hr as (_ & Hr).
      apply Nat.leb_le, Hr. }
    destruct ((2 <=? length rows) && (length [] =? 0)) eqn:Eg; [| constructor].
    apply andb_prop in Eg as (Eg & _). apply Nat.leb_le in Eg.
    destruct (List.filter _ (drop 1 rows)) as [| d ds] eqn:Ed; [constructor |].
    cbn [app]. constructor; [| constructor].
    unfold tableShape. cbn [tb_pageNumber tb_headers tb_rows].
    assert (Hhead : 2 <= length (nth 0 rows [])).
    { destruct rows as [| r0 rest]; [simpl in Eg; lia |].
      simpl. apply Forall_cons in Hrows as (H0 & _). exact H0. }
    split; [reflexivity |]. split; [rewrite length_map; exact Hhead |].
    split.
    { apply Forall_forall. intros h Hh. apply list_elem_of_In, in_map_iff in Hh as (x & <- & _).
      destruct x; simpl; discriminate. }
    split; [discriminate |].
    rewrite <- Ed. apply Forall_forall. intros r Hr.
    apply list_elem_of_In, filter_In in Hr as (Hr & _).
    rewrite Forall_forall in Hrows. apply Hrows, list_elem_of_In.
    rewrite <- (take_drop 1 rows). apply in_or_app. right. exact Hr.
  - intros t Ht. split; [exact (Hinv t Ht) |].
    unfold detectInvoiceTable in Ht.
    destruct (dropUntil invoiceHeaderLine (nonEmptyLines pageText)) as [fromHeader |];
      [| discriminate].
    destruct (omap invoiceRow (drop 1 fromHeader)) as [| r rs] eqn:E; [discriminate |].
    injection Ht as <-. cbn [tb_headers tb_rows]. split; [reflexivity |].
    rewrite <- E. apply Forall_forall. intros x Hx.
    apply list_elem_of_omap in Hx as (line & _ & Hline).
    exact (invoiceRow_length line x Hline).
Qed.

Lemma sectionOfBlock_content (block : jstring) (s : Section_) :
  sectionOfBlock block = Some s -> sec_content s <> [] /\ sec_pageNumber s = 1%Z.
Proof.
  unfold sectionOfBlock. cbv zeta.
  match goal with |- context [0 <? length ?c] => destruct c as [| x content] eqn:E end.
  { simpl. discriminate. }
  cbn [length Nat.ltb Nat.leb truthy]. intros [= <-]. simpl. split; [discriminate | reflexivity].
Qed.

(** X23. The section heuristics give at least one section for every text,
    all on page 1.  Either no block of the text gave a section and the
    result is the single section [Document] holding the first 5000
    characters of the text, or every section has content that is not
    empty. *)
Theorem extractSectionsFromText_sections (rawText : jstring) :
  extractSectionsFromText rawText <> [] /\
  Forall (fun s => sec_pageNumber s = 1%Z) (extractSectionsFromText rawText) /\
  (extractSectionsFromText rawText
   = [mkSection (lit "Document") (slice rawText 0 5000) 1 None None] /\
   length (slice rawText 0 5000) <= 5000
   \/
   Forall (fun s => sec_content s <> []) (extractSectionsFromText rawText)).
Proof.
  unfold extractSectionsFromText. cbv zeta.
  set (blocks := List.filter truthy (map trim (split rawText (rx "\n\s*\n")))).
  assert (H : Forall (fun s => sec_content s <> [] /\ sec_pageNumber s = 1%Z)
                     (omap sectionOfBlock blocks)).
  { apply Forall_forall. intros s Hs. apply list_elem_of_omap in Hs as (b & _ & Hb).
    exact (sectionOfBlock_content b s Hb). }
  destruct (omap sectionOfBlock blocks) as [| s ss].
  - split; [discriminate |]. split; [repeat constructor |]. left. split; [reflexivity |].
    pose proof (length_slice_le rawText 0 5000 ltac:(lia) ltac:(lia)). lia.
  - split; [discriminate |].
    split; [eapply Forall_impl; [exact H |]; intros x Hx; apply Hx |].
    right. eapply Forall_impl; [exact H |]. intros x Hx. apply Hx.
Qed.

Lemma fieldOfPattern_field (rawText : jstring) (p : jstring * RegExp) (f : HeuristicField) :
  fieldOfPattern rawText p = Some f ->
  hf_fieldName f = fst p /\ trim (hf_value f) = hf_value f /\ hf_pageNumber f = 1%Z.
Proof.
  unfold fieldOfPattern. destruct p as [name regex].
  destruct (match_ rawText regex) as [m |]; [| discriminate].
  intros [= <-]. simpl. repeat split. apply trim_idem.
Qed.

Lemma omap_names_sublist (rawText : jstring) (ps : list (jstring * RegExp)) :
  map hf_fieldName (omap (fieldOfPattern rawText) ps) `sublist_of` map fst ps.
Proof.
  induction ps as [| p ps IH]; simpl; [constructor |].
  destruct (fieldOfPattern rawText p) as [f |] eqn:E.
  - simpl. apply fieldOfPattern_field in E as (-> & _). apply sublist_skip, IH.
  - apply sublist_cons, IH.
Qed.

Lemma idFieldStep_invariant (rawText : jstring) (p : jstring * RegExp)
  (seen : gset string) (fields : list HeuristicField) :
  (forall k, k ∈ seen <-> k ∈ map idFieldKey fields) ->
  NoDup (map idFieldKey fields) ->
  Forall (fun f => trim (hf_value f) = hf_value f /\ hf_pageNumber f = 1%Z) fields ->
  let st := idFieldStep rawText (seen, fields) p in
  (forall k, k ∈ fst st <-> k ∈ map idFieldKey (snd st)) /\
  NoDup (map idFieldKey (snd st)) /\
  Forall (fun f => trim (hf_value f) = hf_value f /\ hf_pageNumber f = 1%Z) (snd st) /\
  length (snd st) <= S (length fields).
Proof.
  intros Hseen Hnd Hall. unfold idFieldStep. destruct p as [name regex].
  destruct (match_ rawText regex) as [m |]; cbv zeta.
  2: { simpl. repeat split; try assumption; try apply Hseen; lia. }
  destruct (bool_decide _) eqn:Ek.
  { simpl. repeat split; try assumption; try apply Hseen; lia. }
  apply bool_decide_eq_false_1 in Ek. cbn [fst snd].
  split; [| split; [| split]].
  - intros k. rewrite map_app, elem_of_union, elem_of_singleton, elem_of_app, Hseen.
    simpl. rewrite list_elem_of_singleton. unfold idFieldKey at 2. simpl. tauto.
  - rewrite map_app. apply NoDup_app. split; [exact Hnd |]. split.
    + intros k Hk Hk'. simpl in Hk'. apply list_elem_of_singleton in Hk'. subst k.
      apply Ek, Hseen, Hk.
    + simpl. apply NoDup_singleton.
  - apply Forall_app. split; [exact Hall |]. repeat constructor. simpl. apply trim_idem.
  - rewrite length_app. simpl. lia.
Qed.

(** X24. The field heuristics give at most one field for each of their
    fourteen names, and the identity heuristics at most seven fields, no
    two with the same name and the same first 50 characters of the
    value.  Every value is trimmed and every field is on page 1. *)
Theorem heuristic_fields_distinct (rawText : jstring) :
  NoDup (map hf_fieldName (extractFieldsFromText rawText)) /\
  length (extractFieldsFromText rawText) <= 14 /\
  NoDup (map idFieldKey (extractIdFieldsFromText rawText)) /\
  length (extractIdFieldsFromText rawText) <= 7 /\
  Forall (fun f => trim (hf_value f) = hf_value f /\ hf_pageNumber f = 1%Z)
         (extractFieldsFromText rawText ++ extractIdFieldsFromText rawText).
Proof.
  assert (Hid : forall ps seen fields,
            (forall k, k ∈ seen <-> k ∈ map idFieldKey fields) ->
            NoDup (map idFieldKey fields) ->
            Forall (fun f => trim (hf_value f) = hf_value f /\ hf_pageNumber f = 1%Z)
                   fields ->
            let st := fold_left (idFieldStep rawText) ps (seen, fields) in
            NoDup (map idFieldKey (snd st)) /\
            Forall (fun f => trim (hf_value f) = hf_value f /\ hf_pageNumber f = 1%Z)
                   (snd st) /\
            length (snd st) <= length ps + length fields).
  { induction ps as [| p ps IH]; intros seen fields Hseen Hnd Hall.
    { simpl. repeat split; try assumption; lia. }
    cbn [fold_left].
    destruct (idFieldStep_invariant rawText p seen fields Hseen Hnd Hall)
      as (Hs' & Hn' & Ha' & Hl').
    destruct (idFieldStep rawText (seen, fields) p) as [seen' fields'].
    cbn [fst snd] in *.
    destruct (IH seen' fields' Hs' Hn' Ha') as (H1 & H2 & H3).
    repeat split; try assumption. simpl. lia. }
  assert (Hempty : forall k : string,
            k ∈ (∅ : gset string) <-> k ∈ map idFieldKey []).
  { intros k. simpl. rewrite elem_of_empty, elem_of_nil. tauto. }
  destruct (Hid idFieldPatterns ∅ [] Hempty ltac:(constructor) ltac:(constructor))
    as (Hn & Ha & Hl).
  split; [| split; [| split; [| split]]].
  - eapply sublist_NoDup; [| apply omap_names_sublist].
    apply (bool_decide_unpack _). vm_compute. reflexivity.
  - pose proof (sublist_length _ _ (omap_names_sublist rawText fieldPatternsOfText)) as L.
    rewrite !length_map in L. exact L.
  - exact Hn.
  - exact Hl.
  - apply Forall_app. split; [| exact Ha].
    apply Forall_forall. intros f Hf. apply list_elem_of_omap in Hf as (p & _ & Hp).
    apply fieldOfPattern_field in Hp. tauto.
Qed.

(** ** White space after the OCR correction *)

Lemma run_Rep (ic : bool) (a : Regex.re) (lo : nat) (hi : option nat) (greedy : bool)
  (k : Regex.St -> option Regex.St) (s : Regex.St) :
  Regex.run ic (Regex.Rep a lo hi greedy) k s
  = repLoop ic a lo hi greedy k (lo + length (Regex.rest s) + 1) 0 s.
Proof. reflexivity. Qed.

Lemma repLoop_spaces (fuel : nat) :
  forall (count : nat) (st : Regex.St),
    length (Regex.rest st) < fuel ->
    option_map (fun e => (Regex.pos e, Regex.caps e))
      (repLoop false (Regex.CSet false [Regex.IClass Regex.Space false]) 2 None true
         Some fuel count st)
    = if 2 <=? count + spaces (Regex.rest st)
      then Some (Regex.pos st + spaces (Regex.rest st), Regex.caps st)
      else None.
Proof.
  induction fuel as [| fuel IH]; intros count st Hlen; [lia |].
  change (repLoop false (Regex.CSet false [Regex.IClass Regex.Space false]) 2 None true
            Some (S fuel) count st)
    with (match Regex.one
                  (fun x => xorb false
                     (existsb (fun i => Regex.inItem false i x)
                        [Regex.IClass Regex.Space false]))
                  (fun e =>
                     if (2 <=? count) && (Regex.pos e =? Regex.pos st) then None
                     else repLoop false (Regex.CSet false [Regex.IClass Regex.Space false])
                            2 None true Some fuel (S count) e)
                  st
          with
          | Some e => Some e
          | None => if 2 <=? count then Some st else None
          end).
  unfold Regex.one. destruct st as [i pv s cs]. cbn [Regex.rest Regex.pos Regex.caps] in *.
  destruct s as [| x xs].
  { cbn [spaces]. rewrite !Nat.add_0_r. destruct (2 <=? count); reflexivity. }
  cbn [spaces existsb Regex.inItem Regex.inCls xorb orb].
  replace (if isWhiteSpace x then true else false) with (isWhiteSpace x)
    by (destruct (isWhiteSpace x); reflexivity).
  replace (isWhiteSpace x || false) with (isWhiteSpace x) by (symmetry; apply orb_false_r).
  destruct (isWhiteSpace x) eqn:Ex.
  2: { rewrite !Nat.add_0_r. destruct (2 <=? count); reflexivity. }
  unfold Regex.advance. cbn [Regex.pos Regex.caps].
  rewrite (proj2 (Nat.eqb_neq (S i) i)) by lia. rewrite andb_false_r.
  specialize (IH (S count) (Regex.mkSt (S i) (Some x) xs cs)).
  cbn [Regex.rest Regex.pos Regex.caps] in IH. simpl in Hlen.
  specialize (IH ltac:(lia)).
  replace (count + S (spaces xs)) with (S count + spaces xs) by lia.
  replace (i + S (spaces xs)) with (S i + spaces xs) by lia.
  destruct (repLoop _ _ _ _ _ _ fuel (S count) _) as [e |].
  - exact IH.
  - cbn [option_map] in IH.
    destruct (2 <=? S count + spaces xs) eqn:E2; [discriminate IH |].
    apply Nat.leb_gt in E2.
    destruct (2 <=? count) eqn:Ec; [apply Nat.leb_le in Ec; lia | reflexivity].
Qed.

Lemma matchAt_spaces (i : nat) (pv : option ascii) (s : jstring) :
  Regex.matchAt false
    (Regex.Rep (Regex.CSet false [Regex.IClass Regex.Space false]) 2 None true)
    (Regex.mkSt i pv s [])
  = if 2 <=? spaces s then Some (Regex.mkMatch i (i + spaces s) []) else None.
Proof.
  unfold Regex.matchAt. rewrite run_Rep. cbn [Regex.pos Regex.prev Regex.rest].
  pose proof (repLoop_spaces (2 + length s + 1) 0 (Regex.mkSt i pv s [])
                ltac:(simpl; lia)) as H.
  cbn [Regex.pos Regex.rest Regex.caps] in H. rewrite Nat.add_0_l in H.
  destruct (repLoop _ _ _ _ _ _ _ _ _) as [e |]; cbn [option_map] in H.
  - destruct (2 <=? spaces s); [| discriminate]. injection H as -> ->. reflexivity.
  - destruct (2 <=? spaces s); [discriminate | reflexivity].
Qed.

Lemma singleSpaced_cons (x : ascii) (s : jstring) :
  singleSpaced (x :: s) = true <->
  singleSpaced s = true /\ (isWhiteSpace x = true -> headNotSpace s).
Proof.
  destruct s as [| y t]; [simpl; tauto |].
  change (singleSpaced (x :: y :: t))
    with (negb (isWhiteSpace x && isWhiteSpace y) && singleSpaced (y :: t)).
  cbn [headNotSpace].
  destruct (isWhiteSpace x), (isWhiteSpace y); cbn [negb andb]; split.
  all: try (intros H; split; [exact H | intros; congruence]).
  all: try (intros (H & _); exact H).
  - discriminate.
  - intros (_ & H). specialize (H eq_refl). discriminate H.
Qed.

Lemma singleSpaced_app (a b : jstring) :
  singleSpaced a = true -> singleSpaced b = true ->
  lastNotSpace a \/ headNotSpace b ->
  singleSpaced (a ++ b) = true.
Proof.
  induction a as [| x a IH]; intros Ha Hb Hab; [exact Hb |].
  apply singleSpaced_cons in Ha as (Ha & Hx).
  cbn [app]. apply singleSpaced_cons. split.
  - apply IH; [exact Ha | exact Hb |].
    destruct Hab as [Hl | Hh]; [| right; exact Hh].
    destruct a as [| y a']; [| left; intros c Hc; apply Hl; exact Hc].
    destruct (isWhiteSpace x) eqn:Ex.
    + specialize (Hl x eq_refl). congruence.
    + left. intros c Hc. discriminate Hc.
  - intros Ex. destruct a as [| y a']; cbn [app].
    + destruct Hab as [Hl | Hh]; [| exact Hh]. specialize (Hl x eq_refl). congruence.
    + exact (Hx Ex).
Qed.

Lemma spaces_drop (s : jstring) : headNotSpace (drop (spaces s) s).
Proof.
  induction s as [| x xs IH]; simpl; [exact I |].
  destruct (isWhiteSpace x) eqn:Ex; simpl; [exact IH | exact Ex].
Qed.

Lemma spaces_length (s : jstring) : spaces s <= length s.
Proof.
  induction s as [| x xs IH]; simpl; [lia |]. destruct (isWhiteSpace x); simpl; lia.
Qed.

(** The search for two or more white-space characters finds the first
    place with two of them, and all the white space that follows. *)
Lemma searchFrom_spaces (s : jstring) :
  forall (i : nat) (pv : option ascii),
    match Regex.searchFrom false
            (Regex.Rep (Regex.CSet false [Regex.IClass Regex.Space false]) 2 None true)
            i pv s with
    | None => singleSpaced s = true
    | Some m =>
        exists k : nat,
          m = Regex.mkMatch (i + k) (i + k + spaces (drop k s)) [] /\
          2 <= spaces (drop k s) /\ k <= length s /\
          singleSpaced (take k s) = true /\ lastNotSpace (take k s) /\
          (headNotSpace s -> s <> [] -> 0 < k)
    end.
Proof.
  induction s as [| x xs IH]; intros i pv; cbn [Regex.searchFrom]; rewrite matchAt_spaces.
  { reflexivity. }
  destruct (2 <=? spaces (x :: xs)) eqn:E2.
  { apply Nat.leb_le in E2. exists 0. rewrite !Nat.add_0_r. cbn [drop take].
    split; [reflexivity |]. split; [exact E2 |]. split; [lia |].
    split; [reflexivity |]. split.
    - intros c Hc. discriminate Hc.
    - intros Hh _. simpl in Hh. simpl in E2. rewrite Hh in E2. lia. }
  apply Nat.leb_gt in E2.
  assert (Hx : isWhiteSpace x = true -> headNotSpace xs).
  { intros Ex. simpl in E2. rewrite Ex in E2. destruct xs as [| y t]; [exact I |].
    simpl in *. destruct (isWhiteSpace y); [lia | reflexivity]. }
  specialize (IH (S i) (Some x)).
  destruct (Regex.searchFrom _ _ (S i) (Some x) xs) as [m |].
  - destruct IH as (k & -> & Hn & Hk & Hs & Hl & _).
    exists (S k). cbn [drop take length].
    replace (i + S k) with (S i + k) by lia.
    split; [reflexivity |]. split; [exact Hn |]. split; [lia |].
    split; [| split].
    + apply singleSpaced_cons. split; [exact Hs |].
      intros Ex. specialize (Hx Ex). destruct xs as [| y t]; [destruct k; exact I |].
      destruct k as [| k]; [| exact Hx].
      cbn [drop] in Hn. simpl in Hx. simpl in Hn. rewrite Hx in Hn. lia.
    + intros c Hc. destruct (take k xs) as [| y t] eqn:Et.
      * simpl in Hc. injection Hc as <-.
        destruct (isWhiteSpace x) eqn:Ex; [| reflexivity].
        specialize (Hx eq_refl).
        assert (k = 0 \/ xs = []) as [-> | ->].
        { destruct k; [left; reflexivity |]. destruct xs; [right; reflexivity |].
          discriminate Et. }
        -- cbn [drop] in Hn. destruct xs as [| y t]; simpl in Hn; [lia |].
           simpl in Hx. rewrite Hx in Hn. lia.
        -- rewrite drop_nil in Hn. simpl in Hn. lia.
      * apply Hl. rewrite <- Hc. reflexivity.
    + intros _ _. lia.
  - apply singleSpaced_cons. split; [exact IH | exact Hx].
Qed.

Lemma replaceLoop_spaces (fuel : nat) :
  forall (s : jstring) (i : nat) (pv : option ascii),
    length s < fuel ->
    singleSpaced
      (replaceLoop fuel false
         (Regex.Rep (Regex.CSet false [Regex.IClass Regex.Space false]) 2 None true)
         (lit " ") i pv s) = true /\
    (headNotSpace s ->
     headNotSpace
       (replaceLoop fuel false
          (Regex.Rep (Regex.CSet false [Regex.IClass Regex.Space false]) 2 None true)
          (lit " ") i pv s)).
Proof.
  induction fuel as [| fuel IH]; intros s i pv Hlen; [lia |].
  cbn [replaceLoop]. pose proof (searchFrom_spaces s i pv) as Hs.
  destruct (Regex.searchFrom _ _ i pv s) as [m |]; [| split; [exact Hs | auto]].
  destruct Hs as (k & -> & Hn & Hk & Hsingle & Hlast & Hpos).
  cbn [Regex.m_start Regex.m_end].
  rewrite (proj2 (Nat.eqb_neq (i + k + spaces (drop k s)) (i + k))) by lia.
  replace (i + k - i) with k by lia.
  replace (i + k + spaces (drop k s) - i) with (k + spaces (drop k s)) by lia.
  pose proof (spaces_length (drop k s)) as Hsl. rewrite length_drop in Hsl.
  destruct (IH (drop (k + spaces (drop k s)) s) (i + k + spaces (drop k s))
              (last (take (k + spaces (drop k s)) s))
              ltac:(rewrite length_drop; lia)) as (Hrec & Hhead).
  assert (Hd : headNotSpace (drop (k + spaces (drop k s)) s)).
  { rewrite <- drop_drop. apply spaces_drop. }
  specialize (Hhead Hd).
  split.
  - apply singleSpaced_app; [exact Hsingle | | left; exact Hlast].
    change (lit " " ++ ?t) with (" "%char :: t).
    apply singleSpaced_cons. split; [exact Hrec | intros _; exact Hhead].
  - intros Hh. destruct s as [| x t]; [simpl in Hn; rewrite drop_nil in Hn; simpl in Hn; lia |].
    specialize (Hpos Hh ltac:(discriminate)). destruct k as [| k]; [lia |].
    simpl. exact Hh.
Qed.

(** X25. A text of ten characters or more leaves the OCR correction
    without two white-space characters next to each other: its last
    replacement turns every run of white space into one space. *)
Theorem correctOcrText_single_spaced (text : jstring) :
  10 <= length text -> singleSpaced (correctOcrText text) = true.
Proof.
  intros Hlen. unfold correctOcrText.
  destruct text as [| c text']; [simpl in Hlen; lia |].
  cbn [truthy negb orb]. rewrite (proj2 (Nat.ltb_ge _ _) Hlen).
  change ocrCorrections
    with (removelast ocrCorrections ++ [(rxg "\s{2,}", lit " ")]).
  rewrite fold_left_app. cbn [fold_left fst snd].
  unfold replace at 1. cbn [global].
  change (compile (rxg "\s{2,}"))
    with (Regex.Rep (Regex.CSet false [Regex.IClass Regex.Space false]) 2 None true).
  apply replaceLoop_spaces. lia.
Qed.

Lemma correctOcrText_single_spaced_witness :
  10 <= length (lit "Net 10 Says   for  Pt Ld") /\
  singleSpaced (correctOcrText (lit "Net 10 Says   for  Pt Ld")) = true.
Proof.
  split; [simpl; lia |].
  apply (correctOcrText_single_spaced (lit "Net 10 Says   for  Pt Ld")). simpl. lia.
Defined.

